(** * Visual databases: face alignment and ratio-matched recompilation

    A shallow embedding of the two engines of the project,
    [modules/compile.py] (continuity buckets, ratio index, frame matcher)
    and [modules/adjust.py] (crop, mouth-open ratio, the per-frame
    pipeline), together with the properties checked against them.

    Python values are modelled as follows.
    - [int] is [Z]; [str] is [string]; a list is a [list]; the ratio
      index [dict{int: list[str]}] is a [gmap Z (list string)].
    - [float] is IEEE binary64, the kernel's [PrimFloat.float].
    - A call that may raise returns a [result]: [Ok v] or [Raise e].
    - [random.randint] reads a stream of raw draws; the state is the
      number of calls made so far.
    - The face detector, PIL and the file system are the variables of a
      section: the pipeline is proved for every implementation of them. *)

From Stdlib Require Import ZArith String Ascii List Lia.
From Stdlib Require Import PrimFloat FloatOps SpecFloat.
From stdpp Require Import gmap strings list pretty sorting.

Local Open Scope string_scope.
Local Open Scope list_scope.
Local Open Scope Z_scope.

(* ===================================================================== *)
(** * Python prelude *)
(* ===================================================================== *)

Module Py.

(** The built-in exceptions the two modules can raise. *)
Inductive exn : Type :=
| IndexError
| ValueError
| ZeroDivisionError
| OverflowError.

(** The outcome of a call.  [OutOfFuel] is not a Python outcome: it marks
    a [while] loop of the model that was given too few iterations, and
    every statement about such a loop shows that it does not occur. *)
Inductive result (A : Type) : Type :=
| Ok (a : A)
| Raise (e : exn)
| OutOfFuel.
Arguments Ok {A} a.
Arguments Raise {A} e.
Arguments OutOfFuel {A}.

#[export] Instance result_ret : MRet result := fun _ a => Ok a.
#[export] Instance result_bind : MBind result := fun _ _ f r =>
  match r with
  | Ok a => f a
  | Raise e => Raise e
  | OutOfFuel => OutOfFuel
  end.
#[export] Instance result_fmap : FMap result := fun _ _ f r =>
  match r with
  | Ok a => Ok (f a)
  | Raise e => Raise e
  | OutOfFuel => OutOfFuel
  end.

(** [l[i]] with Python's negative indices. *)
Definition index {A} (l : list A) (i : Z) : result A :=
  let n := Z.of_nat (length l) in
  let j := if i <? 0 then i + n else i in
  if (0 <=? j) && (j <? n) then
    match l !! Z.to_nat j with
    | Some a => Ok a
    | None => Raise IndexError
    end
  else Raise IndexError.

(** [l.pop(i)], keeping the list that remains. *)
Definition pop {A} (l : list A) (i : Z) : result (list A) :=
  let n := Z.of_nat (length l) in
  let j := if i <? 0 then i + n else i in
  if (0 <=? j) && (j <? n) then Ok (delete (Z.to_nat j) l)
  else Raise IndexError.

(** [len(l)] *)
Definition len {A} (l : list A) : Z := Z.of_nat (length l).

(** ** Strings *)

Definition char_in (c : ascii) (chars : string) : bool :=
  existsb (Ascii.eqb c) (list_ascii_of_string chars).

(** [s.split(sep)] for a one-character separator: never empty. *)
Fixpoint split (sep : ascii) (s : string) : list string :=
  match s with
  | EmptyString => [EmptyString]
  | String c s' =>
      if Ascii.eqb c sep then EmptyString :: split sep s'
      else match split sep s' with
           | [] => [String c EmptyString]
           | w :: ws => String c w :: ws
           end
  end.

Fixpoint lstrip (chars : string) (s : string) : string :=
  match s with
  | EmptyString => EmptyString
  | String c s' => if char_in c chars then lstrip chars s' else s
  end.

Fixpoint rstrip (chars : string) (s : string) : string :=
  match s with
  | EmptyString => EmptyString
  | String c s' =>
      match rstrip chars s' with
      | EmptyString => if char_in c chars then EmptyString else String c EmptyString
      | r => String c r
      end
  end.

(** [s.strip(chars)]: removes from both ends every character that occurs
    in [chars] (a set of characters, not a suffix). *)
Definition strip (chars : string) (s : string) : string :=
  rstrip chars (lstrip chars s).

(** [s.endswith(suffix)] *)
Definition endswith (s suffix : string) : bool :=
  let n := String.length s in
  let m := String.length suffix in
  (m <=? n)%nat && String.eqb (substring (n - m) m s) suffix.

(** ASCII white space, as [int()] strips it. *)
Definition whitespace : string :=
  String " " (String "009" (String "010" (String "011" (String "012" (String "013" EmptyString))))).

Definition digit_of (c : ascii) : option Z :=
  let n := nat_of_ascii c in
  if (48 <=? n)%nat && (n <=? 57)%nat then Some (Z.of_nat (n - 48)) else None.

Fixpoint digits_value (acc : Z) (s : string) : option Z :=
  match s with
  | EmptyString => Some acc
  | String c s' =>
      match digit_of c with
      | Some d => digits_value (10 * acc + d) s'
      | None => None
      end
  end.

Definition unsigned_value (s : string) : result Z :=
  match s with
  | EmptyString => Raise ValueError
  | _ => match digits_value 0 s with
         | Some v => Ok v
         | None => Raise ValueError
         end
  end.

(** [int(s)] on a string: surrounding white space, an optional sign, then
    one or more ASCII digits; anything else is a [ValueError].  (Python
    also accepts a single underscore between digits and non-ASCII digits;
    every string parsed here is a piece of a name already split at its
    underscores, so the first cannot occur.) *)
Definition int_of_str (s : string) : result Z :=
  match strip whitespace s with
  | String "-" ds => v ← unsigned_value ds; Ok (- v)
  | String "+" ds => unsigned_value ds
  | ds => unsigned_value ds
  end.

(** [str(n)] for an [int]. *)
Definition str_of_int (n : Z) : string := pretty n.

(** [s.zfill(width)]: zeros on the left, after a leading sign. *)
Definition zfill (width : nat) (s : string) : string :=
  let zeros := string_of_list_ascii (repeat "0"%char (width - String.length s)) in
  match s with
  | String "-" ds => String "-" (zeros ++ ds)%string
  | String "+" ds => String "+" (zeros ++ ds)%string
  | _ => (zeros ++ s)%string
  end.

(** [os.path.join(a, b)] on POSIX paths. *)
Definition path_join (a b : string) : string :=
  match b with
  | String "/" _ => b
  | _ => if String.eqb a EmptyString || endswith a "/" then (a ++ b)%string
         else (a ++ "/" ++ b)%string
  end.

(** [path.split("/")[-1]] *)
Definition file_name_of (path : string) : string :=
  List.last (split "/" path) EmptyString.

(** ** [sorted(l, key=...)]

    Python's sort is stable and evaluates the key of every element
    first, left to right; a key that raises aborts the sort. *)

Fixpoint insert_by_key {A} (k : Z) (x : A) (l : list (Z * A)) : list (Z * A) :=
  match l with
  | [] => [(k, x)]
  | (k', y) :: l' =>
      if k <=? k' then (k, x) :: (k', y) :: l'
      else (k', y) :: insert_by_key k x l'
  end.

Fixpoint sort_keyed {A} (l : list (Z * A)) : list (Z * A) :=
  match l with
  | [] => []
  | (k, x) :: l' => insert_by_key k x (sort_keyed l')
  end.

Fixpoint with_keys {A} (key : A → result Z) (l : list A) : result (list (Z * A)) :=
  match l with
  | [] => Ok []
  | x :: l' =>
      k ← key x;
      kl ← with_keys key l';
      Ok ((k, x) :: kl)
  end.

Definition sorted {A} (key : A → result Z) (l : list A) : result (list A) :=
  kl ← with_keys key l;
  Ok (map snd (sort_keyed kl)).

(** ** [random.randint(0, n - 1)]

    [draws k] is the raw value behind the [k]-th call of the run; the call
    returns it reduced into the requested range.  Every outcome of every
    sequence of calls arises from some stream. *)
Definition randint0 (draws : nat → nat) (calls : nat) (n : nat) : nat :=
  (draws calls mod n)%nat.

(** ** Integers divided by two

    [int(n / 2)] for an [int] n: true division to a float, then
    truncation toward zero.  The quotient by two is exact in binary64 for
    |n| below 2^53, where the result is [Z.quot n 2]. *)
Definition int_half (n : Z) : Z := Z.quot n 2.

(** ** Floats (IEEE binary64) *)

(** [float(n)]: the nearest double, or [OverflowError]. *)
Definition float_of_int (n : Z) : result float :=
  let f := SF2Prim (binary_normalize prec emax n 0 false) in
  if PrimFloat.is_infinity f then Raise OverflowError else Ok f.

(** [a / b] on floats. *)
Definition float_div (a b : float) : result float :=
  if PrimFloat.eqb b 0 then Raise ZeroDivisionError else Ok (a / b)%float.

(** [a / b] on ints ([a] and [b] below 2^53 in magnitude, where both
    convert exactly and the quotient is the correctly rounded one). *)
Definition int_truediv (a b : Z) : result float :=
  if b =? 0 then Raise ZeroDivisionError
  else
    fa ← float_of_int a;
    fb ← float_of_int b;
    Ok (fa / fb)%float.

(** [int(f)]: truncation toward zero; [nan] and the infinities raise. *)
Definition int_of_float (f : float) : result Z :=
  match Prim2SF f with
  | S754_nan => Raise ValueError
  | S754_infinity _ => Raise OverflowError
  | S754_zero _ => Ok 0
  | S754_finite s m e =>
      let v := Z.shiftl (Z.pos m) e in
      Ok (if s then - v else v)
  end.

(** [math.hypot(x, y)] on two ints.  For pixel offsets (below 2^26) the
    sum of squares is exact and the root is the correctly rounded one. *)
Definition hypot (x y : Z) : result float :=
  fx ← float_of_int x;
  fy ← float_of_int y;
  Ok (PrimFloat.sqrt (fx * fx + fy * fy))%float.

End Py.

Import Py.

(* ===================================================================== *)
(** * [modules/compile.py] *)
(* ===================================================================== *)

Module Compile.

(** ** Continuity buckets: [get_source_frame_buckets] *)

(** [int(frame_name.split("_")[0])] *)
Definition frame_number_of (frame_name : string) : result Z :=
  part ← index (split "_" frame_name) 0;
  int_of_str part.

(** [source_frame_buckets[-1][-1]] *)
Definition last_of_last (source_frame_buckets : list (list string)) : result string :=
  bucket ← index source_frame_buckets (-1);
  index bucket (-1).

(** [source_frame_buckets[-1].append(x)] *)
Definition append_to_last (source_frame_buckets : list (list string)) (x : string)
  : result (list (list string)) :=
  bucket ← index source_frame_buckets (-1);
  Ok (removelast source_frame_buckets ++ [bucket ++ [x]])%list.

(** [source_frame_buckets[-1].append(source_frame_buckets[-1][-1])] *)
Definition repeat_tail (source_frame_buckets : list (list string))
  : result (list (list string)) :=
  tail ← last_of_last source_frame_buckets;
  append_to_last source_frame_buckets tail.

(** The body of the loop over [source_frames[1:]].  The first [if] stands
    alone; the second [if] carries the [elif]. *)
Definition bucket_step (fps : Z) (source_frame_buckets : list (list string))
    (frame_name : string) : result (list (list string)) :=
  frame_number ← frame_number_of frame_name;
  tail ← last_of_last source_frame_buckets;
  previous_frame_number ← frame_number_of tail;
  buckets1 ←
    (if frame_number =? previous_frame_number + 2
     then repeat_tail source_frame_buckets
     else Ok source_frame_buckets);
  buckets2 ←
    (if frame_number =? previous_frame_number + 3 then
       b ← repeat_tail buckets1;
       repeat_tail b
     else if frame_number >? previous_frame_number + 3 then
       let opened := (buckets1 ++ [[]])%list in
       closed ← index opened (-2);
       if len closed <? int_half fps then pop opened (-2) else Ok opened
     else Ok buckets1);
  append_to_last buckets2 frame_name.

Fixpoint bucket_loop (fps : Z) (source_frame_buckets : list (list string))
    (frames : list string) : result (list (list string)) :=
  match frames with
  | [] => Ok source_frame_buckets
  | frame_name :: rest =>
      b ← bucket_step fps source_frame_buckets frame_name;
      bucket_loop fps b rest
  end.

(** [listing] is what [os.listdir] returns for the source's
    [adjustments] directory, in whatever order. *)
Definition get_source_frame_buckets (listing : list string) (fps : Z)
  : result (list (list string)) :=
  let source_frames := List.filter (fun item => endswith item "jpg") listing in
  source_frames ← sorted frame_number_of source_frames;
  first ← index source_frames 0;
  bucket_loop fps [[first]] (List.tl source_frames).

(** ** Ratio index: [get_frame_dict] *)

(** [int(item.split("_")[1].strip(".jpg"))] *)
Definition mouth_open_ratio_of (item : string) : result Z :=
  part ← index (split "_" item) 1;
  int_of_str (strip ".jpg" part).

(** [frame_dict.setdefault(ratio, []).append(path)] *)
Definition add_frame (frame_dict : gmap Z (list string)) (ratio : Z) (path : string)
  : gmap Z (list string) :=
  <[ratio := (default [] (frame_dict !! ratio) ++ [path])%list]> frame_dict.

Fixpoint index_directory (reference_frame_directory : string) (items : list string)
    (frame_dict : gmap Z (list string)) : result (gmap Z (list string)) :=
  match items with
  | [] => Ok frame_dict
  | item :: rest =>
      if endswith item "jpg" then
        let path_to_image := path_join reference_frame_directory item in
        ratio ← mouth_open_ratio_of item;
        index_directory reference_frame_directory rest (add_frame frame_dict ratio path_to_image)
      else index_directory reference_frame_directory rest frame_dict
  end.

(** An entry of [os.listdir(reference_directory)]: its name and, when it
    is a directory, the listing of its [adjustments] directory.  Every
    directory is taken to hold an [adjustments] directory; where one is
    missing, [os.listdir] raises FileNotFoundError, a case that is not
    modelled. *)
Definition dir_entry : Type := string * option (list string).

Fixpoint index_entries (reference_directory : string) (entries : list dir_entry)
    (frame_dict : gmap Z (list string)) : result (gmap Z (list string)) :=
  match entries with
  | [] => Ok frame_dict
  | (item, None) :: rest => index_entries reference_directory rest frame_dict
  | (item, Some adjustments) :: rest =>
      let item_path := path_join reference_directory item in
      let reference_frame_directory := path_join item_path "adjustments" in
      d ← index_directory reference_frame_directory adjustments frame_dict;
      index_entries reference_directory rest d
  end.

Definition get_frame_dict (reference_directory : string) (entries : list dir_entry)
  : result (gmap Z (list string)) :=
  index_entries reference_directory entries ∅.

(** ** Frame matcher: [get_random_matching_frame] *)

(** What the loop carries: the current result and the number of calls
    made to [random.randint] so far. *)
Record matcher_state : Type := MatcherState {
  matching_frame : string;
  rng_calls : nat
}.

(** One pass through the body of the [while], before the error update.
    [random_choice_index] is below [num_of_options], so the default of
    [nth] is never read. *)
Definition probe (draws : nat → nat) (frame : string)
    (frame_dict : gmap Z (list string)) (mouth_open_ratio current_error : Z)
    (st : matcher_state) : matcher_state :=
  let current_ratio := mouth_open_ratio + current_error in
  if negb ((current_ratio <? 1) || (current_ratio >? 100)) then
    let matching_options := default [matching_frame st] (frame_dict !! current_ratio) in
    let num_of_options := length matching_options in
    if negb (Nat.eqb num_of_options 0)
       && negb ((current_error =? 0) && Nat.eqb num_of_options 1) then
      let random_choice_index := randint0 draws (rng_calls st) num_of_options in
      let possible_match := nth random_choice_index matching_options (matching_frame st) in
      let possible_match_name := file_name_of possible_match in
      if negb (String.eqb possible_match_name frame)
      then MatcherState possible_match (S (rng_calls st))
      else MatcherState (matching_frame st) (S (rng_calls st))
    else st
  else st.

(** The update of [current_error] at the end of the body. *)
Definition next_error (current_error : Z) : Z :=
  let e := if current_error <? 1 then current_error - 1 else current_error in
  e * -1.

(** [while current_error < 20: body; update] *)
Fixpoint while_error_below_20 {S : Type} (fuel : nat) (body : Z → S → S)
    (current_error : Z) (s : S) : result S :=
  match fuel with
  | O => OutOfFuel
  | Datatypes.S fuel' =>
      if current_error <? 20
      then while_error_below_20 fuel' body (next_error current_error) (body current_error s)
      else Ok s
  end.

Definition get_random_matching_frame (fuel : nat) (draws : nat → nat) (calls : nat)
    (frame frame_path : string) (frame_dict : gmap Z (list string))
  : result matcher_state :=
  mouth_open_ratio ← mouth_open_ratio_of frame;
  while_error_below_20 fuel (probe draws frame frame_dict mouth_open_ratio) 0
    (MatcherState frame_path calls).

(** ** Audio span of a bucket: [create_audio_snippet] *)

Definition audio_span (bucket : list string) (fps : Z) : result (float * float) :=
  first ← index bucket 0;
  start_frame_number ← frame_number_of first;
  last ← index bucket (-1);
  end_frame_number ← frame_number_of last;
  audio_start_time_sec ← int_truediv (start_frame_number - 1) fps;
  audio_end_time_sec ← int_truediv (end_frame_number - 1) fps;
  Ok (audio_start_time_sec, audio_end_time_sec).

(** ** [compile_video]

    The result is the work handed to the shell: for every bucket its audio
    span and the copies [(source, destination)] of [copy_frame].  Removing
    and creating directories and the ffmpeg calls are left out. *)

(** [copy_frame]: the destination [<bucket_directory>/<frame_number:05>.jpg]. *)
Definition copy_frame (random_frame_path : string) (frame_number : Z)
    (bucket_directory : string) : string * string :=
  let copy_frame_name := (zfill 5 (str_of_int frame_number) ++ ".jpg")%string in
  (random_frame_path, path_join bucket_directory copy_frame_name).

Fixpoint match_bucket (fuel : nat) (draws : nat → nat)
    (frame_dict : gmap Z (list string)) (bucket_directory : string)
    (bucket : list string) (frame_number : Z) (calls : nat)
  : result (list (string * string) * nat) :=
  match bucket with
  | [] => Ok ([], calls)
  | frame :: rest =>
      let frame_path := path_join bucket_directory frame in
      st ← get_random_matching_frame fuel draws calls frame frame_path frame_dict;
      let copy := copy_frame (matching_frame st) frame_number bucket_directory in
      r ← match_bucket fuel draws frame_dict bucket_directory rest (frame_number + 1)
            (rng_calls st);
      Ok (copy :: fst r, snd r)
  end.

Fixpoint compile_buckets (fuel : nat) (draws : nat → nat)
    (frame_dict : gmap Z (list string)) (buckets_directory : string) (fps : Z)
    (source_frame_buckets : list (list string)) (bucket_number : Z) (calls : nat)
  : result (list ((float * float) * list (string * string))) :=
  match source_frame_buckets with
  | [] => Ok []
  | bucket :: rest =>
      let bucket_directory := path_join buckets_directory (str_of_int bucket_number) in
      span ← audio_span bucket fps;
      r ← match_bucket fuel draws frame_dict bucket_directory bucket 1 calls;
      more ← compile_buckets fuel draws frame_dict buckets_directory fps rest
               (bucket_number + 1) (snd r);
      Ok ((span, fst r) :: more)
  end.

Definition compile_video (fuel : nat) (draws : nat → nat)
    (source_video_directory : string) (listing : list string)
    (frame_dict : gmap Z (list string)) (fps : Z)
  : result (list ((float * float) * list (string * string))) :=
  source_frame_buckets ← get_source_frame_buckets listing fps;
  let buckets_directory := path_join source_video_directory "buckets" in
  compile_buckets fuel draws frame_dict buckets_directory fps source_frame_buckets 1 0.

(** ** [stitch_bucket_videos]: the concatenation list

    [entries] is [os.listdir(bucket_directory)] with, for each name,
    whether it is a directory.  The result is [video_list.txt], one line
    per bucket video; the ffmpeg calls are left out. *)

(** The sort key [int(filepath.split("/")[-1])]. *)
Definition bucket_number_of (filepath : string) : result Z :=
  part ← index (split "/" filepath) (-1);
  int_of_str part.

Definition buckets_to_compile (bucket_directory : string) (entries : list (string * bool))
  : result (list string) :=
  let found :=
    map (fun e => path_join bucket_directory (fst e))
        (List.filter (fun e : string * bool => snd e) entries) in
  sorted bucket_number_of found.

(** [f"file '{bucket_video_output_path}'\n"] *)
Definition video_list_line (bucket_video_output_path : string) : string :=
  ("file '" ++ bucket_video_output_path ++ "'" ++ String "010" EmptyString)%string.

Definition video_list (bucket_directory : string) (entries : list (string * bool))
  : result (list string) :=
  paths ← buckets_to_compile bucket_directory entries;
  Ok (map (fun bucket_path => video_list_line (path_join bucket_path "video.mp4")) paths).

End Compile.

(* ===================================================================== *)
(** * [modules/adjust.py] *)
(* ===================================================================== *)

Module Adjust.

(** A landmark is a pixel position [(x, y)]. *)
Definition point : Type := Z * Z.
Definition X (p : point) : Z := fst p.
Definition Y (p : point) : Z := snd p.

(** One face of [face_recognition.face_landmarks]: the entries of the
    dictionary that the module reads. *)
Record face : Type := Face {
  top_lip : list point;
  bottom_lip : list point;
  left_eyebrow : list point;
  right_eyebrow : list point
}.

(** ** [crop_image] *)

(** The analysis file's order: (left, top, bottom, right). *)
Definition bounding_box : Type := Z * Z * Z * Z.

(** The box handed to [Image.crop]: [left, top, right, bottom].  [None]
    is the bare [return] for a face that is too small.  ([left] and
    [right] are taken names, hence the underscores.) *)
Definition crop_box (bb : bounding_box) : option (Z * Z * Z * Z) :=
  let '(left_, top_, bottom_, right_) := bb in
  let width := right_ - left_ in
  let height := bottom_ - top_ in
  if (width <? 150) || (height <? 150) then None
  else if width <? height then
    let diff := height - width in
    Some (left_ - int_half diff, top_, right_ + int_half diff, bottom_)
  else
    let diff := width - height in
    Some (left_, top_ - int_half diff, right_, bottom_ + int_half diff).

(** Size of the image that [Image.crop] returns for a box. *)
Definition box_width (box : Z * Z * Z * Z) : Z :=
  let '(left_, _, right_, _) := box in right_ - left_.
Definition box_height (box : Z * Z * Z * Z) : Z :=
  let '(_, top_, _, bottom_) := box in bottom_ - top_.

(** ** [get_mouth_open_ratio] *)

(** [sorted(points, key=lambda point: point[X])] *)
Definition sort_by_x (points : list point) : list point :=
  map snd (sort_keyed (map (fun p => (X p, p)) points)).

(** [math.hypot(q[X] - p[X], q[Y] - p[Y])] *)
Definition distance (q p : point) : result float :=
  hypot (X q - X p) (Y q - Y p).

(** Left-to-right extent of one lip, from its sorted points. *)
Definition lip_extent (lip : list point) : result float :=
  left_of_lip ← index lip 0;
  right_of_lip ← index lip (-1);
  distance right_of_lip left_of_lip.

(** [lip[int(len(lip) / 2)]] *)
Definition middle_of (lip : list point) : result point :=
  index lip (int_half (len lip)).

(** [lip_width]: the two extents averaged. *)
Definition lip_width (f : face) : result float :=
  bottom_lip_width ← lip_extent (sort_by_x (bottom_lip f));
  top_lip_width ← lip_extent (sort_by_x (top_lip f));
  Ok ((bottom_lip_width + top_lip_width) / 2)%float.

(** [open_mouth_height] *)
Definition open_mouth_height (f : face) : result float :=
  middle_of_bottom_lip ← middle_of (sort_by_x (bottom_lip f));
  middle_of_top_lip ← middle_of (sort_by_x (top_lip f));
  distance middle_of_top_lip middle_of_bottom_lip.

(** [min(max(int((open_mouth_height / lip_width) * 100), 1), 100)] *)
Definition ratio_of (height width : float) : result Z :=
  quotient ← float_div height width;
  percent ← int_of_float (quotient * 100)%float;
  Ok (Z.min (Z.max percent 1) 100).

(** The function after its detector call: [landmarks] is what the call
    returned; [None] is the bare [return].  The points of both lips are
    indexed before any distance is taken, as in the source. *)
Definition mouth_open_ratio_from (landmarks : list face) : result (option Z) :=
  match landmarks with
  | [] => Ok None
  | f :: _ =>
      let bottom := sort_by_x (bottom_lip f) in
      let top := sort_by_x (top_lip f) in
      _ ← index bottom 0;
      _ ← middle_of bottom;
      _ ← index bottom (-1);
      _ ← index top 0;
      _ ← middle_of top;
      _ ← index top (-1);
      width ← lip_width f;
      height ← open_mouth_height f;
      ratio ← ratio_of height width;
      Ok (Some ratio)
  end.

(** ** [rotate_image]: from the eyebrows to the argument of [math.acos]

    The three points and the squared lengths [a], [b], [c] are ints;
    [math.sqrt] and the division work on floats. *)
Definition eyebrow_cosine (f : face) : result float :=
  let left_brow := sort_by_x (left_eyebrow f) in
  let right_brow := sort_by_x (right_eyebrow f) in
  outer_left_eyebrow ← index left_brow (-1);
  outer_right_eyebrow ← index right_brow 1;
  let point_1 := (X outer_left_eyebrow, Y outer_right_eyebrow) in
  let point_2 := (X outer_right_eyebrow, Y outer_right_eyebrow) in
  let point_3 := (X outer_left_eyebrow, Y outer_left_eyebrow) in
  let a := (X point_2 - X point_1) ^ 2 + (Y point_2 - Y point_1) ^ 2 in
  let b := (X point_2 - X point_3) ^ 2 + (Y point_2 - Y point_3) ^ 2 in
  let c := (X point_3 - X point_1) ^ 2 + (Y point_3 - Y point_1) ^ 2 in
  radicand ← float_of_int (4 * a * b);
  root ← (if PrimFloat.ltb radicand 0 then Raise ValueError
          else Ok (PrimFloat.sqrt radicand));
  numerator ← float_of_int (a + b - c);
  float_div numerator root.

(** ** [get_already_adjusted_images] *)

(** [item.split("_")[0] + ".jpg"]; a split is never empty. *)
Definition adjusted_image_name (item : string) : string :=
  (List.hd EmptyString (split "_" item) ++ ".jpg")%string.

(** [listing] is [os.listdir(adjustments_path)], or [None] when there is
    no such directory. *)
Definition get_already_adjusted_images (listing : option (list string)) : list string :=
  match listing with
  | None => []
  | Some items =>
      map adjusted_image_name (List.filter (fun item => endswith item "jpg") items)
  end.

(** ** [get_adjusted_analysis_dict] *)

(** The characters at which [str.split()] cuts (the ASCII ones). *)
Definition is_space (c : ascii) : bool :=
  let n := nat_of_ascii c in
  ((9 <=? n)%nat && (n <=? 13)%nat) || ((28 <=? n)%nat && (n <=? 32)%nat).

Fixpoint fields (s : string) : list string :=
  match s with
  | EmptyString => [EmptyString]
  | String c s' =>
      if is_space c then EmptyString :: fields s'
      else match fields s' with
           | [] => [String c EmptyString]
           | w :: ws => String c w :: ws
           end
  end.

(** [line.strip().split()]: the pieces between runs of white space, none
    of them empty (stripping first changes nothing). *)
Definition words (line : string) : list string :=
  List.filter (fun w => negb (String.eqb w EmptyString)) (fields line).

(** [d[k] = v] on a dictionary kept in insertion order. *)
Fixpoint dict_set {V : Type} (k : string) (v : V) (d : list (string * V))
  : list (string * V) :=
  match d with
  | [] => [(k, v)]
  | (k', v') :: d' =>
      if String.eqb k k' then (k, v) :: d' else (k', v') :: dict_set k v d'
  end.

(** One line of [analysis.txt]. *)
Definition analysis_line (name : string) (analysis_dict : list (string * bounding_box))
    (line : string) : result (list (string * bounding_box)) :=
  let line_data := words line in
  image_file_name ← index line_data 0;
  prediction_name ← index line_data 1;
  if String.eqb prediction_name name then
    left_ ← (field ← index line_data 2; int_of_str field);
    top_ ← (field ← index line_data 3; int_of_str field);
    bottom_ ← (field ← index line_data 4; int_of_str field);
    right_ ← (field ← index line_data 5; int_of_str field);
    Ok (dict_set image_file_name (left_, top_, bottom_, right_) analysis_dict)
  else Ok analysis_dict.

Fixpoint analysis_lines (name : string) (analysis_dict : list (string * bounding_box))
    (lines : list string) : result (list (string * bounding_box)) :=
  match lines with
  | [] => Ok analysis_dict
  | line :: rest =>
      d ← analysis_line name analysis_dict line;
      analysis_lines name d rest
  end.

(** [lines] are the lines of the analysis file.  (A number written with
    underscores between its digits, which [int] accepts, counts as
    malformed here.) *)
Definition get_adjusted_analysis_dict (lines : list string) (name : string)
  : result (list (string * bounding_box)) :=
  analysis_lines name [] lines.

(** ** [adjust]: the stages of one frame *)

Section Pipeline.

(** Pixel data, the detector and PIL stay abstract. *)
Variable Image : Type.

(** [face_landmarks n img]: what the [n]-th detector call of the frame
    returns on [img] (0: ratio, 1: rotation, 2: centering). *)
Variable face_landmarks : nat → Image → list face.

(** [Image.crop(box)], [Image.resize(size)], [Image.convert(mode)] *)
Variable pil_crop : Image → Z * Z * Z * Z → Image.
Variable pil_resize : Image → Z * Z → Image.
Variable pil_convert : Image → string → Image.

(** What [rotate_image] and [center_image] do once they have a face:
    the eyebrow angle and the rotation, the lip box and the shift. *)
Variable rotate_by_eyebrows : Image → face → result Image.
Variable shift_to_mouth : Image → face → result Image.

Definition crop_image (adjusted_image : Image) (bb : bounding_box) : option Image :=
  pil_crop adjusted_image <$> crop_box bb.

Definition get_mouth_open_ratio (adjusted_image : Image) : result (option Z) :=
  mouth_open_ratio_from (face_landmarks 0 adjusted_image).

Definition rotate_image (adjusted_image : Image) : result (option Image) :=
  match face_landmarks 1 adjusted_image with
  | [] => Ok None
  | f :: _ => Some <$> rotate_by_eyebrows adjusted_image f
  end.

Definition center_image (adjusted_image : Image) : result (option Image) :=
  match face_landmarks 2 adjusted_image with
  | [] => Ok None
  | f :: _ => Some <$> shift_to_mouth adjusted_image f
  end.

Definition resize_image (adjusted_image : Image) : Image :=
  pil_resize adjusted_image (300, 300).

Definition grayscale_image (adjusted_image : Image) : Image :=
  pil_convert adjusted_image "L".

(** The f-string [f"_{mouth_open_ratio}.jpg"]: [None] prints as "None". *)
Definition ratio_suffix (mouth_open_ratio : option Z) : string :=
  ("_" ++ match mouth_open_ratio with
          | Some r => str_of_int r
          | None => "None"
          end ++ ".jpg")%string.

(** [adjust]: [Ok (Some (path, img))] is the one call of [Image.save],
    [Ok None] a frame left without output. *)
Definition adjust (opened : Image) (image_path : string) (bb : bounding_box)
    (adjustments_path : string) : result (option (string * Image)) :=
  let file_name := file_name_of image_path in
  let save_path := path_join adjustments_path file_name in
  match crop_image opened bb with
  | None => Ok None
  | Some cropped =>
      mouth_open_ratio ← get_mouth_open_ratio cropped;
      rotated ← rotate_image cropped;
      match rotated with
      | None => Ok None
      | Some rotated =>
          centered ← center_image rotated;
          match centered with
          | None => Ok None
          | Some centered =>
              let final := grayscale_image (resize_image centered) in
              let save_path := (strip ".jpg" save_path ++ ratio_suffix mouth_open_ratio)%string in
              Ok (Some (save_path, final))
          end
      end
  end.

(** ** [adjust_images]

    The result lists the files saved, in the order of the analysis
    dictionary.  [open_image] is [Image.open]; [listing] is the content of
    the [adjustments] directory before the run. *)
Variable open_image : string → Image.

Fixpoint adjust_each (frames_path adjustments_path : string)
    (already_adjusted_images : list string)
    (items : list (string * bounding_box)) : result (list (string * Image)) :=
  match items with
  | [] => Ok []
  | (item, bb) :: rest =>
      if existsb (String.eqb item) already_adjusted_images then
        adjust_each frames_path adjustments_path already_adjusted_images rest
      else
        let image_path := path_join frames_path item in
        saved ← adjust (open_image image_path) image_path bb adjustments_path;
        more ← adjust_each frames_path adjustments_path already_adjusted_images rest;
        Ok (match saved with
            | Some file => file :: more
            | None => more
            end)
  end.

Definition adjust_images (images_path : string) (listing : option (list string))
    (lines : list string) (name : string) (clear : bool)
  : result (list (string * Image)) :=
  let frames_path := path_join images_path "frames" in
  let adjustments_path := path_join images_path "adjustments" in
  let already_adjusted_images :=
    if clear then [] else get_already_adjusted_images listing in
  analysis_dict ← get_adjusted_analysis_dict lines name;
  adjust_each frames_path adjustments_path already_adjusted_images analysis_dict.

End Pipeline.

End Adjust.

(* ===================================================================== *)
(** * [modules/analyze.py] *)
(* ===================================================================== *)

Module Analyze.

(** A prediction of the recognizer: [(name, (top, right, bottom, left))]. *)
Definition prediction : Type := string * (Z * Z * Z * Z).

(** [f"{item} {name} {left} {top} {bottom} {right}\n"] *)
Definition prediction_line (item : string) (p : prediction) : string :=
  let '(name, (top_, right_, bottom_, left_)) := p in
  (item ++ " " ++ name ++ " " ++ str_of_int left_ ++ " " ++ str_of_int top_ ++ " "
     ++ str_of_int bottom_ ++ " " ++ str_of_int right_ ++ String "010" EmptyString)%string.

(** ** [log_predictions]

    The result is the text of the one [write]: the loop assigns
    [prediction_output] anew for every prediction and the write follows
    the loop. *)
Definition log_predictions (predictions : list prediction) (item : string) : string :=
  fold_left (fun _ p => prediction_line item p) predictions
    (item ++ " none" ++ String "010" EmptyString)%string.

End Analyze.

(* ===================================================================== *)
(** * The written design, for comparison with the code *)
(* ===================================================================== *)

Module Design.

Import Compile Adjust.

(** *** Bucketizer *)

(** Half a second of frames, rounded up: ceil(fps / 2). *)
Definition ceil_half (fps : Z) : Z := - ((- fps) / 2).

(** A frame name that starts with its frame number. *)
Definition parses (f : string) : Prop := ∃ n, frame_number_of f = Ok n.

(** The bucket list between two iterations: closed buckets, each at least
    [int(fps / 2)] long, then the open bucket, which is not empty. *)
Definition open_state (fps : Z) (buckets : list (list string)) : Prop :=
  ∃ closed cur t,
    buckets = closed ++ [cur ++ [t]]
    ∧ Forall (fun b => int_half fps ≤ len b) closed
    ∧ Forall parses (cur ++ [t]).

(** *** Frame matcher *)

(** The probing order: 0, +1, -1, +2, -2, ... up to magnitude 19. *)
Definition probe_offsets : list Z :=
  0 :: flat_map (fun k => [Z.of_nat k; - Z.of_nat k]) (seq 1 19).

(** Ratios lie between 1 and 100. *)
Definition in_range (ratio : Z) : bool := (1 <=? ratio) && (ratio <=? 100).

(** The candidates looked up at one probe: those the index holds at
    ratio + offset, none when the ratio is absent; a ratio outside 1..100
    is skipped. *)
Definition candidates_at (frame_dict : gmap Z (list string)) (ratio offset : Z)
  : list string :=
  if in_range (ratio + offset) then default [] (frame_dict !! (ratio + offset)) else [].

(** The degenerate case: offset 0 and the only candidate is the frame
    itself, which is known by its file name, as in the exclusion of a
    drawn candidate. *)
Definition degenerate (frame : string) (offset : Z) (candidates : list string) : bool :=
  (offset =? 0)
  && match candidates with
     | [c] => String.eqb (file_name_of c) frame
     | _ => false
     end.

(** A candidate is drawn when candidates exist and the case is not the
    degenerate one. *)
Definition draws_candidate (frame : string) (frame_dict : gmap Z (list string))
    (ratio offset : Z) : bool :=
  let candidates := candidates_at frame_dict ratio offset in
  negb (Nat.eqb (length candidates) 0) && negb (degenerate frame offset candidates).

(** The outcome of one probe for the raw draw [raw]: the candidate drawn,
    when one is drawn and its file name differs from the target's. *)
Definition successful_draw (frame : string) (frame_dict : gmap Z (list string))
    (ratio offset : Z) (raw : nat) : option string :=
  let candidates := candidates_at frame_dict ratio offset in
  if draws_candidate frame frame_dict ratio offset then
    match candidates with
    | [] => None
    | c0 :: _ =>
        let c := nth (raw mod length candidates) candidates c0 in
        if String.eqb (file_name_of c) frame then None else Some c
    end
  else None.

(** The successful draws of a scan, in probing order; [calls] is the
    position in the stream of draws when the scan starts. *)
Fixpoint successful_draws (draws : nat → nat) (frame : string)
    (frame_dict : gmap Z (list string)) (ratio : Z) (offsets : list Z) (calls : nat)
  : list string :=
  match offsets with
  | [] => []
  | offset :: rest =>
      match successful_draw frame frame_dict ratio offset (draws calls) with
      | Some c => [c]
      | None => []
      end ++
      successful_draws draws frame frame_dict ratio rest
        (if draws_candidate frame frame_dict ratio offset then S calls else calls)
  end.

(** The result of the matcher: the last successful draw of the scan of
    all offsets, and the input frame when no draw succeeds. *)
Definition last_successful_draw (draws : nat → nat) (calls : nat)
    (frame frame_path : string) (frame_dict : gmap Z (list string)) (ratio : Z) : string :=
  List.last (successful_draws draws frame frame_dict ratio probe_offsets calls) frame_path.

(** The loop of the matcher run with a body that only records the offset
    it is given: the order in which the code probes. *)
Definition probed_offsets (fuel : nat) : result (list Z) :=
  while_error_below_20 fuel (fun current_error seen => seen ++ [current_error]) 0 [].

(** *** Mouth-open ratio *)

(** [round(f)]: the nearest integer, a tie going to the even one. *)
Definition round_float (f : float) : result Z :=
  match Prim2SF f with
  | S754_nan => Raise ValueError
  | S754_infinity _ => Raise OverflowError
  | S754_zero _ => Ok 0
  | S754_finite s m e =>
      let v :=
        if 0 <=? e then Z.pos m * 2 ^ e
        else
          let d := 2 ^ (- e) in
          let q := Z.pos m / d in
          let r := Z.pos m mod d in
          if 2 * r <? d then q
          else if d <? 2 * r then q + 1
          else if Z.even q then q else q + 1 in
      Ok (if s then - v else v)
  end.

Definition clamp (x lo hi : Z) : Z := Z.min (Z.max x lo) hi.

(** clamp(round(height / width x 100), 1, 100) *)
Definition rounded_ratio (height width : float) : result Z :=
  r ← round_float (height / width * 100)%float;
  Ok (clamp r 1 100).

(** *** Detector *)

(** A detector that answers alike whenever it is shown the same image. *)
Definition repeatable {Image : Type} (face_landmarks : nat → Image → list face) : Prop :=
  ∀ n m img, face_landmarks n img = face_landmarks m img.

End Design.

Import Compile Adjust Analyze Design.

(* ===================================================================== *)
(** * The body of the matcher's loop, probe by probe *)
(* ===================================================================== *)

(** The definitions of this part are read off [probe], the body of the
    [while] of [get_random_matching_frame]; [probe_spec] below shows that
    they say what [probe] does. *)

(** The index entries a probe draws from and may take a match from:
    those at ratio + offset when that ratio is within 1..100, except at
    offset 0 with a single entry, where the test
    [not(current_error == 0 and num_of_options == 1)] fails. *)
Definition options_at (frame_dict : gmap Z (list string)) (ratio offset : Z)
  : list string :=
  if in_range (ratio + offset) then
    let candidates := default [] (frame_dict !! (ratio + offset)) in
    if (offset =? 0) && Nat.eqb (length candidates) 1 then [] else candidates
  else [].

(** The match a probe takes for the raw draw [raw]: the entry drawn, when
    there are entries to draw from and
    [possible_match_name != frame]. *)
Definition accepted_draw (frame : string) (frame_dict : gmap Z (list string))
    (ratio offset : Z) (raw : nat) : option string :=
  match options_at frame_dict ratio offset with
  | [] => None
  | c0 :: cs =>
      let c := nth (raw mod length (c0 :: cs)) (c0 :: cs) c0 in
      if String.eqb (file_name_of c) frame then None else Some c
  end.

(** How many calls to [random.randint] a probe makes.  Besides the draws
    above, the code draws from the one-element default list of
    [frame_dict.get] at an in-range ratio that the index lacks (offset 0
    apart). *)
Definition randint_calls_at (frame_dict : gmap Z (list string)) (ratio offset : Z) : nat :=
  if in_range (ratio + offset) then
    match frame_dict !! (ratio + offset) with
    | None => if offset =? 0 then 0 else 1
    | Some _ =>
        match options_at frame_dict ratio offset with
        | [] => 0
        | _ :: _ => 1
        end
    end
  else 0.

(** The matches taken in a scan, in probing order; [calls] is the
    position in the stream of draws when the scan starts. *)
Fixpoint accepted_draws (draws : nat → nat) (frame : string)
    (frame_dict : gmap Z (list string)) (ratio : Z) (offsets : list Z) (calls : nat)
  : list string :=
  match offsets with
  | [] => []
  | offset :: rest =>
      match accepted_draw frame frame_dict ratio offset (draws calls) with
      | Some c => [c]
      | None => []
      end ++
      accepted_draws draws frame frame_dict ratio rest
        (calls + randint_calls_at frame_dict ratio offset)
  end.

(* ===================================================================== *)
(** * Lists and indices *)
(* ===================================================================== *)

Section Indexing.
Context {A : Type}.
Implicit Types (l : list A) (x y : A).

Lemma index_last_app l x : index (l ++ [x]) (-1) = Ok x.
Proof.
  unfold index. rewrite length_app. cbn [length].
  replace (-1 <? 0) with true by reflexivity.
  replace (-1 + Z.of_nat (length l + 1)) with (Z.of_nat (length l)) by lia.
  replace (0 <=? Z.of_nat (length l)) with true by (symmetry; apply Z.leb_le; lia).
  replace (Z.of_nat (length l) <? Z.of_nat (length l + 1)) with true
    by (symmetry; apply Z.ltb_lt; lia).
  cbn [andb]. rewrite Nat2Z.id.
  rewrite lookup_app_r by lia. rewrite Nat.sub_diag. reflexivity.
Qed.

Lemma index_before_last_app l x y : index (l ++ [x; y]) (-2) = Ok x.
Proof.
  unfold index. rewrite length_app. cbn [length].
  replace (-2 <? 0) with true by reflexivity.
  replace (-2 + Z.of_nat (length l + 2)) with (Z.of_nat (length l)) by lia.
  replace (0 <=? Z.of_nat (length l)) with true by (symmetry; apply Z.leb_le; lia).
  replace (Z.of_nat (length l) <? Z.of_nat (length l + 2)) with true
    by (symmetry; apply Z.ltb_lt; lia).
  cbn [andb]. rewrite Nat2Z.id.
  rewrite lookup_app_r by lia. rewrite Nat.sub_diag. reflexivity.
Qed.

Lemma pop_before_last_app l x y : pop (l ++ [x; y]) (-2) = Ok (l ++ [y]).
Proof.
  unfold pop. rewrite length_app. cbn [length].
  replace (-2 <? 0) with true by reflexivity.
  replace (-2 + Z.of_nat (length l + 2)) with (Z.of_nat (length l)) by lia.
  replace (0 <=? Z.of_nat (length l)) with true by (symmetry; apply Z.leb_le; lia).
  replace (Z.of_nat (length l) <? Z.of_nat (length l + 2)) with true
    by (symmetry; apply Z.ltb_lt; lia).
  cbn [andb]. rewrite Nat2Z.id. f_equal.
  induction l as [|a l IH]; [reflexivity|]. cbn. f_equal. exact IH.
Qed.

Lemma index_first x l : index (x :: l) 0 = Ok x.
Proof.
  unfold index. cbn [length]. replace (0 <? 0) with false by reflexivity.
  replace (0 <=? 0) with true by reflexivity.
  replace (0 <? Z.of_nat (S (length l))) with true by (symmetry; apply Z.ltb_lt; lia).
  reflexivity.
Qed.

Lemma index_nil (i : Z) : index (@nil A) i = Raise IndexError.
Proof.
  unfold index. cbn [length]. change (Z.of_nat 0) with 0.
  destruct ((0 <=? (if i <? 0 then i + 0 else i)) && ((if i <? 0 then i + 0 else i) <? 0)) eqn:H;
    [|reflexivity].
  apply andb_true_iff in H. destruct H as [H1 H2].
  apply Z.leb_le in H1. apply Z.ltb_lt in H2. lia.
Qed.

End Indexing.

(* ===================================================================== *)
(** * Continuity buckets *)
(* ===================================================================== *)

Section Buckets.
Variable fps : Z.
Implicit Types (closed : list (list string)) (cur : list string) (t f : string).

Lemma last_of_last_open closed cur t :
  last_of_last (closed ++ [cur ++ [t]]) = Ok t.
Proof.
  unfold last_of_last. rewrite index_last_app. cbn. apply index_last_app.
Qed.

Lemma append_to_last_open closed cur f :
  append_to_last (closed ++ [cur]) f = Ok (closed ++ [cur ++ [f]]).
Proof.
  unfold append_to_last. rewrite index_last_app. cbn.
  rewrite removelast_last. reflexivity.
Qed.

Lemma repeat_tail_open closed cur t :
  repeat_tail (closed ++ [cur ++ [t]]) = Ok (closed ++ [cur ++ [t; t]]).
Proof.
  unfold repeat_tail. rewrite last_of_last_open. cbn.
  rewrite append_to_last_open. rewrite <- app_assoc. reflexivity.
Qed.

(** The four cases of the loop body, on a bucket list whose open bucket
    ends in [t], frame number [p]. *)

Lemma bucket_step_next closed cur t f p n :
  frame_number_of t = Ok p → frame_number_of f = Ok n →
  n < p + 2 →
  bucket_step fps (closed ++ [cur ++ [t]]) f = Ok (closed ++ [cur ++ [t; f]]).
Proof.
  intros Ht Hf Hn. unfold bucket_step.
  rewrite Hf. cbn. rewrite last_of_last_open. cbn. rewrite Ht. cbn.
  replace (n =? p + 2) with false by (symmetry; apply Z.eqb_neq; lia).
  replace (n =? p + 3) with false by (symmetry; apply Z.eqb_neq; lia).
  replace (n >? p + 3) with false by (symmetry; rewrite Z.gtb_ltb; apply Z.ltb_ge; lia).
  cbn. rewrite append_to_last_open. rewrite <- app_assoc. reflexivity.
Qed.

Lemma bucket_step_gap2 closed cur t f p :
  frame_number_of t = Ok p → frame_number_of f = Ok (p + 2) →
  bucket_step fps (closed ++ [cur ++ [t]]) f = Ok (closed ++ [cur ++ [t; t; f]]).
Proof.
  intros Ht Hf. unfold bucket_step.
  rewrite Hf. cbn. rewrite last_of_last_open. cbn. rewrite Ht. cbn.
  rewrite Z.eqb_refl. rewrite repeat_tail_open. cbn.
  replace (p + 2 =? p + 3) with false by (symmetry; apply Z.eqb_neq; lia).
  replace (p + 2 >? p + 3) with false by (symmetry; rewrite Z.gtb_ltb; apply Z.ltb_ge; lia).
  cbn. rewrite append_to_last_open. rewrite <- app_assoc. reflexivity.
Qed.

Lemma bucket_step_gap3 closed cur t f p :
  frame_number_of t = Ok p → frame_number_of f = Ok (p + 3) →
  bucket_step fps (closed ++ [cur ++ [t]]) f = Ok (closed ++ [cur ++ [t; t; t; f]]).
Proof.
  intros Ht Hf. unfold bucket_step.
  rewrite Hf. cbn. rewrite last_of_last_open. cbn. rewrite Ht. cbn.
  replace (p + 3 =? p + 2) with false by (symmetry; apply Z.eqb_neq; lia).
  rewrite Z.eqb_refl. cbn. rewrite repeat_tail_open. cbn.
  replace (cur ++ [t; t]) with ((cur ++ [t]) ++ [t]) by (rewrite <- app_assoc; reflexivity).
  rewrite repeat_tail_open. cbn.
  rewrite append_to_last_open. rewrite <- !app_assoc. reflexivity.
Qed.

Lemma bucket_step_far closed cur t f p n :
  frame_number_of t = Ok p → frame_number_of f = Ok n →
  p + 3 < n →
  bucket_step fps (closed ++ [cur ++ [t]]) f =
    Ok (if len (cur ++ [t]) <? int_half fps
        then closed ++ [[f]]
        else closed ++ [cur ++ [t]; [f]]).
Proof.
  intros Ht Hf Hn. unfold bucket_step.
  rewrite Hf. cbn. rewrite last_of_last_open. cbn. rewrite Ht. cbn.
  replace (n =? p + 2) with false by (symmetry; apply Z.eqb_neq; lia).
  replace (n =? p + 3) with false by (symmetry; apply Z.eqb_neq; lia).
  replace (n >? p + 3) with true by (symmetry; rewrite Z.gtb_ltb; apply Z.ltb_lt; lia).
  cbn. rewrite <- app_assoc. cbn [app].
  rewrite index_before_last_app. cbn.
  destruct (len (cur ++ [t]) <? int_half fps).
  - rewrite pop_before_last_app. cbn.
    apply (append_to_last_open closed [] f).
  - cbn.
    replace (closed ++ [cur ++ [t]; []]) with ((closed ++ [cur ++ [t]]) ++ [[]])
      by (rewrite <- app_assoc; reflexivity).
    rewrite append_to_last_open. rewrite <- app_assoc. reflexivity.
Qed.

End Buckets.

(** ** What every run of the bucketizer keeps *)

Lemma Forall_parses_snoc (l : list string) (f : string) :
  Forall parses l → parses f → Forall parses (l ++ [f]).
Proof. intros Hl Hf. apply Forall_app. split; [exact Hl|]. constructor; [exact Hf|constructor]. Qed.

Lemma bucket_step_open (fps : Z) (buckets : list (list string)) (f : string) :
  open_state fps buckets → parses f →
  ∃ buckets', bucket_step fps buckets f = Ok buckets' ∧ open_state fps buckets'.
Proof.
  intros (closed & cur & t & -> & Hclosed & Hcur) [n Hn].
  assert (Ht : parses t).
  { apply Forall_app in Hcur. destruct Hcur as [_ Ht]. inversion Ht; assumption. }
  destruct Ht as [p Hp].
  destruct (Z.lt_ge_cases n (p + 2)) as [Hlt|Hge].
  { exists (closed ++ [cur ++ [t; f]]). split.
    - apply (bucket_step_next fps closed cur t f p n); assumption.
    - exists closed, (cur ++ [t]), f. rewrite <- app_assoc. split; [reflexivity|].
      split; [exact Hclosed|].
      replace (cur ++ [t] ++ [f]) with ((cur ++ [t]) ++ [f]) by (rewrite <- app_assoc; reflexivity).
      apply Forall_parses_snoc; [exact Hcur | exists n; exact Hn]. }
  destruct (Z.eq_dec n (p + 2)) as [->|Hne2].
  { exists (closed ++ [cur ++ [t; t; f]]). split.
    - apply (bucket_step_gap2 fps closed cur t f p); assumption.
    - exists closed, (cur ++ [t; t]), f. rewrite <- app_assoc. split; [reflexivity|].
      split; [exact Hclosed|].
      replace (cur ++ [t; t] ++ [f]) with (((cur ++ [t]) ++ [t]) ++ [f])
        by (rewrite <- !app_assoc; reflexivity).
      apply Forall_parses_snoc; [apply Forall_parses_snoc; [exact Hcur | exists p; exact Hp] | eexists; exact Hn]. }
  destruct (Z.eq_dec n (p + 3)) as [->|Hne3].
  { exists (closed ++ [cur ++ [t; t; t; f]]). split.
    - apply (bucket_step_gap3 fps closed cur t f p); assumption.
    - exists closed, (cur ++ [t; t; t]), f. rewrite <- app_assoc. split; [reflexivity|].
      split; [exact Hclosed|].
      replace (cur ++ [t; t; t] ++ [f]) with ((((cur ++ [t]) ++ [t]) ++ [t]) ++ [f])
        by (rewrite <- !app_assoc; reflexivity).
      apply Forall_parses_snoc;
        [apply Forall_parses_snoc;
          [apply Forall_parses_snoc; [exact Hcur | exists p; exact Hp] | exists p; exact Hp]
        | eexists; exact Hn]. }
  eexists. split.
  - apply (bucket_step_far fps closed cur t f p n); try assumption. lia.
  - destruct (len (cur ++ [t]) <? int_half fps) eqn:Hshort.
    + exists closed, [], f. split; [reflexivity|]. split; [exact Hclosed|].
      constructor; [exists n; exact Hn | constructor].
    + exists (closed ++ [cur ++ [t]]), [], f. split.
      * rewrite <- app_assoc. reflexivity.
      * split.
        -- apply Forall_app. split; [exact Hclosed|].
           constructor; [|constructor]. apply Z.ltb_ge in Hshort. exact Hshort.
        -- constructor; [exists n; exact Hn | constructor].
Qed.

Lemma bucket_loop_open (fps : Z) (frames : list string) :
  ∀ buckets, open_state fps buckets → Forall parses frames →
  ∃ buckets', bucket_loop fps buckets frames = Ok buckets' ∧ open_state fps buckets'.
Proof.
  induction frames as [|f frames IH]; intros buckets Hopen Hall.
  - exists buckets. split; [reflexivity | exact Hopen].
  - inversion Hall as [|? ? Hf Hrest]; subst.
    destruct (bucket_step_open fps buckets f Hopen Hf) as (b & Hstep & Hb).
    destruct (IH b Hb Hrest) as (b' & Hloop & Hb').
    exists b'. split; [|exact Hb']. cbn [bucket_loop]. rewrite Hstep. exact Hloop.
Qed.

(** ** The sort keeps the frames *)

Lemma insert_by_key_perm {A} (k : Z) (x : A) (l : list (Z * A)) :
  Permutation (insert_by_key k x l) ((k, x) :: l).
Proof.
  induction l as [|[k' y] l IH]; cbn; [reflexivity|].
  destruct (k <=? k'); [reflexivity|].
  rewrite IH. apply perm_swap.
Qed.

Lemma sort_keyed_perm {A} (l : list (Z * A)) : Permutation (sort_keyed l) l.
Proof.
  induction l as [|[k x] l IH]; cbn; [reflexivity|].
  rewrite insert_by_key_perm. constructor. exact IH.
Qed.

Lemma with_keys_snd {A} (key : A → result Z) (l : list A) (kl : list (Z * A)) :
  with_keys key l = Ok kl → map snd kl = l.
Proof.
  revert kl. induction l as [|x l IH]; intros kl H; cbn in H.
  - inversion H. reflexivity.
  - destruct (key x) as [k| |]; cbn in H; try discriminate.
    destruct (with_keys key l) as [kl'| |]; cbn in H; try discriminate.
    inversion H; subst. cbn. f_equal. apply IH. reflexivity.
Qed.

Lemma with_keys_total {A} (key : A → result Z) (l : list A) :
  Forall (fun x => ∃ k, key x = Ok k) l → ∃ kl, with_keys key l = Ok kl.
Proof.
  induction 1 as [|x l [k Hk] _ [kl Hkl]]; cbn.
  - eexists; reflexivity.
  - rewrite Hk. cbn. rewrite Hkl. cbn. eexists; reflexivity.
Qed.

Lemma sorted_perm {A} (key : A → result Z) (l l' : list A) :
  sorted key l = Ok l' → Permutation l' l.
Proof.
  unfold sorted. intros H.
  destruct (with_keys key l) as [kl| |] eqn:Hk; cbn in H; try discriminate.
  inversion H; subst.
  rewrite <- (with_keys_snd key l kl Hk).
  apply Permutation_map. apply sort_keyed_perm.
Qed.

(** The bucketizer returns on every directory that holds at least one
    jpg whose names all start with a frame number, and then every bucket
    but the last is at least [int(fps / 2)] long. *)
Lemma get_source_frame_buckets_returns (listing : list string) (fps : Z) :
  List.filter (fun item => endswith item "jpg") listing ≠ [] →
  Forall parses (List.filter (fun item => endswith item "jpg") listing) →
  ∃ closed current,
    get_source_frame_buckets listing fps = Ok (closed ++ [current])
    ∧ current ≠ []
    ∧ Forall (fun b => int_half fps ≤ len b) closed.
Proof.
  intros Hne Hall. unfold get_source_frame_buckets.
  destruct (with_keys_total frame_number_of _ Hall) as [kl Hkl].
  destruct (sorted frame_number_of (List.filter (fun item => endswith item "jpg") listing))
    as [frames| |] eqn:Hs;
    try (unfold sorted in Hs; rewrite Hkl in Hs; cbn in Hs; discriminate).
  pose proof (sorted_perm _ _ _ Hs) as Hperm.
  assert (Hall' : Forall parses frames).
  { eapply Permutation_Forall; [symmetry; exact Hperm | exact Hall]. }
  cbn. destruct frames as [|first rest].
  { apply Permutation_nil_l in Hperm. symmetry in Hperm. contradiction. }
  rewrite index_first. cbn.
  inversion Hall' as [|? ? Hfirst Hrest]; subst.
  destruct (bucket_loop_open fps rest [[first]]) as (b & Hb & (closed & cur & t & -> & Hc & _)).
  - exists [], [], first. split; [reflexivity|]. split; [constructor|].
    constructor; [exact Hfirst | constructor].
  - exact Hrest.
  - exists closed, (cur ++ [t]). split; [exact Hb|]. split; [|exact Hc].
    intros E. apply app_eq_nil in E. destruct E as [_ E]. discriminate.
Qed.

(** ** The worked example at 12 frames per second *)

(** C1: at fps = 12, for frames numbered 1, 2, 4, 5, 9 the open bucket
    after frame 5 is [1, 2, 2, 4, 5] (the hole at 3 is bridged by one copy
    of the tail); it is 5 long, below ceil(12 / 2) = 6, so frame 9 (gap 4)
    closes and deletes it, and the result is the single bucket [[9]],
    whatever the order of the directory listing.  In general a gap of 2
    adds one copy of the tail and a gap of 3 adds two. *)
Theorem C1_bucketizer_worked_example (f1 f2 f4 f5 f9 : string) :
  frame_number_of f1 = Ok 1 → frame_number_of f2 = Ok 2 →
  frame_number_of f4 = Ok 4 → frame_number_of f5 = Ok 5 →
  frame_number_of f9 = Ok 9 →
  Forall (fun f => endswith f "jpg" = true) [f1; f2; f4; f5; f9] →
  bucket_loop 12 [[f1]] [f2; f4; f5] = Ok [[f1; f2; f2; f4; f5]]
  ∧ len [f1; f2; f2; f4; f5] = 5
  ∧ int_half 12 = 6 ∧ ceil_half 12 = 6
  ∧ bucket_step 12 [[f1; f2; f2; f4; f5]] f9 = Ok [[f9]]
  ∧ get_source_frame_buckets [f1; f2; f4; f5; f9] 12 = Ok [[f9]]
  ∧ get_source_frame_buckets [f5; f9; f1; f4; f2] 12 = Ok [[f9]]
  ∧ (∀ fps closed cur t f p,
       frame_number_of t = Ok p → frame_number_of f = Ok (p + 2) →
       bucket_step fps (closed ++ [cur ++ [t]]) f = Ok (closed ++ [cur ++ [t; t; f]]))
  ∧ (∀ fps closed cur t f p,
       frame_number_of t = Ok p → frame_number_of f = Ok (p + 3) →
       bucket_step fps (closed ++ [cur ++ [t]]) f = Ok (closed ++ [cur ++ [t; t; t; f]])).
Proof.
  intros H1 H2 H4 H5 H9 Hjpg.
  assert (S2 : bucket_step 12 [[f1]] f2 = Ok [[f1; f2]]).
  { apply (bucket_step_next 12 [] [] f1 f2 1 2); [assumption..|lia]. }
  assert (S4 : bucket_step 12 [[f1; f2]] f4 = Ok [[f1; f2; f2; f4]]).
  { apply (bucket_step_gap2 12 [] [f1] f2 f4 2); assumption. }
  assert (S5 : bucket_step 12 [[f1; f2; f2; f4]] f5 = Ok [[f1; f2; f2; f4; f5]]).
  { apply (bucket_step_next 12 [] [f1; f2; f2] f4 f5 4 5); [assumption..|lia]. }
  assert (S9 : bucket_step 12 [[f1; f2; f2; f4; f5]] f9 = Ok [[f9]]).
  { apply (bucket_step_far 12 [] [f1; f2; f2; f4] f5 f9 5 9); [assumption..|lia]. }
  assert (L : bucket_loop 12 [[f1]] [f2; f4; f5; f9] = Ok [[f9]]).
  { cbn [bucket_loop]. rewrite S2. cbn. rewrite S4. cbn. rewrite S5. cbn.
    rewrite S9. reflexivity. }
  assert (J : ∀ f, f ∈ [f1; f2; f4; f5; f9] → endswith f "jpg" = true).
  { intros f Hf. rewrite Forall_forall in Hjpg. apply Hjpg. exact Hf. }
  assert (J1 := J f1 ltac:(set_solver)). assert (J2 := J f2 ltac:(set_solver)).
  assert (J4 := J f4 ltac:(set_solver)). assert (J5 := J f5 ltac:(set_solver)).
  assert (J9 := J f9 ltac:(set_solver)).
  split; [|split; [|split; [|split; [|split; [|split; [|split; [|split]]]]]]].
  - cbn [bucket_loop]. rewrite S2. cbn. rewrite S4. cbn. rewrite S5. reflexivity.
  - reflexivity.
  - reflexivity.
  - reflexivity.
  - exact S9.
  - unfold get_source_frame_buckets. cbn [List.filter].
    rewrite J1, J2, J4, J5, J9. unfold sorted. cbn [with_keys].
    rewrite H1, H2, H4, H5, H9. cbn. exact L.
  - unfold get_source_frame_buckets. cbn [List.filter].
    rewrite J1, J2, J4, J5, J9. unfold sorted. cbn [with_keys].
    rewrite H1, H2, H4, H5, H9. cbn. exact L.
  - intros. apply (bucket_step_gap2 fps closed cur t f p); assumption.
  - intros. apply (bucket_step_gap3 fps closed cur t f p); assumption.
Qed.

Lemma C1_bucketizer_worked_example_witness :
  bucket_loop 12 [["00001_40.jpg"]] ["00002_37.jpg"; "00004_51.jpg"; "00005_9.jpg"]
    = Ok [["00001_40.jpg"; "00002_37.jpg"; "00002_37.jpg"; "00004_51.jpg"; "00005_9.jpg"]]
  ∧ get_source_frame_buckets
      ["00005_9.jpg"; "00009_100.jpg"; "00001_40.jpg"; "00004_51.jpg"; "00002_37.jpg"] 12
    = Ok [["00009_100.jpg"]].
Proof.
  pose proof (C1_bucketizer_worked_example
                "00001_40.jpg" "00002_37.jpg" "00004_51.jpg" "00005_9.jpg" "00009_100.jpg"
                eq_refl eq_refl eq_refl eq_refl eq_refl) as H.
  assert (Hjpg : Forall (fun f => endswith f "jpg" = true)
                   ["00001_40.jpg"; "00002_37.jpg"; "00004_51.jpg"; "00005_9.jpg"; "00009_100.jpg"]).
  { repeat constructor. }
  destruct (H Hjpg) as (A & _ & _ & _ & _ & _ & B & _).
  split; [exact A | exact B].
Defined.

(** ** The threshold at an odd frame rate *)

(** C4 (the code at fps = 5): frames 1, 2 and then 10.  The bucket [1, 2]
    is closed by the jump to 10 and stays in the result although its
    length 2 is below ceil(5 / 2) = 3: the code compares the length with
    [int(fps / 2)] = 2. *)
Theorem C4_odd_fps_keeps_short_bucket :
  get_source_frame_buckets ["00001_50.jpg"; "00002_50.jpg"; "00010_50.jpg"] 5
    = Ok [["00001_50.jpg"; "00002_50.jpg"]; ["00010_50.jpg"]]
  ∧ len ["00001_50.jpg"; "00002_50.jpg"] = 2
  ∧ ceil_half 5 = 3
  ∧ int_half 5 = 2.
Proof. repeat split; vm_compute; reflexivity. Qed.

(** ** A source without frames *)

(** C10: when the [adjustments] directory lists no name ending in "jpg",
    seeding the first bucket with [source_frames[0]] raises [IndexError]:
    the bucketizer returns no bucket list, and [compile_video], which
    calls it first, ends with the same exception. *)
Theorem C10_empty_source_raises (listing : list string) (fps : Z) :
  List.filter (fun item => endswith item "jpg") listing = [] →
  get_source_frame_buckets listing fps = Raise IndexError
  ∧ ∀ fuel draws source_video_directory frame_dict,
      compile_video fuel draws source_video_directory listing frame_dict fps
        = Raise IndexError.
Proof.
  intros Hnone.
  assert (H : get_source_frame_buckets listing fps = Raise IndexError).
  { unfold get_source_frame_buckets. rewrite Hnone. cbn. reflexivity. }
  split; [exact H|].
  intros. unfold compile_video. rewrite H. reflexivity.
Qed.

Lemma C10_empty_source_raises_witness :
  get_source_frame_buckets ["notes.txt"; "audio.mp3"] 12 = Raise IndexError
  ∧ get_source_frame_buckets [] 12 = Raise IndexError.
Proof.
  split.
  - apply (C10_empty_source_raises ["notes.txt"; "audio.mp3"] 12). reflexivity.
  - apply (C10_empty_source_raises [] 12). reflexivity.
Defined.

(* ===================================================================== *)
(** * Frame matcher *)
(* ===================================================================== *)

(** ** The loop and its trace *)

Lemma while_more_fuel {S : Type} (body : Z → S → S) (fuel : nat) :
  ∀ fuel' e s r, (fuel ≤ fuel')%nat →
    while_error_below_20 fuel body e s = Ok r →
    while_error_below_20 fuel' body e s = Ok r.
Proof.
  induction fuel as [|fuel IH]; intros fuel' e s r Hle H; cbn in H; [discriminate|].
  destruct fuel' as [|fuel']; [lia|]. cbn.
  destruct (e <? 20); [|exact H].
  apply IH; [lia | exact H].
Qed.

Lemma while_follows_trace {S : Type} (body : Z → S → S) (fuel : nat) :
  ∀ e seen trace s,
    while_error_below_20 fuel (fun current_error l => l ++ [current_error]) e seen = Ok trace →
    ∃ rest, trace = seen ++ rest
            ∧ while_error_below_20 fuel body e s = Ok (fold_left (fun st x => body x st) rest s).
Proof.
  induction fuel as [|fuel IH]; intros e seen trace s H; cbn in H; [discriminate|].
  cbn. destruct (e <? 20).
  - destruct (IH _ _ _ (body e s) H) as (rest & -> & Hrun).
    exists (e :: rest). split; [rewrite <- app_assoc; reflexivity | exact Hrun].
  - inversion H; subst. exists []. split; [rewrite app_nil_r; reflexivity | reflexivity].
Qed.

Lemma probed_offsets_40 : probed_offsets 40 = Ok probe_offsets.
Proof. vm_compute. reflexivity. Qed.

Lemma probed_offsets_enough (fuel : nat) :
  (40 ≤ fuel)%nat → probed_offsets fuel = Ok probe_offsets.
Proof.
  intros H. unfold probed_offsets.
  apply (while_more_fuel _ 40); [exact H | exact probed_offsets_40].
Qed.

Lemma while_is_scan {S : Type} (body : Z → S → S) (fuel : nat) (s : S) :
  (40 ≤ fuel)%nat →
  while_error_below_20 fuel body 0 s
    = Ok (fold_left (fun st x => body x st) probe_offsets s).
Proof.
  intros H.
  destruct (while_follows_trace body fuel 0 [] probe_offsets s) as (rest & Hrest & Hrun).
  - exact (probed_offsets_enough fuel H).
  - cbn in Hrest. subst rest. exact Hrun.
Qed.

(** ** One probe *)

Lemma range_test (r : Z) : negb ((r <? 1) || (r >? 100)) = in_range r.
Proof.
  unfold in_range. rewrite Z.gtb_ltb.
  destruct (r <? 1) eqn:A, (100 <? r) eqn:B, (1 <=? r) eqn:C, (r <=? 100) eqn:D;
    try reflexivity;
    rewrite ?Z.ltb_lt, ?Z.ltb_ge, ?Z.leb_le, ?Z.leb_gt in *; lia.
Qed.

Lemma probe_spec (draws : nat → nat) (frame : string) (frame_dict : gmap Z (list string))
    (ratio e : Z) (st : matcher_state) :
  probe draws frame frame_dict ratio e st
    = MatcherState
        (match accepted_draw frame frame_dict ratio e (draws (rng_calls st)) with
         | Some c => c
         | None => matching_frame st
         end)
        (rng_calls st + randint_calls_at frame_dict ratio e).
Proof.
  destruct st as [m k]. unfold probe, accepted_draw, randint_calls_at, options_at.
  cbn [matching_frame rng_calls]. rewrite range_test.
  destruct (in_range (ratio + e)); [|rewrite Nat.add_0_r; reflexivity].
  destruct (frame_dict !! (ratio + e)) as [options|] eqn:Hlook; cbn [default from_option id].
  - destruct options as [|c0 cs].
    + cbn [length Nat.eqb negb andb].
      destruct (e =? 0); cbn [andb]; rewrite Nat.add_0_r; reflexivity.
    + cbn [length Nat.eqb negb andb].
      destruct ((e =? 0) && Nat.eqb (length cs) 0) eqn:Hdeg; cbn [negb].
      * rewrite Nat.add_0_r. reflexivity.
      * unfold randint0.
        assert (Hlt : (draws k mod S (length cs) < length (c0 :: cs))%nat).
        { cbn [length]. apply Nat.mod_upper_bound. lia. }
        rewrite (nth_indep (c0 :: cs) m c0 Hlt).
        cbn [length].
        destruct (String.eqb (file_name_of (nth (draws k mod S (length cs)) (c0 :: cs) c0)) frame);
          cbn [negb]; rewrite Nat.add_1_r; reflexivity.
  - cbn [length Nat.eqb negb andb].
    destruct (e =? 0); cbn [andb negb].
    + rewrite Nat.add_0_r. reflexivity.
    + unfold randint0. rewrite Nat.mod_1_r. cbn [nth].
      rewrite Nat.add_1_r.
      destruct (String.eqb (file_name_of m) frame); reflexivity.
Qed.

(** ** The scan *)

Lemma last_cons_default {A} (l : list A) (c d : A) :
  List.last (c :: l) d = List.last l c.
Proof.
  revert c d. induction l as [|x l IH]; intros c d; [reflexivity|].
  change (List.last (c :: x :: l) d) with (List.last (x :: l) d).
  rewrite (IH x d). symmetry. apply IH.
Qed.

Lemma scan_is_last (draws : nat → nat) (frame : string)
    (frame_dict : gmap Z (list string)) (ratio : Z) (offsets : list Z) :
  ∀ st,
    matching_frame
      (fold_left (fun s e => probe draws frame frame_dict ratio e s) offsets st)
    = List.last (accepted_draws draws frame frame_dict ratio offsets (rng_calls st))
        (matching_frame st).
Proof.
  induction offsets as [|e rest IH]; intros st; [reflexivity|].
  cbn [fold_left accepted_draws]. rewrite IH. rewrite probe_spec.
  cbn [matching_frame rng_calls].
  destruct (accepted_draw frame frame_dict ratio e (draws (rng_calls st))) as [c|].
  - cbn [app]. rewrite last_cons_default. reflexivity.
  - reflexivity.
Qed.

Lemma matcher_is_last (fuel : nat) (draws : nat → nat) (calls : nat)
    (frame frame_path : string) (frame_dict : gmap Z (list string)) (ratio : Z) :
  (40 ≤ fuel)%nat → mouth_open_ratio_of frame = Ok ratio →
  matching_frame <$> get_random_matching_frame fuel draws calls frame frame_path frame_dict
    = Ok (List.last (accepted_draws draws frame frame_dict ratio probe_offsets calls)
            frame_path).
Proof.
  intros Hfuel Hratio. unfold get_random_matching_frame. rewrite Hratio. cbn [mbind result_bind].
  rewrite (while_is_scan _ fuel _ Hfuel). cbn [fmap result_fmap]. f_equal.
  apply (scan_is_last draws frame frame_dict ratio probe_offsets (MatcherState frame_path calls)).
Qed.

Lemma no_candidates_no_draws (draws : nat → nat) (frame : string)
    (frame_dict : gmap Z (list string)) (ratio : Z) (offsets : list Z) :
  (∀ e, In e offsets → options_at frame_dict ratio e = []) →
  ∀ calls, accepted_draws draws frame frame_dict ratio offsets calls = [].
Proof.
  induction offsets as [|e rest IH]; intros Hnone calls; [reflexivity|].
  cbn [accepted_draws]. unfold accepted_draw.
  rewrite (Hnone e (or_introl eq_refl)). cbn [app].
  apply IH. intros e' He'. apply Hnone. right. exact He'.
Qed.

Lemma probe_offsets_head : probe_offsets = 0 :: List.tl probe_offsets.
Proof. reflexivity. Qed.

Lemma probe_offsets_tail_nonzero : ∀ e, In e (List.tl probe_offsets) → e ≠ 0.
Proof.
  intros e He. vm_compute in He.
  repeat (destruct He as [<-|He]; [discriminate|]). contradiction.
Qed.

(** An index that holds one ratio only: the scan comes down to the one
    draw at offset 0. *)
Lemma single_ratio_scan (fuel : nat) (draws : nat → nat) (calls : nat)
    (frame frame_path : string) (ratio : Z) (l : list string) :
  (40 ≤ fuel)%nat → mouth_open_ratio_of frame = Ok ratio →
  matching_frame
    <$> get_random_matching_frame fuel draws calls frame frame_path {[ ratio := l ]}
  = Ok (match accepted_draw frame {[ ratio := l ]} ratio 0 (draws calls) with
        | Some c => c
        | None => frame_path
        end).
Proof.
  intros Hfuel Hratio.
  rewrite (matcher_is_last fuel draws calls frame frame_path _ ratio Hfuel Hratio).
  f_equal. rewrite probe_offsets_head. cbn [accepted_draws].
  rewrite no_candidates_no_draws.
  - rewrite app_nil_r.
    destruct (accepted_draw frame {[ratio := l]} ratio 0 (draws calls)); reflexivity.
  - intros e He. apply probe_offsets_tail_nonzero in He.
    unfold options_at. destruct (in_range (ratio + e)); [|reflexivity].
    rewrite lookup_singleton_ne by lia. cbn.
    destruct (e =? 0); reflexivity.
Qed.

(** ** The probing order *)

(** C7: the matcher probes the offsets 0, +1, -1, ..., +19, -19 in this
    order and no others (39 probes, within the 40 allowed, none of
    magnitude 20): what [get_random_matching_frame] returns, the path and
    the count of draws, is the state reached by running the body of its
    loop at exactly these offsets, left to right, from the path it was
    given; the loop run with a body that records its offset records this
    list; a probe whose ratio falls outside 1..100 leaves the state as it
    was; and when the index holds nothing at the in-range probed ratios
    the matcher returns the path it was given. *)
Theorem C7_probe_order_and_fallback (fuel : nat) (draws : nat → nat) (calls : nat)
    (frame frame_path : string) (frame_dict : gmap Z (list string)) (ratio : Z) :
  (40 ≤ fuel)%nat → mouth_open_ratio_of frame = Ok ratio →
  let order := [0; 1; -1; 2; -2; 3; -3; 4; -4; 5; -5; 6; -6; 7; -7; 8; -8; 9; -9;
                10; -10; 11; -11; 12; -12; 13; -13; 14; -14; 15; -15; 16; -16;
                17; -17; 18; -18; 19; -19] in
  get_random_matching_frame fuel draws calls frame frame_path frame_dict
    = Ok (fold_left (fun s e => probe draws frame frame_dict ratio e s) order
            (MatcherState frame_path calls))
  ∧ probed_offsets fuel = Ok order
  ∧ (∀ st, while_error_below_20 fuel (probe draws frame frame_dict ratio) 0 st
             = Ok (fold_left (fun s e => probe draws frame frame_dict ratio e s) order st))
  ∧ (length order ≤ 40)%nat
  ∧ Forall (fun e => Z.abs e < 20) order
  ∧ (∀ e st, ratio + e < 1 ∨ 100 < ratio + e →
             probe draws frame frame_dict ratio e st = st)
  ∧ ((∀ e, In e order → 1 ≤ ratio + e ≤ 100 →
           default [] (frame_dict !! (ratio + e)) = []) →
     matching_frame
       <$> get_random_matching_frame fuel draws calls frame frame_path frame_dict
     = Ok frame_path).
Proof.
  intros Hfuel Hratio order.
  assert (Horder : order = probe_offsets) by reflexivity.
  split.
  { unfold get_random_matching_frame. rewrite Hratio. cbn [mbind result_bind].
    rewrite Horder. exact (while_is_scan _ fuel _ Hfuel). }
  split; [rewrite Horder; exact (probed_offsets_enough fuel Hfuel)|].
  split; [intros st; rewrite Horder; exact (while_is_scan _ fuel st Hfuel)|].
  split; [cbn; lia|].
  split; [repeat constructor; cbn; lia|].
  split.
  - intros e st Hout. unfold probe. rewrite range_test.
    replace (in_range (ratio + e)) with false; [reflexivity|].
    symmetry. unfold in_range. apply andb_false_iff.
    destruct Hout; [left; apply Z.leb_gt | right; apply Z.leb_gt]; lia.
  - intros Hnone.
    rewrite (matcher_is_last fuel draws calls frame frame_path _ ratio Hfuel Hratio).
    rewrite no_candidates_no_draws; [reflexivity|].
    intros e He. unfold options_at.
    destruct (in_range (ratio + e)) eqn:Hin; [|reflexivity].
    rewrite Hnone.
    + destruct (e =? 0); reflexivity.
    + rewrite Horder. exact He.
    + unfold in_range in Hin. apply andb_true_iff in Hin.
      destruct Hin as [A B]. apply Z.leb_le in A, B. lia.
Qed.

(** The order recorded; an index with entries out of reach only, at 70
    and 30; and an index with one entry at 51 and one at 49, where the
    entry at 49, probed after the one at 51, is the result. *)
Lemma C7_probe_order_and_fallback_witness :
  probed_offsets 40
    = Ok [0; 1; -1; 2; -2; 3; -3; 4; -4; 5; -5; 6; -6; 7; -7; 8; -8; 9; -9;
          10; -10; 11; -11; 12; -12; 13; -13; 14; -14; 15; -15; 16; -16;
          17; -17; 18; -18; 19; -19]
  ∧ matching_frame
      <$> get_random_matching_frame 40 (fun n => n) 0 "00012_50.jpg"
            "videos/A/buckets/1/00012_50.jpg"
            {[ 70 := ["videos/B/adjustments/00003_70.jpg"];
               30 := ["videos/B/adjustments/00004_30.jpg"] ]}
    = Ok "videos/A/buckets/1/00012_50.jpg"
  ∧ matching_frame
      <$> get_random_matching_frame 40 (fun n => n) 0 "00012_50.jpg"
            "videos/A/buckets/1/00012_50.jpg"
            {[ 51 := ["videos/B/adjustments/00003_51.jpg"];
               49 := ["videos/C/adjustments/00004_49.jpg"] ]}
    = Ok "videos/C/adjustments/00004_49.jpg".
Proof.
  destruct (C7_probe_order_and_fallback 40 (fun n => n) 0 "00012_50.jpg"
              "videos/A/buckets/1/00012_50.jpg"
              {[ 70 := ["videos/B/adjustments/00003_70.jpg"];
                 30 := ["videos/B/adjustments/00004_30.jpg"] ]} 50
              (le_n 40) eq_refl) as (_ & A & _ & _ & _ & _ & B).
  split; [exact A|]. split.
  - apply B.
    intros e He Hr. cbn in He.
    repeat (destruct He as [<-|He]; [vm_compute; reflexivity|]). contradiction.
  - destruct (C7_probe_order_and_fallback 40 (fun n => n) 0 "00012_50.jpg"
                "videos/A/buckets/1/00012_50.jpg"
                {[ 51 := ["videos/B/adjustments/00003_51.jpg"];
                   49 := ["videos/C/adjustments/00004_49.jpg"] ]} 50
                (le_n 40) eq_refl) as (C & _).
    rewrite C. vm_compute. reflexivity.
Defined.

(** ** The last successful draw *)

(** X22: the matcher never leaves the scan early.  For every target
    frame, index and stream of draws it runs the body of its loop at
    every one of the 39 offsets, and the path it returns is the match
    taken at the last probe that took one (the index has entries at the
    probed ratio, it is not offset 0 with a single entry, and the drawn
    file name differs from the target's); the path it was given remains
    only when no probe takes a match. *)
Theorem X22_last_accepted_draw_wins (fuel : nat) (draws : nat → nat) (calls : nat)
    (frame frame_path : string) (frame_dict : gmap Z (list string)) (ratio : Z) :
  (40 ≤ fuel)%nat → mouth_open_ratio_of frame = Ok ratio →
  get_random_matching_frame fuel draws calls frame frame_path frame_dict
    = Ok (fold_left (fun s e => probe draws frame frame_dict ratio e s) probe_offsets
            (MatcherState frame_path calls))
  ∧ matching_frame
      <$> get_random_matching_frame fuel draws calls frame frame_path frame_dict
    = Ok (List.last (accepted_draws draws frame frame_dict ratio probe_offsets calls)
            frame_path).
Proof.
  intros Hfuel Hratio. split.
  - unfold get_random_matching_frame. rewrite Hratio. cbn [mbind result_bind].
    exact (while_is_scan _ fuel _ Hfuel).
  - exact (matcher_is_last fuel draws calls frame frame_path frame_dict ratio Hfuel Hratio).
Qed.

(** A match at offset 0 that a later probe, at offset -19, replaces. *)
Lemma X22_last_accepted_draw_wins_witness :
  let frame_dict : gmap Z (list string) :=
    {[ 50 := ["videos/B/adjustments/00003_50.jpg"; "videos/C/adjustments/00008_50.jpg"];
       31 := ["videos/D/adjustments/00001_31.jpg"] ]} in
  accepted_draws (fun _ => 0%nat) "00012_50.jpg" frame_dict 50 probe_offsets 0
    = ["videos/B/adjustments/00003_50.jpg"; "videos/D/adjustments/00001_31.jpg"]
  ∧ matching_frame
      <$> get_random_matching_frame 40 (fun _ => 0%nat) 0 "00012_50.jpg"
            "videos/A/buckets/1/00012_50.jpg" frame_dict
    = Ok "videos/D/adjustments/00001_31.jpg".
Proof.
  intros frame_dict.
  assert (E : accepted_draws (fun _ => 0%nat) "00012_50.jpg" frame_dict 50 probe_offsets 0
              = ["videos/B/adjustments/00003_50.jpg"; "videos/D/adjustments/00001_31.jpg"]).
  { vm_compute. reflexivity. }
  split; [exact E|].
  destruct (X22_last_accepted_draw_wins 40 (fun _ => 0%nat) 0 "00012_50.jpg"
              "videos/A/buckets/1/00012_50.jpg" frame_dict 50 (le_n 40) eq_refl)
    as [_ H].
  rewrite H, E. reflexivity.
Defined.

(** The scan as the design words it: without candidates no draw
    succeeds. *)
Lemma no_candidates_no_successful_draws (draws : nat → nat) (frame : string)
    (frame_dict : gmap Z (list string)) (ratio : Z) (offsets : list Z) :
  (∀ e, In e offsets → candidates_at frame_dict ratio e = []) →
  ∀ calls, successful_draws draws frame frame_dict ratio offsets calls = [].
Proof.
  induction offsets as [|e rest IH]; intros Hnone calls; [reflexivity|].
  cbn [successful_draws]. unfold successful_draw, draws_candidate.
  rewrite (Hnone e (or_introl eq_refl)). cbn [length Nat.eqb negb andb app].
  apply IH. intros e' He'. apply Hnone. right. exact He'.
Qed.

(** C2 (where the code parts from it): the index holds a single frame at
    the target's own ratio, and that frame is another one (its file name
    differs from the target's).  By the claim the probe at offset 0
    succeeds, candidates exist, the only candidate is not the frame
    itself, the drawn file name differs, and no later probe finds
    anything, so the last successful draw is that frame.  The code takes
    offset 0 with a single entry for the degenerate case without looking
    at the entry, draws nothing there, and returns the path it was
    given. *)
Theorem C2_lone_candidate_is_never_drawn (fuel : nat) (draws : nat → nat) (calls : nat)
    (frame frame_path other : string) (ratio : Z) :
  (40 ≤ fuel)%nat → mouth_open_ratio_of frame = Ok ratio → 1 ≤ ratio ≤ 100 →
  file_name_of other ≠ frame →
  successful_draw frame {[ ratio := [other] ]} ratio 0 (draws calls) = Some other
  ∧ last_successful_draw draws calls frame frame_path {[ ratio := [other] ]} ratio = other
  ∧ probe draws frame {[ ratio := [other] ]} ratio 0 (MatcherState frame_path calls)
    = MatcherState frame_path calls
  ∧ matching_frame
      <$> get_random_matching_frame fuel draws calls frame frame_path {[ ratio := [other] ]}
    = Ok frame_path.
Proof.
  intros Hfuel Hratio Hrange Hname.
  apply String.eqb_neq in Hname.
  assert (Hin : in_range (ratio + 0) = true).
  { unfold in_range. apply andb_true_iff. split; apply Z.leb_le; lia. }
  assert (Hzero : successful_draw frame {[ ratio := [other] ]} ratio 0 (draws calls)
                  = Some other).
  { unfold successful_draw, draws_candidate, candidates_at, degenerate.
    rewrite Hin, Z.add_0_r, lookup_singleton_eq. cbn [default from_option id].
    rewrite Hname. cbn [length Nat.eqb Z.eqb negb andb].
    rewrite Nat.mod_1_r. cbn [nth]. rewrite Hname. reflexivity. }
  split; [exact Hzero|]. split; [|split].
  - unfold last_successful_draw. rewrite probe_offsets_head. cbn [successful_draws].
    rewrite Hzero. rewrite no_candidates_no_successful_draws; [reflexivity|].
    intros e He. apply probe_offsets_tail_nonzero in He.
    unfold candidates_at. destruct (in_range (ratio + e)); [|reflexivity].
    rewrite lookup_singleton_ne by lia. reflexivity.
  - unfold probe. rewrite range_test, Hin, Z.add_0_r, lookup_singleton_eq. reflexivity.
  - rewrite (single_ratio_scan fuel draws calls frame frame_path ratio [other] Hfuel Hratio).
    unfold accepted_draw, options_at.
    rewrite Hin, Z.add_0_r, lookup_singleton_eq. reflexivity.
Qed.

(** A frame of a source outside the reference directory, at ratio 50,
    and the index of a reference directory that holds one frame, of
    source B, at ratio 50. *)
Lemma C2_lone_candidate_is_never_drawn_witness :
  let frame_dict : gmap Z (list string) := {[ 50 := ["videos/B/adjustments/00003_50.jpg"] ]} in
  get_frame_dict "videos" [("B", Some ["00003_50.jpg"])] = Ok frame_dict
  ∧ last_successful_draw (fun _ => 0%nat) 0 "00012_50.jpg" "clips/A/buckets/1/00012_50.jpg"
      frame_dict 50
    = "videos/B/adjustments/00003_50.jpg"
  ∧ matching_frame
      <$> get_random_matching_frame 40 (fun _ => 0%nat) 0 "00012_50.jpg"
            "clips/A/buckets/1/00012_50.jpg" frame_dict
    = Ok "clips/A/buckets/1/00012_50.jpg".
Proof.
  intros frame_dict. split; [vm_compute; reflexivity|].
  destruct (C2_lone_candidate_is_never_drawn 40 (fun _ => 0%nat) 0 "00012_50.jpg"
              "clips/A/buckets/1/00012_50.jpg" "videos/B/adjustments/00003_50.jpg" 50
              (le_n 40) eq_refl ltac:(lia) ltac:(vm_compute; discriminate))
    as (_ & A & _ & B).
  split; [exact A | exact B].
Defined.

(** ** Three sources at one ratio *)

Lemma three_sources_draw (frame pa pb pc : string) (l : list string) (ratio : Z) (raw : nat) :
  1 ≤ ratio ≤ 100 → Permutation l [pa; pb; pc] →
  accepted_draw frame {[ ratio := l ]} ratio 0 raw
    = let c := nth (raw mod 3) l pa in
      if String.eqb (file_name_of c) frame then None else Some c.
Proof.
  intros Hr Hperm.
  assert (Hlen : length l = 3%nat) by (rewrite (Permutation_length Hperm); reflexivity).
  unfold accepted_draw, options_at.
  replace (in_range (ratio + 0)) with true.
  2:{ symmetry. unfold in_range. apply andb_true_iff. split; apply Z.leb_le; lia. }
  rewrite Z.add_0_r, lookup_singleton_eq. cbn [default from_option id].
  rewrite Hlen. cbn [Z.eqb Nat.eqb andb].
  destruct l as [|c0 cs]; [discriminate|].
  cbn zeta. rewrite Hlen.
  rewrite (nth_indep (c0 :: cs) c0 pa); [reflexivity|].
  rewrite Hlen. apply Nat.mod_upper_bound. lia.
Qed.

(** C8 (as the code has it): three sources hold one frame each at ratio
    50, with paths [pa], [pb], [pc]; the target is A's frame, and B's and
    C's file names differ from it.  A draw is never accepted when it lands
    on A's entry (the file names are equal): the matcher then returns the
    path it was given.  So the result is B's frame, C's frame or that
    path, it is A's entry only if that is the path given, and each of the
    three occurs for some stream of draws. *)
Theorem C8_three_sources_one_ratio (fuel : nat) (frame frame_path pa pb pc : string)
    (l : list string) :
  (40 ≤ fuel)%nat → mouth_open_ratio_of frame = Ok 50 →
  Permutation l [pa; pb; pc] →
  file_name_of pa = frame → file_name_of pb ≠ frame → file_name_of pc ≠ frame →
  let matched draws calls :=
    matching_frame
      <$> get_random_matching_frame fuel draws calls frame frame_path {[ 50 := l ]} in
  (∀ draws calls,
     matched draws calls = Ok pb ∨ matched draws calls = Ok pc
     ∨ matched draws calls = Ok frame_path)
  ∧ (frame_path ≠ pa → ∀ draws calls, matched draws calls ≠ Ok pa)
  ∧ (∃ draws, matched draws 0%nat = Ok pb)
  ∧ (∃ draws, matched draws 0%nat = Ok pc)
  ∧ (∃ draws, matched draws 0%nat = Ok frame_path).
Proof.
  intros Hfuel Hratio Hperm Ha Hb Hc matched.
  assert (Hlen : length l = 3%nat) by (rewrite (Permutation_length Hperm); reflexivity).
  assert (Hres : ∀ draws calls,
             matched draws calls
             = Ok (let c := nth (draws calls mod 3) l pa in
                   if String.eqb (file_name_of c) frame then frame_path else c)).
  { intros draws calls. unfold matched.
    rewrite (single_ratio_scan fuel draws calls frame frame_path 50 l Hfuel Hratio).
    rewrite (three_sources_draw frame pa pb pc l 50 _ ltac:(lia) Hperm). cbn zeta.
    destruct (String.eqb (file_name_of (nth (draws calls mod 3) l pa)) frame); reflexivity. }
  assert (Hcases : ∀ draws calls,
             matched draws calls = Ok pb ∨ matched draws calls = Ok pc
             ∨ matched draws calls = Ok frame_path).
  { intros draws calls. rewrite Hres. cbn zeta.
    assert (Hin : In (nth (draws calls mod 3) l pa) [pa; pb; pc]).
    { apply (Permutation_in _ Hperm). apply nth_In. rewrite Hlen.
      apply Nat.mod_upper_bound. lia. }
    destruct (String.eqb (file_name_of (nth (draws calls mod 3) l pa)) frame) eqn:E.
    - right. right. reflexivity.
    - apply String.eqb_neq in E.
      destruct Hin as [H|[H|[H|[]]]].
      + rewrite <- H in E. contradiction.
      + left. rewrite <- H. reflexivity.
      + right. left. rewrite <- H. reflexivity. }
  assert (Hpick : ∀ p, In p [pa; pb; pc] → ∃ draws,
             matched draws 0%nat
             = Ok (if String.eqb (file_name_of p) frame then frame_path else p)).
  { intros p Hp. apply (Permutation_in _ (Permutation_sym Hperm)) in Hp.
    destruct (In_nth l p pa Hp) as (i & Hi & Hnth).
    exists (fun _ => i). rewrite Hres. cbn zeta.
    rewrite Nat.mod_small by lia. rewrite Hnth. reflexivity. }
  split; [exact Hcases|]. split; [|split; [|split]].
  - intros Hne draws calls Heq.
    destruct (Hcases draws calls) as [H|[H|H]]; rewrite H in Heq; inversion Heq; subst.
    + apply Hb. reflexivity.
    + apply Hc. reflexivity.
    + apply Hne. reflexivity.
  - destruct (Hpick pb) as [draws H]; [right; left; reflexivity|].
    exists draws. rewrite H. apply String.eqb_neq in Hb. rewrite Hb. reflexivity.
  - destruct (Hpick pc) as [draws H]; [right; right; left; reflexivity|].
    exists draws. rewrite H. apply String.eqb_neq in Hc. rewrite Hc. reflexivity.
  - destruct (Hpick pa) as [draws H]; [left; reflexivity|].
    exists draws. rewrite H. apply String.eqb_eq in Ha. rewrite Ha. reflexivity.
Qed.

(** The index of three such sources, as [get_frame_dict] builds it, and
    the three outcomes. *)
Lemma C8_three_sources_one_ratio_witness :
  let pa := "videos/A/adjustments/00012_50.jpg" in
  let pb := "videos/B/adjustments/00003_50.jpg" in
  let pc := "videos/C/adjustments/00008_50.jpg" in
  get_frame_dict "videos"
    [("A", Some ["00012_50.jpg"]); ("B", Some ["00003_50.jpg"]);
     ("C", Some ["00008_50.jpg"])]
    = Ok {[ 50 := [pa; pb; pc] ]}
  ∧ ∀ draws calls,
      let r := matching_frame
                 <$> get_random_matching_frame 40 draws calls "00012_50.jpg"
                       "videos/A/buckets/1/00012_50.jpg" {[ 50 := [pa; pb; pc] ]} in
      (r = Ok pb ∨ r = Ok pc ∨ r = Ok "videos/A/buckets/1/00012_50.jpg") ∧ r ≠ Ok pa.
Proof.
  intros pa pb pc. split; [vm_compute; reflexivity|].
  intros draws calls r.
  destruct (C8_three_sources_one_ratio 40 "00012_50.jpg" "videos/A/buckets/1/00012_50.jpg"
              pa pb pc [pa; pb; pc] (le_n 40) eq_refl (Permutation_refl _) eq_refl)
    as (H1 & H2 & _).
  - vm_compute. discriminate.
  - vm_compute. discriminate.
  - split; [apply H1|]. apply H2. vm_compute. discriminate.
Defined.

(** C8 (as written) fails: with the draw on A's own entry the matcher
    returns the path of A's frame that it was given, be it A's adjusted
    file or the path [compile_video] forms under the bucket directory;
    and when the three files share one name, a draw on B's entry is
    rejected as well. *)
Lemma C8_own_frame_returned_counterexample :
  let pa := "videos/A/adjustments/00012_50.jpg" in
  let pb := "videos/B/adjustments/00003_50.jpg" in
  let pc := "videos/C/adjustments/00008_50.jpg" in
  get_frame_dict "videos"
    [("A", Some ["00012_50.jpg"]); ("B", Some ["00003_50.jpg"]);
     ("C", Some ["00008_50.jpg"])]
    = Ok {[ 50 := [pa; pb; pc] ]}
  ∧ matching_frame
      <$> get_random_matching_frame 40 (fun _ => 0%nat) 0 "00012_50.jpg" pa
            {[ 50 := [pa; pb; pc] ]}
    = Ok pa
  ∧ matching_frame
      <$> get_random_matching_frame 40 (fun _ => 0%nat) 0 "00012_50.jpg"
            (path_join "videos/A/buckets/1" "00012_50.jpg") {[ 50 := [pa; pb; pc] ]}
    = Ok "videos/A/buckets/1/00012_50.jpg"
  ∧ matching_frame
      <$> get_random_matching_frame 40 (fun _ => 1%nat) 0 "00012_50.jpg" pa
            {[ 50 := [pa; "videos/B/adjustments/00012_50.jpg";
                      "videos/C/adjustments/00012_50.jpg"] ]}
    = Ok pa.
Proof. repeat split; vm_compute; reflexivity. Qed.

(* ===================================================================== *)
(** * Crop *)
(* ===================================================================== *)

(** What [crop_image] hands to PIL for a face that is large enough: the
    longer side is kept and each end of the shorter one moves out by
    [int(diff / 2)]. *)
Lemma crop_box_large (left_ top_ bottom_ right_ : Z) :
  150 ≤ right_ - left_ → 150 ≤ bottom_ - top_ →
  ∃ box, crop_box (left_, top_, bottom_, right_) = Some box
    ∧ Z.max (box_width box) (box_height box)
      = Z.max (right_ - left_) (bottom_ - top_)
    ∧ Z.min (box_width box) (box_height box)
      = Z.min (right_ - left_) (bottom_ - top_)
        + 2 * int_half (Z.abs ((right_ - left_) - (bottom_ - top_))).
Proof.
  intros Hw Hh. unfold crop_box.
  replace (right_ - left_ <? 150) with false by (symmetry; apply Z.ltb_ge; lia).
  replace (bottom_ - top_ <? 150) with false by (symmetry; apply Z.ltb_ge; lia).
  cbn [orb]. unfold int_half.
  destruct (right_ - left_ <? bottom_ - top_) eqn:E.
  - apply Z.ltb_lt in E. eexists. split; [reflexivity|].
    unfold box_width, box_height.
    replace (Z.abs (right_ - left_ - (bottom_ - top_)))
      with (bottom_ - top_ - (right_ - left_)) by lia.
    pose proof (Z.quot_pos (bottom_ - top_ - (right_ - left_)) 2 ltac:(lia) ltac:(lia)).
    pose proof (Z.mul_quot_le (bottom_ - top_ - (right_ - left_)) 2 ltac:(lia) ltac:(lia)).
    lia.
  - apply Z.ltb_ge in E. eexists. split; [reflexivity|].
    unfold box_width, box_height.
    replace (Z.abs (right_ - left_ - (bottom_ - top_)))
      with (right_ - left_ - (bottom_ - top_)) by lia.
    pose proof (Z.quot_pos (right_ - left_ - (bottom_ - top_)) 2 ltac:(lia) ltac:(lia)).
    pose proof (Z.mul_quot_le (right_ - left_ - (bottom_ - top_)) 2 ltac:(lia) ltac:(lia)).
    lia.
Qed.

(** The crop is a square when the two sides differ by an even number. *)
Lemma crop_box_square_on_even_difference (left_ top_ bottom_ right_ : Z) :
  150 ≤ right_ - left_ → 150 ≤ bottom_ - top_ →
  Z.even ((right_ - left_) - (bottom_ - top_)) = true →
  ∃ box, crop_box (left_, top_, bottom_, right_) = Some box
         ∧ box_width box = box_height box.
Proof.
  intros Hw Hh Heven.
  destruct (crop_box_large left_ top_ bottom_ right_ Hw Hh) as (box & Hbox & Hmax & Hmin).
  exists box. split; [exact Hbox|].
  assert (Habs : 2 * int_half (Z.abs (right_ - left_ - (bottom_ - top_)))
                 = Z.abs (right_ - left_ - (bottom_ - top_))).
  { unfold int_half.
    rewrite Z.quot_div_nonneg by lia.
    apply Z.even_spec in Heven. destruct Heven as [k Hk]. rewrite Hk.
    rewrite Z.abs_mul. change (Z.abs 2) with 2.
    rewrite (Z.mul_comm 2 (Z.abs k)), Z.div_mul by lia. lia. }
  lia.
Qed.

(** C3 (the code on a box 150 wide and 151 high): both ends of the
    shorter side move out by [int(1 / 2)] = 0, none takes the remainder,
    and the crop is 150 by 151, not a square. *)
Theorem C3_crop_odd_difference_not_square :
  crop_box (0, 0, 151, 150) = Some (0, 0, 150, 151)
  ∧ box_width (0, 0, 150, 151) = 150
  ∧ box_height (0, 0, 150, 151) = 151
  ∧ box_width (0, 0, 150, 151) ≠ box_height (0, 0, 150, 151).
Proof. repeat split; vm_compute; congruence. Qed.

(** ... and one pixel short of a square when they differ by an odd one. *)
Lemma crop_box_short_on_odd_difference (left_ top_ bottom_ right_ : Z) :
  150 ≤ right_ - left_ → 150 ≤ bottom_ - top_ →
  Z.odd ((right_ - left_) - (bottom_ - top_)) = true →
  ∃ box, crop_box (left_, top_, bottom_, right_) = Some box
         ∧ Z.abs (box_width box - box_height box) = 1.
Proof.
  intros Hw Hh Hodd.
  destruct (crop_box_large left_ top_ bottom_ right_ Hw Hh) as (box & Hbox & Hmax & Hmin).
  exists box. split; [exact Hbox|].
  assert (Habs : 2 * int_half (Z.abs (right_ - left_ - (bottom_ - top_)))
                 = Z.abs (right_ - left_ - (bottom_ - top_)) - 1).
  { unfold int_half.
    rewrite Z.quot_div_nonneg by lia.
    assert (Ho : Z.odd (Z.abs (right_ - left_ - (bottom_ - top_))) = true).
    { destruct (Z.abs_spec (right_ - left_ - (bottom_ - top_))) as [[_ ->]|[_ ->]];
        [exact Hodd | rewrite Z.odd_opp; exact Hodd]. }
    apply Z.odd_spec in Ho. destruct Ho as [k Hk]. rewrite Hk.
    replace (2 * k + 1) with (1 + k * 2) by lia.
    rewrite Z.div_add by lia. change (1 / 2) with 0. lia. }
  lia.
Qed.

(* ===================================================================== *)
(** * Mouth-open ratio *)
(* ===================================================================== *)

Lemma lip_extent_indices (lip : list point) (w : float) :
  lip_extent lip = Ok w →
  ∃ p q, index lip 0 = Ok p ∧ index lip (-1) = Ok q.
Proof.
  unfold lip_extent. intros H.
  destruct (index lip 0) as [p| |]; cbn in H; try discriminate.
  destruct (index lip (-1)) as [q| |]; cbn in H; try discriminate.
  exists p, q. split; reflexivity.
Qed.

(** With both measurements at hand the function is [ratio_of] of them. *)
Lemma mouth_open_ratio_from_measures (f : face) (rest : list face) (height width : float) :
  lip_width f = Ok width → open_mouth_height f = Ok height →
  mouth_open_ratio_from (f :: rest) = Some <$> ratio_of height width.
Proof.
  intros Hw Hh. unfold mouth_open_ratio_from.
  assert (Hb : ∃ p q, index (sort_by_x (bottom_lip f)) 0 = Ok p
                      ∧ index (sort_by_x (bottom_lip f)) (-1) = Ok q).
  { unfold lip_width in Hw.
    destruct (lip_extent (sort_by_x (bottom_lip f))) as [wb| |] eqn:E; cbn in Hw;
      try discriminate.
    exact (lip_extent_indices _ _ E). }
  assert (Ht : ∃ p q, index (sort_by_x (top_lip f)) 0 = Ok p
                      ∧ index (sort_by_x (top_lip f)) (-1) = Ok q).
  { unfold lip_width in Hw.
    destruct (lip_extent (sort_by_x (bottom_lip f))) as [wb| |]; cbn in Hw;
      try discriminate.
    destruct (lip_extent (sort_by_x (top_lip f))) as [wt| |] eqn:E; cbn in Hw;
      try discriminate.
    exact (lip_extent_indices _ _ E). }
  assert (Hm : ∃ p q, middle_of (sort_by_x (bottom_lip f)) = Ok p
                      ∧ middle_of (sort_by_x (top_lip f)) = Ok q).
  { unfold open_mouth_height in Hh.
    destruct (middle_of (sort_by_x (bottom_lip f))) as [p| |]; cbn in Hh; try discriminate.
    destruct (middle_of (sort_by_x (top_lip f))) as [q| |]; cbn in Hh; try discriminate.
    exists p, q. split; reflexivity. }
  destruct Hb as (b0 & b1 & -> & ->). destruct Ht as (t0 & t1 & -> & ->).
  destruct Hm as (bm & tm & -> & ->).
  cbn [mbind result_bind]. rewrite Hw, Hh. cbn [mbind result_bind].
  destruct (ratio_of height width); reflexivity.
Qed.

Lemma int_of_float_never_zero_division (x : float) :
  int_of_float x ≠ Raise ZeroDivisionError.
Proof.
  unfold int_of_float. destruct (Prim2SF x); discriminate.
Qed.

Lemma sort_by_x_repeat (p : point) (n : nat) : sort_by_x (repeat p n) = repeat p n.
Proof.
  unfold sort_by_x.
  assert (H : sort_keyed (map (fun q => (X q, q)) (repeat p n)) = repeat (X p, p) n).
  { induction n as [|n IH]; [reflexivity|].
    cbn [repeat map sort_keyed]. rewrite IH.
    destruct n as [|n]; [reflexivity|].
    cbn [repeat insert_by_key]. rewrite Z.leb_refl. reflexivity. }
  rewrite H. clear H. induction n as [|n IH]; [reflexivity|].
  cbn [repeat map snd]. f_equal. exact IH.
Qed.

Lemma index_repeat_first {A} (x : A) (n : nat) : index (repeat x (S n)) 0 = Ok x.
Proof. cbn [repeat]. apply index_first. Qed.

Lemma index_repeat_last {A} (x : A) (n : nat) : index (repeat x (S n)) (-1) = Ok x.
Proof.
  replace (repeat x (S n)) with (repeat x n ++ [x]).
  - apply index_last_app.
  - change [x] with (repeat x 1). rewrite <- repeat_app.
    f_equal. lia.
Qed.

Lemma index_repeat_any {A} (x : A) (n : nat) (i : Z) (y : A) :
  index (repeat x n) i = Ok y → y = x.
Proof.
  unfold index. intros H.
  destruct ((0 <=? (if i <? 0 then i + Z.of_nat (length (repeat x n)) else i))
            && ((if i <? 0 then i + Z.of_nat (length (repeat x n)) else i)
                <? Z.of_nat (length (repeat x n)))); [|discriminate].
  destruct (repeat x n !! Z.to_nat (if i <? 0 then i + Z.of_nat (length (repeat x n)) else i))
    as [z|] eqn:E; [|discriminate].
  inversion H; subst. apply list_elem_of_lookup_2 in E.
  apply list_elem_of_In in E. apply repeat_spec in E. exact E.
Qed.

Lemma index_in_range {A} (l : list A) (i : Z) :
  0 ≤ i < len l → ∃ y, index l i = Ok y.
Proof.
  unfold len, index. intros [H0 H1].
  replace (i <? 0) with false by (symmetry; apply Z.ltb_ge; lia).
  replace (0 <=? i) with true by (symmetry; apply Z.leb_le; lia).
  replace (i <? Z.of_nat (length l)) with true by (symmetry; apply Z.ltb_lt; lia).
  cbn [andb].
  destruct (lookup_lt_is_Some_2 l (Z.to_nat i) ltac:(lia)) as [y Hy].
  exists y. rewrite Hy. reflexivity.
Qed.

Lemma middle_of_repeat (p : point) (n : nat) : middle_of (repeat p (S n)) = Ok p.
Proof.
  unfold middle_of.
  destruct (index_in_range (repeat p (S n)) (int_half (len (repeat p (S n))))) as [y Hy].
  - unfold len, int_half. rewrite repeat_length.
    rewrite Z.quot_div_nonneg by lia. split.
    + apply Z.div_pos; lia.
    + apply Z.div_lt; lia.
  - rewrite Hy. f_equal. exact (index_repeat_any p (S n) _ y Hy).
Qed.

Lemma hypot_zero : hypot 0 0 = Ok 0%float.
Proof. vm_compute. reflexivity. Qed.

Lemma distance_same (p : point) : distance p p = Ok 0%float.
Proof. unfold distance. rewrite !Z.sub_diag. exact hypot_zero. Qed.

(** A face whose lip landmarks all fall on one pixel: both measurements
    are zero. *)
Lemma coincident_lips_measures (p : point) (n m : nat) (le re : list point) :
  lip_width (Face (repeat p (S n)) (repeat p (S m)) le re) = Ok 0%float
  ∧ open_mouth_height (Face (repeat p (S n)) (repeat p (S m)) le re) = Ok 0%float.
Proof.
  unfold lip_width, open_mouth_height, lip_extent. cbn [top_lip bottom_lip].
  rewrite !sort_by_x_repeat, !index_repeat_first, !index_repeat_last, !middle_of_repeat.
  cbn [mbind result_bind]. rewrite !distance_same. cbn [mbind result_bind].
  split; [vm_compute; reflexivity | reflexivity].
Qed.

(** ** Truncation, not rounding *)

(** C5 (as the code has it): when the detector finds a face, the width
    (the mean of the two lips' first-to-last distances, by x) is not zero
    and the scaled quotient height / width x 100 is a finite float, the
    ratio is that float truncated toward zero by [int], then clamped to
    1..100: an integer between 1 and 100.  The height is the distance
    between the two lips' points at index [len / 2] in x order. *)
Theorem C5_ratio_is_truncated_then_clamped (Image : Type)
    (face_landmarks : nat → Image → list face) (img : Image)
    (f : face) (rest : list face) (height width : float) (percent : Z) :
  face_landmarks 0%nat img = f :: rest →
  lip_width f = Ok width → open_mouth_height f = Ok height →
  PrimFloat.eqb width 0 = false →
  int_of_float (height / width * 100)%float = Ok percent →
  get_mouth_open_ratio Image face_landmarks img = Ok (Some (clamp percent 1 100))
  ∧ 1 ≤ clamp percent 1 100 ≤ 100.
Proof.
  intros Hface Hw Hh Hnz Hint. split.
  - unfold get_mouth_open_ratio. rewrite Hface.
    rewrite (mouth_open_ratio_from_measures f rest height width Hw Hh).
    unfold ratio_of, float_div. rewrite Hnz. cbn [mbind result_bind].
    rewrite Hint. reflexivity.
  - unfold clamp. lia.
Qed.

(** A mouth 8 wide and 3 high: 37.5 becomes 37. *)
Lemma C5_ratio_is_truncated_then_clamped_witness :
  let f := Face [(0, 10); (1, 9); (2, 9); (3, 9); (4, 9); (5, 9); (6, 9); (7, 9);
                 (8, 10); (6, 10); (4, 10); (2, 10)]
                [(8, 10); (7, 12); (6, 13); (5, 13); (4, 12); (3, 13); (2, 12);
                 (1, 11); (0, 10); (2, 11); (4, 13); (6, 11)] [] [] in
  get_mouth_open_ratio unit (fun _ _ => [f]) tt = Ok (Some 37).
Proof.
  intros f.
  destruct (C5_ratio_is_truncated_then_clamped unit (fun _ _ => [f]) tt f [] 3%float 8%float 37
              eq_refl) as [H _].
  - vm_compute. reflexivity.
  - vm_compute. reflexivity.
  - vm_compute. reflexivity.
  - vm_compute. reflexivity.
  - exact H.
Defined.

(** C5 (as written) fails on that mouth: rounding 37.5 gives 38, the code
    returns 37. *)
Lemma C5_rounding_counterexample :
  let f := Face [(0, 10); (1, 9); (2, 9); (3, 9); (4, 9); (5, 9); (6, 9); (7, 9);
                 (8, 10); (6, 10); (4, 10); (2, 10)]
                [(8, 10); (7, 12); (6, 13); (5, 13); (4, 12); (3, 13); (2, 12);
                 (1, 11); (0, 10); (2, 11); (4, 13); (6, 11)] [] [] in
  lip_width f = Ok 8%float
  ∧ open_mouth_height f = Ok 3%float
  ∧ rounded_ratio 3 8 = Ok 38
  ∧ mouth_open_ratio_from [f] = Ok (Some 37).
Proof. repeat split; vm_compute; reflexivity. Qed.

(** ** No guard on the width *)

(** C6 (as the code has it): nothing guards the division.  Once both
    measurements are taken, the function ends in [ZeroDivisionError]
    exactly when the width is zero, and whenever the width is not zero the
    division itself succeeds; a face whose lip landmarks all coincide has
    width zero and so raises. *)
Theorem C6_zero_width_divides_by_zero (f : face) (rest : list face)
    (height width : float) :
  lip_width f = Ok width → open_mouth_height f = Ok height →
  (mouth_open_ratio_from (f :: rest) = Raise ZeroDivisionError
   ↔ PrimFloat.eqb width 0 = true)
  ∧ (PrimFloat.eqb width 0 = false →
     float_div height width = Ok (height / width)%float)
  ∧ (∀ p n m le re others,
       mouth_open_ratio_from (Face (repeat p (S n)) (repeat p (S m)) le re :: others)
       = Raise ZeroDivisionError).
Proof.
  intros Hw Hh. split; [|split].
  - rewrite (mouth_open_ratio_from_measures f rest height width Hw Hh).
    unfold ratio_of, float_div.
    destruct (PrimFloat.eqb width 0); cbn [mbind result_bind fmap result_fmap].
    + split; reflexivity.
    + split; [|discriminate]. intros H.
      destruct (int_of_float (height / width * 100)%float) as [z| |] eqn:E;
        cbn in H; try discriminate.
      inversion H; subst. exfalso. exact (int_of_float_never_zero_division _ E).
  - intros Hnz. unfold float_div. rewrite Hnz. reflexivity.
  - intros p n m le re others.
    destruct (coincident_lips_measures p n m le re) as [Hw0 Hh0].
    rewrite (mouth_open_ratio_from_measures _ others 0%float 0%float Hw0 Hh0).
    reflexivity.
Qed.

Lemma C6_zero_width_divides_by_zero_witness :
  mouth_open_ratio_from
    [Face [(3, 7); (3, 9); (3, 7)] [(3, 7); (3, 20); (3, 7)] [] []]
  = Raise ZeroDivisionError.
Proof.
  destruct (C6_zero_width_divides_by_zero
              (Face [(3, 7); (3, 9); (3, 7)] [(3, 7); (3, 20); (3, 7)] [] []) []
              11%float 0%float) as [[_ H] _].
  - vm_compute. reflexivity.
  - vm_compute. reflexivity.
  - apply H. reflexivity.
Defined.

(** C6 (as written) fails: twelve top-lip and twelve bottom-lip landmarks
    on one pixel give width 0.0, and the division raises. *)
Lemma C6_division_by_zero_counterexample :
  let f := Face (repeat (120, 200) 12) (repeat (120, 200) 12) [] [] in
  lip_width f = Ok 0%float
  ∧ open_mouth_height f = Ok 0%float
  ∧ float_div 0 0 = Raise ZeroDivisionError
  ∧ mouth_open_ratio_from [f] = Raise ZeroDivisionError.
Proof. repeat split; vm_compute; reflexivity. Qed.

(* ===================================================================== *)
(** * The stages of one frame *)
(* ===================================================================== *)

Section Stages.
Variable Image : Type.
Variable face_landmarks : nat → Image → list face.
Variable pil_crop : Image → Z * Z * Z * Z → Image.
Variable pil_resize : Image → Z * Z → Image.
Variable pil_convert : Image → string → Image.
Variable rotate_by_eyebrows : Image → face → result Image.
Variable shift_to_mouth : Image → face → result Image.

Local Abbreviation adjust_frame :=
  (adjust Image face_landmarks pil_crop pil_resize pil_convert
     rotate_by_eyebrows shift_to_mouth).

(** A face too small for the crop: nothing is saved. *)
Lemma adjust_small_face (opened : Image) (image_path adjustments_path : string)
    (bb : bounding_box) :
  crop_box bb = None →
  adjust_frame opened image_path bb adjustments_path = Ok None.
Proof. intros H. unfold adjust, crop_image. rewrite H. reflexivity. Qed.



End Stages.



(* ===================================================================== *)
(** * The prelude on concrete values *)
(* ===================================================================== *)

(** [int] drops the fraction, toward zero. *)
Example int_of_float_truncates :
  int_of_float 37.5 = Ok 37
  ∧ int_of_float 0.75 = Ok 0
  ∧ int_of_float (-2.75) = Ok (-2)
  ∧ int_of_float 1e3 = Ok 1000
  ∧ int_of_float infinity = Raise OverflowError
  ∧ int_of_float nan = Raise ValueError.
Proof. repeat split; vm_compute; reflexivity. Qed.

(** [int(n / 2)] through the floats is the quotient used above. *)
Example int_half_through_floats :
  Forall (fun n => (q ← int_truediv n 2; int_of_float q) = Ok (int_half n))
    [0; 1; 2; 5; 12; 25; 30; 61; 151; 9007199254740991; -7].
Proof. repeat constructor. Qed.

(** The two numbers of a frame name. *)
Example frame_name_numbers :
  frame_number_of "00012_50.jpg" = Ok 12
  ∧ mouth_open_ratio_of "00012_50.jpg" = Ok 50
  ∧ mouth_open_ratio_of "00012_100.jpg" = Ok 100
  ∧ frame_number_of "cover.jpg" = Raise ValueError
  ∧ mouth_open_ratio_of "00012.jpg" = Raise IndexError
  ∧ mouth_open_ratio_of "00012_None.jpg" = Raise ValueError.
Proof. repeat split; vm_compute; reflexivity. Qed.

(** [strip] works on characters, [sorted] keeps the order of equal keys. *)
Example strip_and_sorted :
  strip ".jpg" "videos/A/adjustments/00007.jpg" = "videos/A/adjustments/00007"
  ∧ strip ".jpg" "pages/00007.jpg" = "ages/00007"
  ∧ sorted frame_number_of ["00002_9.jpg"; "00001_5.jpg"; "00002_3.jpg"; "2_1.jpg"]
    = Ok ["00001_5.jpg"; "00002_9.jpg"; "00002_3.jpg"; "2_1.jpg"]
  ∧ path_join "videos/A" "buckets" = "videos/A/buckets"
  ∧ file_name_of "videos/A/frames/00007.jpg" = "00007.jpg"
  ∧ copy_frame "videos/B/adjustments/00003_50.jpg" 12 "videos/A/buckets/1"
    = ("videos/B/adjustments/00003_50.jpg", "videos/A/buckets/1/00012.jpg").
Proof. repeat split; vm_compute; reflexivity. Qed.

(** The span of a bucket at 12 frames per second, and at none. *)
Example audio_span_of_bucket :
  audio_span ["00007_50.jpg"; "00008_41.jpg"; "00013_2.jpg"] 12 = Ok (0.5, 1)%float
  ∧ audio_span ["00007_50.jpg"] 0 = Raise ZeroDivisionError.
Proof. split; vm_compute; reflexivity. Qed.

(* ===================================================================== *)
(** * Strings: splitting, stripping, digits *)
(* ===================================================================== *)

(** [s] holds no character [c]. *)
Fixpoint lacks (c : ascii) (s : string) : bool :=
  match s with
  | EmptyString => true
  | String x s' => negb (Ascii.eqb x c) && lacks c s'
  end.

(** Every character of [s] passes [test]. *)
Fixpoint all_chars (test : ascii → bool) (s : string) : bool :=
  match s with
  | EmptyString => true
  | String x s' => test x && all_chars test s'
  end.

Definition is_digit (c : ascii) : bool :=
  match digit_of c with Some _ => true | None => false end.

Lemma append_nil_l (b : string) : (EmptyString ++ b)%string = b.
Proof. reflexivity. Qed.

Lemma append_cons (c : ascii) (a b : string) :
  (String c a ++ b)%string = String c (a ++ b).
Proof. reflexivity. Qed.

Lemma split_nonempty (sep : ascii) (s : string) : split sep s ≠ [].
Proof.
  destruct s as [|c s]; cbn; [discriminate|].
  destruct (Ascii.eqb c sep); [discriminate|].
  destruct (split sep s); discriminate.
Qed.

Lemma split_lacks (sep : ascii) (s : string) : lacks sep s = true → split sep s = [s].
Proof.
  induction s as [|c s IH]; cbn; [reflexivity|].
  intros H. apply andb_true_iff in H. destruct H as [Hc Hs].
  apply negb_true_iff in Hc. rewrite Hc. rewrite (IH Hs). reflexivity.
Qed.

Lemma split_app_sep (sep : ascii) (a b : string) :
  split sep (a ++ String sep b)%string = split sep a ++ split sep b.
Proof.
  induction a as [|c a IH].
  - change (split sep (String sep b) = [EmptyString] ++ split sep b).
    cbn [split]. rewrite Ascii.eqb_refl. reflexivity.
  - change (split sep (String c (a ++ String sep b)) = split sep (String c a) ++ split sep b).
    cbn [split]. destruct (Ascii.eqb c sep).
    + rewrite IH. reflexivity.
    + rewrite IH. destruct (split sep a) as [|w ws] eqn:E.
      * exfalso. exact (split_nonempty sep a E).
      * reflexivity.
Qed.

Lemma last_app_nonempty {A} (l1 l2 : list A) (d : A) :
  l2 ≠ [] → List.last (l1 ++ l2) d = List.last l2 d.
Proof.
  intros H. induction l1 as [|x l1 IH]; [reflexivity|].
  cbn [app]. destruct (l1 ++ l2) eqn:E.
  - apply app_eq_nil in E. destruct E as [_ E]. contradiction.
  - rewrite <- E in *. change (List.last (x :: l1 ++ l2) d) with
      (match l1 ++ l2 with [] => x | _ :: _ => List.last (l1 ++ l2) d end).
    rewrite E. rewrite <- E. exact IH.
Qed.

Lemma file_name_of_app (a f : string) :
  file_name_of (a ++ String "/" f) = file_name_of f.
Proof.
  unfold file_name_of. rewrite split_app_sep.
  apply last_app_nonempty. apply split_nonempty.
Qed.

Lemma file_name_of_lacks (f : string) : lacks "/" f = true → file_name_of f = f.
Proof. intros H. unfold file_name_of. rewrite (split_lacks _ _ H). reflexivity. Qed.

Lemma lacks_app (c : ascii) (a b : string) :
  lacks c (a ++ b) = lacks c a && lacks c b.
Proof.
  induction a as [|x a IH]; [reflexivity|].
  rewrite append_cons. cbn [lacks]. rewrite IH. rewrite andb_assoc. reflexivity.
Qed.

(** ** [strip] *)

Lemma lstrip_keeps (chars s : string) :
  all_chars (fun c => negb (char_in c chars)) s = true → lstrip chars s = s.
Proof.
  destruct s as [|c s]; cbn; [reflexivity|].
  intros H. apply andb_true_iff in H. destruct H as [Hc _].
  apply negb_true_iff in Hc. rewrite Hc. reflexivity.
Qed.

Lemma lstrip_head (chars : string) (c : ascii) (s : string) :
  char_in c chars = false → lstrip chars (String c s) = String c s.
Proof. intros H. cbn. rewrite H. reflexivity. Qed.

Lemma rstrip_keeps (chars s : string) :
  all_chars (fun c => negb (char_in c chars)) s = true → rstrip chars s = s.
Proof.
  induction s as [|c s IH]; cbn; [reflexivity|].
  intros H. apply andb_true_iff in H. destruct H as [Hc Hs].
  apply negb_true_iff in Hc. rewrite (IH Hs).
  destruct s; [rewrite Hc|]; reflexivity.
Qed.

Lemma rstrip_all (chars s : string) :
  all_chars (fun c => char_in c chars) s = true → rstrip chars s = EmptyString.
Proof.
  induction s as [|c s IH]; cbn; [reflexivity|].
  intros H. apply andb_true_iff in H. destruct H as [Hc Hs].
  rewrite (IH Hs), Hc. reflexivity.
Qed.

Lemma rstrip_app_all (chars a b : string) :
  all_chars (fun c => char_in c chars) b = true →
  rstrip chars (a ++ b) = rstrip chars a.
Proof.
  intros Hb. induction a as [|c a IH].
  - rewrite append_nil_l. rewrite (rstrip_all _ _ Hb). reflexivity.
  - rewrite append_cons. cbn [rstrip]. rewrite IH. reflexivity.
Qed.

Lemma rstrip_app_kept (chars a b : string) :
  rstrip chars b ≠ EmptyString → rstrip chars (a ++ b) = (a ++ rstrip chars b)%string.
Proof.
  intros Hb. induction a as [|c a IH]; [reflexivity|].
  rewrite !append_cons. cbn [rstrip].
  rewrite IH. destruct (a ++ rstrip chars b)%string eqn:E; [|reflexivity].
  exfalso. destruct a; [rewrite append_nil_l in E; contradiction|].
  rewrite append_cons in E. discriminate.
Qed.

(** ** Digits and [int] *)

Lemma digits_value_app (a b : string) :
  ∀ acc, digits_value acc (a ++ b)
         = match digits_value acc a with
           | Some v => digits_value v b
           | None => None
           end.
Proof.
  induction a as [|c a IH]; intros acc; [reflexivity|].
  rewrite append_cons. cbn [digits_value].
  destruct (digit_of c); [apply IH | reflexivity].
Qed.


Lemma digit_not_space (c : ascii) : is_digit c = true → char_in c whitespace = false.
Proof.
  destruct c as [[] [] [] [] [] [] [] []]; intros H; try discriminate H; reflexivity.
Qed.

Lemma digit_not_sign (c : ascii) :
  is_digit c = true → c ≠ "-"%char ∧ c ≠ "+"%char.
Proof.
  destruct c as [[] [] [] [] [] [] [] []]; intros H; try discriminate H;
    split; discriminate.
Qed.

Lemma digits_no_space (s : string) :
  all_chars is_digit s = true →
  all_chars (fun c => negb (char_in c whitespace)) s = true.
Proof.
  induction s as [|c s IH]; cbn [all_chars]; [reflexivity|].
  intros H. apply andb_true_iff in H. destruct H as [Hc Hs].
  rewrite (digit_not_space c Hc), (IH Hs). reflexivity.
Qed.

(** A non-empty string of digits is read as its value. *)
Lemma int_of_str_digits (s : string) (v : Z) :
  s ≠ EmptyString → all_chars is_digit s = true →
  digits_value 0 s = Some v → int_of_str s = Ok v.
Proof.
  intros Hne Hd Hv. unfold int_of_str, strip.
  rewrite (lstrip_keeps _ _ (digits_no_space s Hd)).
  rewrite (rstrip_keeps _ _ (digits_no_space s Hd)).
  destruct s as [|c s]; [contradiction|].
  cbn in Hd. apply andb_true_iff in Hd. destruct Hd as [Hc _].
  destruct c as [[] [] [] [] [] [] [] []]; try discriminate Hc;
    cbv beta iota; unfold unsigned_value; rewrite Hv; reflexivity.
Qed.

(** ** [str] of an int, read back *)

Lemma append_assoc (a b c : string) : ((a ++ b) ++ c)%string = (a ++ b ++ c)%string.
Proof.
  induction a as [|x a IH]; [reflexivity|].
  rewrite !append_cons. rewrite IH. reflexivity.
Qed.

Lemma all_chars_app (test : ascii → bool) (a b : string) :
  all_chars test (a ++ b) = all_chars test a && all_chars test b.
Proof.
  induction a as [|x a IH]; [reflexivity|].
  rewrite append_cons. cbn [all_chars]. rewrite IH. rewrite andb_assoc. reflexivity.
Qed.

Lemma length_append (a b : string) :
  String.length (a ++ b) = (String.length a + String.length b)%nat.
Proof.
  induction a as [|x a IH]; [reflexivity|].
  rewrite append_cons. cbn [String.length]. rewrite IH. reflexivity.
Qed.

Lemma digit_of_pretty_char (r : N) :
  (r < 10)%N →
  digit_of (pretty_N_char r) = Some (Z.of_N r) ∧ is_digit (pretty_N_char r) = true.
Proof.
  intros H.
  assert (r = 0 ∨ r = 1 ∨ r = 2 ∨ r = 3 ∨ r = 4 ∨ r = 5 ∨ r = 6 ∨ r = 7 ∨ r = 8 ∨ r = 9)%N
    as Hr by lia.
  repeat (destruct Hr as [->|Hr]; [split; reflexivity|]). subst. split; reflexivity.
Qed.

Lemma pretty_N_go_digits (x : N) :
  ∀ s, ∃ ds,
    pretty_N_go x s = (ds ++ s)%string
    ∧ all_chars is_digit ds = true
    ∧ ((0 < x)%N → ds ≠ EmptyString)
    ∧ ∀ acc, digits_value acc ds
             = Some (acc * 10 ^ Z.of_nat (String.length ds) + Z.of_N x).
Proof.
  induction (N.lt_wf_0 x) as [x _ IH]. intros s.
  destruct (N.eq_dec x 0%N) as [->|Hx].
  - exists EmptyString. rewrite pretty_N_go_0. repeat split; try reflexivity.
    + intros H. lia.
    + intros acc. cbn. f_equal. lia.
  - assert (Hpos : (0 < x)%N) by lia.
    rewrite (pretty_N_go_step x s Hpos).
    destruct (IH (x `div` 10)%N (N.div_lt x 10 Hpos eq_refl)
                (String (pretty_N_char (x `mod` 10)) s)) as (ds' & Hgo & Hall & _ & Hval).
    destruct (digit_of_pretty_char (x `mod` 10)%N) as [Hdig Hisd].
    { apply N.mod_lt. discriminate. }
    exists (ds' ++ String (pretty_N_char (x `mod` 10)) EmptyString)%string.
    split; [|split; [|split]].
    + rewrite Hgo. rewrite append_assoc. reflexivity.
    + rewrite all_chars_app, Hall. cbn [all_chars]. rewrite Hisd. reflexivity.
    + intros _ E. destruct ds'; [rewrite append_nil_l in E | rewrite append_cons in E];
        discriminate.
    + intros acc. rewrite digits_value_app, Hval. cbn [digits_value]. rewrite Hdig.
      f_equal. rewrite length_append. cbn [String.length].
      rewrite Nat2Z.inj_add. change (Z.of_nat 1) with 1.
      rewrite Z.pow_add_r by lia. change (10 ^ 1) with 10.
      pose proof (N.div_mod x 10 ltac:(discriminate)) as Hdm.
      assert (Z.of_N x = 10 * Z.of_N (x `div` 10) + Z.of_N (x `mod` 10)) by lia.
      lia.
Qed.

(** [str] of a non-negative int is a non-empty string of digits whose
    value is that int. *)
Lemma str_of_int_digits (z : Z) :
  0 ≤ z →
  str_of_int z ≠ EmptyString
  ∧ all_chars is_digit (str_of_int z) = true
  ∧ digits_value 0 (str_of_int z) = Some z.
Proof.
  intros Hz. unfold str_of_int. destruct z as [|p|p]; [| |lia].
  - repeat split; try reflexivity. discriminate.
  - unfold pretty, pretty_Z, pretty, pretty_positive, pretty, pretty_N.
    case_decide as H0; [discriminate|].
    destruct (pretty_N_go_digits (N.pos p) EmptyString) as (ds & Hgo & Hall & Hne & Hval).
    assert (E : pretty_N_go (N.pos p) EmptyString = ds).
    { rewrite Hgo. clear. induction ds as [|c ds IH]; [reflexivity|].
      rewrite append_cons, IH. reflexivity. }
    rewrite E. split; [apply Hne; lia|]. split; [exact Hall|].
    rewrite Hval. f_equal.
Qed.

Lemma int_of_str_of_int (z : Z) : 0 ≤ z → int_of_str (str_of_int z) = Ok z.
Proof.
  intros Hz. destruct (str_of_int_digits z Hz) as (Hne & Hall & Hval).
  exact (int_of_str_digits _ _ Hne Hall Hval).
Qed.

(** ** Names of adjusted frames *)

Lemma substring_app_skip (x y : string) (k m : nat) :
  substring (String.length x + k) m (x ++ y) = substring k m y.
Proof.
  induction x as [|c x IH]; [reflexivity|].
  rewrite append_cons. cbn [String.length Nat.add substring]. exact IH.
Qed.

Lemma endswith_app (a b suffix : string) :
  (String.length suffix ≤ String.length b)%nat →
  endswith (a ++ b) suffix = endswith b suffix.
Proof.
  intros H. unfold endswith. rewrite length_append.
  replace (String.length suffix <=? String.length a + String.length b)%nat with true
    by (symmetry; apply Nat.leb_le; lia).
  replace (String.length suffix <=? String.length b)%nat with true
    by (symmetry; apply Nat.leb_le; lia).
  cbn [andb].
  replace (String.length a + String.length b - String.length suffix)%nat
    with (String.length a + (String.length b - String.length suffix))%nat by lia.
  rewrite substring_app_skip. reflexivity.
Qed.

Lemma digit_not_in_jpg (c : ascii) : is_digit c = true → char_in c ".jpg" = false.
Proof.
  destruct c as [[] [] [] [] [] [] [] []]; intros H; try discriminate H; reflexivity.
Qed.

Lemma digit_not_underscore (c : ascii) : is_digit c = true → Ascii.eqb c "_" = false.
Proof.
  destruct c as [[] [] [] [] [] [] [] []]; intros H; try discriminate H; reflexivity.
Qed.

Lemma digit_not_slash (c : ascii) : is_digit c = true → Ascii.eqb c "/" = false.
Proof.
  destruct c as [[] [] [] [] [] [] [] []]; intros H; try discriminate H; reflexivity.
Qed.

Lemma digits_outside_jpg (s : string) :
  all_chars is_digit s = true →
  all_chars (fun c => negb (char_in c ".jpg")) s = true.
Proof.
  induction s as [|c s IH]; cbn [all_chars]; [reflexivity|].
  intros H. apply andb_true_iff in H. destruct H as [Hc Hs].
  rewrite (digit_not_in_jpg c Hc), (IH Hs). reflexivity.
Qed.

Lemma digits_lack_underscore (s : string) :
  all_chars is_digit s = true → lacks "_" s = true.
Proof.
  induction s as [|c s IH]; cbn [all_chars lacks]; [reflexivity|].
  intros H. apply andb_true_iff in H. destruct H as [Hc Hs].
  rewrite (digit_not_underscore c Hc), (IH Hs). reflexivity.
Qed.

Lemma digits_lack_slash (s : string) :
  all_chars is_digit s = true → lacks "/" s = true.
Proof.
  induction s as [|c s IH]; cbn [all_chars lacks]; [reflexivity|].
  intros H. apply andb_true_iff in H. destruct H as [Hc Hs].
  rewrite (digit_not_slash c Hc), (IH Hs). reflexivity.
Qed.

(** Stripping ".jpg" from digits followed by ".jpg" leaves the digits. *)
Lemma strip_jpg_digits (s : string) :
  s ≠ EmptyString → all_chars is_digit s = true →
  strip ".jpg" (s ++ ".jpg") = s.
Proof.
  intros Hne Hd. unfold strip.
  destruct s as [|c s]; [contradiction|].
  assert (Hc : is_digit c = true).
  { cbn [all_chars] in Hd. apply andb_true_iff in Hd. apply Hd. }
  rewrite append_cons. rewrite (lstrip_head _ c _ (digit_not_in_jpg c Hc)).
  rewrite <- append_cons.
  rewrite rstrip_app_all by reflexivity.
  apply rstrip_keeps. apply digits_outside_jpg. exact Hd.
Qed.

(** The parts of a name [<stem>_<field>.jpg], for a stem of digits and a
    field without underscore. *)
Lemma split_adjusted_name (stem field : string) :
  all_chars is_digit stem = true → lacks "_" field = true →
  split "_" (stem ++ String "_" (field ++ ".jpg")) = [stem; (field ++ ".jpg")%string].
Proof.
  intros Hs Hf. rewrite split_app_sep.
  rewrite (split_lacks _ stem (digits_lack_underscore stem Hs)).
  rewrite (split_lacks _ (field ++ ".jpg")%string); [reflexivity|].
  rewrite lacks_app, Hf. reflexivity.
Qed.

Ltac step_bind H :=
  match type of H with
  | context [@mbind _ _ _ _ _ ?x] =>
      let E := fresh "E" in
      destruct x eqn:E; cbn [mbind result_bind] in H; try discriminate H
  end.

(** Whatever the landmarks, a ratio that is computed lies in 1..100. *)
Lemma mouth_open_ratio_from_range (landmarks : list face) (r : Z) :
  mouth_open_ratio_from landmarks = Ok (Some r) → 1 ≤ r ≤ 100.
Proof.
  unfold mouth_open_ratio_from. destruct landmarks as [|f rest]; [discriminate|].
  intros H. repeat step_bind H.
  unfold ratio_of in *.
  match goal with E : _ = Ok ?a |- _ =>
    match type of E with context [float_div] => repeat step_bind E; inversion E; subst end
  end.
  inversion H; subst. lia.
Qed.

(** The parsers of the compile stage on a name [<digits>_<ratio>.jpg]. *)
Lemma adjusted_name_read_back (stem : string) (n r : Z) :
  stem ≠ EmptyString → all_chars is_digit stem = true →
  digits_value 0 stem = Some n → 0 ≤ r →
  let name := (stem ++ ratio_suffix (Some r))%string in
  endswith name "jpg" = true
  ∧ frame_number_of name = Ok n
  ∧ mouth_open_ratio_of name = Ok r
  ∧ adjusted_image_name name = (stem ++ ".jpg")%string.
Proof.
  intros Hne Hd Hn Hr name.
  destruct (str_of_int_digits r Hr) as (Hrne & Hrd & Hrv).
  assert (Hname : name = (stem ++ String "_" (str_of_int r ++ ".jpg"))%string) by reflexivity.
  assert (Hsplit : split "_" name = [stem; (str_of_int r ++ ".jpg")%string]).
  { rewrite Hname. apply split_adjusted_name; [exact Hd|].
    apply digits_lack_underscore. exact Hrd. }
  split; [|split; [|split]].
  - rewrite Hname.
    replace (stem ++ String "_" (str_of_int r ++ ".jpg"))%string
      with ((stem ++ String "_" (str_of_int r ++ ".")) ++ "jpg")%string.
    + apply endswith_app. cbn. lia.
    + rewrite !append_assoc, !append_cons, !append_assoc. reflexivity.
  - unfold frame_number_of. rewrite Hsplit. rewrite index_first. cbn [mbind result_bind].
    exact (int_of_str_digits stem n Hne Hd Hn).
  - unfold mouth_open_ratio_of. rewrite Hsplit.
    change (index [stem; (str_of_int r ++ ".jpg")%string] 1)
      with (Ok (str_of_int r ++ ".jpg")%string : result string).
    cbn [mbind result_bind].
    rewrite (strip_jpg_digits _ Hrne Hrd). exact (int_of_str_of_int r Hr).
  - unfold adjusted_image_name. rewrite Hsplit. reflexivity.
Qed.

(** X1: a file named by [adjust], digits, an underscore, the ratio and
    ".jpg", is taken up by the compile stage: it counts as a jpg, the
    bucketizer reads the frame number back from it, the index and the
    matcher read the ratio back, and the resume scan recovers the name of
    the frame file. *)
Theorem X1_adjusted_name_is_read_back (stem : string) (n r : Z) :
  stem ≠ EmptyString → all_chars is_digit stem = true →
  digits_value 0 stem = Some n → 0 ≤ r →
  let name := (stem ++ ratio_suffix (Some r))%string in
  endswith name "jpg" = true
  ∧ frame_number_of name = Ok n
  ∧ mouth_open_ratio_of name = Ok r
  ∧ adjusted_image_name name = (stem ++ ".jpg")%string.
Proof. exact (adjusted_name_read_back stem n r). Qed.

Lemma X1_adjusted_name_is_read_back_witness :
  frame_number_of "00012_37.jpg" = Ok 12
  ∧ mouth_open_ratio_of "00012_37.jpg" = Ok 37
  ∧ adjusted_image_name "00012_37.jpg" = "00012.jpg".
Proof.
  destruct (X1_adjusted_name_is_read_back "00012" 12 37) as (_ & A & B & C).
  - discriminate.
  - reflexivity.
  - reflexivity.
  - lia.
  - split; [exact A | split; [exact B | exact C]].
Defined.

Lemma save_path_of_frame (adjustments_path rest stem suffix : string) :
  adjustments_path = String "/" rest → endswith adjustments_path "/" = false →
  stem ≠ EmptyString → all_chars is_digit stem = true →
  (strip ".jpg" (path_join adjustments_path (stem ++ ".jpg")) ++ suffix)%string
  = (adjustments_path ++ String "/" (stem ++ suffix))%string.
Proof.
  intros Habs Hend Hne Hd.
  assert (Hjoin : path_join adjustments_path (stem ++ ".jpg")
                  = (adjustments_path ++ String "/" (stem ++ ".jpg"))%string).
  { unfold path_join. rewrite Hend. subst adjustments_path.
    destruct stem as [|c stem]; [contradiction|].
    assert (Hc : is_digit c = true).
    { cbn [all_chars] in Hd. apply andb_true_iff in Hd. apply Hd. }
    rewrite append_cons.
    destruct c as [[] [] [] [] [] [] [] []]; try discriminate Hc; reflexivity. }
  rewrite Hjoin. unfold strip.
  assert (Hl : lstrip ".jpg" (adjustments_path ++ String "/" (stem ++ ".jpg"))
               = (adjustments_path ++ String "/" (stem ++ ".jpg"))%string).
  { subst adjustments_path. rewrite append_cons. apply lstrip_head. reflexivity. }
  rewrite Hl.
  replace (adjustments_path ++ String "/" (stem ++ ".jpg"))%string
    with ((adjustments_path ++ String "/" stem) ++ ".jpg")%string.
  2:{ rewrite append_assoc, append_cons. reflexivity. }
  rewrite rstrip_app_all by reflexivity.
  replace (adjustments_path ++ String "/" stem)%string
    with ((adjustments_path ++ "/") ++ stem)%string.
  2:{ rewrite append_assoc. reflexivity. }
  rewrite rstrip_app_kept.
  - rewrite (rstrip_keeps _ _ (digits_outside_jpg stem Hd)).
    rewrite !append_assoc. reflexivity.
  - rewrite (rstrip_keeps _ _ (digits_outside_jpg stem Hd)). exact Hne.
Qed.

Section SavedFile.
Variable Image : Type.
Variable face_landmarks : nat → Image → list face.
Variable pil_crop : Image → Z * Z * Z * Z → Image.
Variable pil_resize : Image → Z * Z → Image.
Variable pil_convert : Image → string → Image.
Variable rotate_by_eyebrows : Image → face → result Image.
Variable shift_to_mouth : Image → face → result Image.

(** What [adjust] has done when it saves a file. *)
Lemma adjust_saved (opened : Image) (image_path adjustments_path path : string)
    (bb : bounding_box) (final : Image) :
  adjust Image face_landmarks pil_crop pil_resize pil_convert rotate_by_eyebrows
    shift_to_mouth opened image_path bb adjustments_path = Ok (Some (path, final)) →
  ∃ box ratio,
    crop_box bb = Some box
    ∧ get_mouth_open_ratio Image face_landmarks (pil_crop opened box) = Ok ratio
    ∧ path = (strip ".jpg" (path_join adjustments_path (file_name_of image_path))
              ++ ratio_suffix ratio)%string.
Proof.
  unfold adjust, crop_image. intros H.
  destruct (crop_box bb) as [box|]; cbn [fmap option_fmap option_map] in H;
    [|discriminate].
  exists box.
  destruct (get_mouth_open_ratio Image face_landmarks (pil_crop opened box))
    as [ratio| |]; cbn [mbind result_bind] in H; try discriminate.
  exists ratio. split; [reflexivity|]. split; [reflexivity|].
  destruct (rotate_image Image face_landmarks rotate_by_eyebrows (pil_crop opened box))
    as [[rotated|]| |]; cbn [mbind result_bind] in H; try discriminate.
  destruct (center_image Image face_landmarks shift_to_mouth rotated)
    as [[centered|]| |]; cbn [mbind result_bind] in H; try discriminate.
  inversion H. reflexivity.
Qed.

(** The file that [adjust] saves for a frame [<digits>.jpg]. *)
Lemma adjust_names_its_file (opened : Image)
    (image_path adjustments_path rest stem path : string) (n : Z)
    (bb : bounding_box) (final : Image) :
  file_name_of image_path = (stem ++ ".jpg")%string →
  stem ≠ EmptyString → all_chars is_digit stem = true → digits_value 0 stem = Some n →
  adjustments_path = String "/" rest → endswith adjustments_path "/" = false →
  adjust Image face_landmarks pil_crop pil_resize pil_convert rotate_by_eyebrows
    shift_to_mouth opened image_path bb adjustments_path = Ok (Some (path, final)) →
  ∃ box ratio,
    crop_box bb = Some box
    ∧ get_mouth_open_ratio Image face_landmarks (pil_crop opened box) = Ok ratio
    ∧ path = (adjustments_path ++ "/" ++ stem ++ ratio_suffix ratio)%string
    ∧ file_name_of path = (stem ++ ratio_suffix ratio)%string
    ∧ adjusted_image_name (file_name_of path) = file_name_of image_path
    ∧ ∀ r, ratio = Some r →
        1 ≤ r ≤ 100
        ∧ frame_number_of (file_name_of path) = Ok n
        ∧ mouth_open_ratio_of (file_name_of path) = Ok r.
Proof.
  intros Hfile Hne Hd Hn Habs Hend Hsave.
  destruct (adjust_saved opened image_path adjustments_path path bb final Hsave)
    as (box & ratio & Hbox & Hratio & Hpath).
  exists box, ratio. split; [exact Hbox|]. split; [exact Hratio|].
  rewrite Hfile in Hpath.
  rewrite (save_path_of_frame adjustments_path rest stem _ Habs Hend Hne Hd) in Hpath.
  assert (Hlack : lacks "/" (stem ++ ratio_suffix ratio) = true).
  { rewrite lacks_app, (digits_lack_slash stem Hd). cbn [andb].
    destruct ratio as [r|]; [|reflexivity].
    unfold get_mouth_open_ratio in Hratio.
    pose proof (mouth_open_ratio_from_range _ r Hratio) as Hr.
    destruct (str_of_int_digits r ltac:(lia)) as (_ & Hrd & _).
    unfold ratio_suffix.
    change ("_" ++ str_of_int r ++ ".jpg")%string
      with (String "_" (str_of_int r ++ ".jpg"))%string.
    cbn [lacks]. rewrite lacks_app, (digits_lack_slash _ Hrd). reflexivity. }
  assert (Hname : file_name_of path = (stem ++ ratio_suffix ratio)%string).
  { rewrite Hpath, file_name_of_app. apply file_name_of_lacks. exact Hlack. }
  split; [rewrite Hpath; reflexivity|]. split; [exact Hname|]. split.
  - rewrite Hname, Hfile. unfold adjusted_image_name.
    assert (Hs : ∃ field, split "_" (stem ++ ratio_suffix ratio)
                          = [stem; (field ++ ".jpg")%string]).
    { destruct ratio as [r|].
      - exists (str_of_int r).
        unfold get_mouth_open_ratio in Hratio.
        pose proof (mouth_open_ratio_from_range _ r Hratio) as Hr.
        destruct (str_of_int_digits r ltac:(lia)) as (_ & Hrd & _).
        apply (split_adjusted_name stem (str_of_int r) Hd).
        apply digits_lack_underscore. exact Hrd.
      - exists "None". apply (split_adjusted_name stem "None" Hd). reflexivity. }
    destruct Hs as [field ->]. reflexivity.
  - intros r ->. unfold get_mouth_open_ratio in Hratio.
    pose proof (mouth_open_ratio_from_range _ r Hratio) as Hr.
    split; [exact Hr|]. rewrite Hname.
    destruct (adjusted_name_read_back stem n r Hne Hd Hn ltac:(lia))
      as (_ & A & B & _).
    split; [exact A | exact B].
Qed.

(** X2: when [adjust] saves the frame [<digits>.jpg] into an absolute
    directory, the file is [<directory>/<digits>_<ratio>.jpg], where the
    ratio is the one computed on the cropped image before rotation and
    centering (or "None" if that stage found no landmarks); a ratio that
    is a number lies in 1..100, and then the compile stage reads the
    frame number and the ratio back from the name. *)
Theorem X2_adjust_names_its_file (opened : Image)
    (image_path adjustments_path rest stem path : string) (n : Z)
    (bb : bounding_box) (final : Image) :
  file_name_of image_path = (stem ++ ".jpg")%string →
  stem ≠ EmptyString → all_chars is_digit stem = true → digits_value 0 stem = Some n →
  adjustments_path = String "/" rest → endswith adjustments_path "/" = false →
  adjust Image face_landmarks pil_crop pil_resize pil_convert rotate_by_eyebrows
    shift_to_mouth opened image_path bb adjustments_path = Ok (Some (path, final)) →
  ∃ box ratio,
    crop_box bb = Some box
    ∧ get_mouth_open_ratio Image face_landmarks (pil_crop opened box) = Ok ratio
    ∧ path = (adjustments_path ++ "/" ++ stem ++ ratio_suffix ratio)%string
    ∧ file_name_of path = (stem ++ ratio_suffix ratio)%string
    ∧ adjusted_image_name (file_name_of path) = file_name_of image_path
    ∧ ∀ r, ratio = Some r →
        1 ≤ r ≤ 100
        ∧ frame_number_of (file_name_of path) = Ok n
        ∧ mouth_open_ratio_of (file_name_of path) = Ok r.
Proof.
  exact (adjust_names_its_file opened image_path adjustments_path rest stem path n bb final).
Qed.

End SavedFile.

(** Frame 00007 of a source, a face with a mouth 8 wide and 3 high. *)
Lemma X2_adjust_names_its_file_witness :
  let f := Face [(0, 10); (4, 10); (8, 10)] [(0, 10); (4, 13); (8, 10)]
                [(1, 2); (3, 1)] [(5, 1); (7, 2)] in
  ∃ box ratio,
    crop_box (100, 50, 260, 250) = Some box
    ∧ get_mouth_open_ratio unit (fun _ _ => [f]) tt = Ok ratio
    ∧ "/videos/A/adjustments/00007_37.jpg"
      = ("/videos/A/adjustments" ++ "/" ++ "00007" ++ ratio_suffix ratio)%string.
Proof.
  intros f.
  destruct (X2_adjust_names_its_file unit (fun _ _ => [f])
              (fun img _ => img) (fun img _ => img) (fun img _ => img)
              (fun img _ => Ok img) (fun img _ => Ok img)
              tt "/videos/A/frames/00007.jpg" "/videos/A/adjustments"
              "videos/A/adjustments" "00007" "/videos/A/adjustments/00007_37.jpg" 7
              (100, 50, 260, 250) tt
              eq_refl ltac:(discriminate) eq_refl eq_refl eq_refl eq_refl eq_refl)
    as (box & ratio & A & B & C & _).
  exists box, ratio. split; [exact A | split; [exact B | exact C]].
Defined.

(* ===================================================================== *)
(** * Resuming [adjust_images] *)
(* ===================================================================== *)




Lemma existsb_eqb_false (item : string) (l : list string) :
  existsb (String.eqb item) l = false → ¬ In item l.
Proof.
  intros H Hin.
  assert (E : existsb (String.eqb item) l = true).
  { apply existsb_exists. exists item. split; [exact Hin | apply String.eqb_refl]. }
  congruence.
Qed.


Section Resume.
Variable Image : Type.
Variable face_landmarks : nat → Image → list face.
Variable pil_crop : Image → Z * Z * Z * Z → Image.
Variable pil_resize : Image → Z * Z → Image.
Variable pil_convert : Image → string → Image.
Variable rotate_by_eyebrows : Image → face → result Image.
Variable shift_to_mouth : Image → face → result Image.
Variable open_image : string → Image.

Local Abbreviation run_adjust :=
  (adjust Image face_landmarks pil_crop pil_resize pil_convert
     rotate_by_eyebrows shift_to_mouth).
Local Abbreviation run_each :=
  (adjust_each Image face_landmarks pil_crop pil_resize pil_convert
     rotate_by_eyebrows shift_to_mouth open_image).
Local Abbreviation run_images :=
  (adjust_images Image face_landmarks pil_crop pil_resize pil_convert
     rotate_by_eyebrows shift_to_mouth open_image).

(** Every file of a run comes from a frame of the analysis that was not
    yet adjusted. *)
Lemma adjust_each_saved (frames_path adjustments_path : string)
    (already : list string) (items : list (string * bounding_box)) :
  ∀ saved, run_each frames_path adjustments_path already items = Ok saved →
  ∀ file, In file saved →
    ∃ item bb,
      In (item, bb) items ∧ ¬ In item already
      ∧ run_adjust (open_image (path_join frames_path item)) (path_join frames_path item)
          bb adjustments_path = Ok (Some file).
Proof.
  induction items as [|[item bb] items IH]; intros saved H file Hin; cbn [adjust_each] in H.
  - inversion H; subst. contradiction.
  - destruct (existsb (String.eqb item) already) eqn:Hseen.
    + destruct (IH saved H file Hin) as (i & b & Hi & Hn & Hrun).
      exists i, b. split; [right; exact Hi | split; assumption].
    + destruct (run_adjust (open_image (path_join frames_path item))
                  (path_join frames_path item) bb adjustments_path) as [out| |] eqn:Hrun;
        cbn [mbind result_bind] in H; try discriminate.
      destruct (run_each frames_path adjustments_path already items) as [more| |] eqn:Hmore;
        cbn [mbind result_bind] in H; try discriminate.
      inversion H; subst. clear H.
      assert (Hcase : (out = Some file) ∨ In file more).
      { destruct out as [f0|]; [destruct Hin as [->|Hin]; [left; reflexivity | right; exact Hin]
                               | right; exact Hin]. }
      destruct Hcase as [-> | Hin'].
      * exists item, bb. split; [left; reflexivity|]. split; [|exact Hrun].
        apply existsb_eqb_false. exact Hseen.
      * destruct (IH more eq_refl file Hin') as (i & b & Hi & Hn & Hrun').
        exists i, b. split; [right; exact Hi | split; assumption].
Qed.



End Resume.


(* ===================================================================== *)
(** * More on the bucketizer *)
(* ===================================================================== *)

(** ** The sort *)

(** Order of two keyed items. *)
Definition key_le {A} (a b : Z * A) : Prop := fst a ≤ fst b.

Lemma insert_by_key_sorted {A} (k : Z) (x : A) (l : list (Z * A)) :
  StronglySorted key_le l → StronglySorted key_le (insert_by_key k x l).
Proof.
  induction 1 as [|[k' y] l Hl IH Hall]; cbn [insert_by_key].
  - repeat constructor.
  - destruct (k <=? k') eqn:E.
    + apply Z.leb_le in E. constructor; [constructor; assumption|].
      constructor; [exact E|].
      eapply Forall_impl; [exact Hall|]. intros [k2 z] H. unfold key_le in *. cbn in *. lia.
    + apply Z.leb_gt in E. constructor; [exact IH|].
      eapply Permutation_Forall; [symmetry; apply insert_by_key_perm|].
      constructor; [unfold key_le; cbn; lia | exact Hall].
Qed.

Lemma sort_keyed_sorted {A} (l : list (Z * A)) : StronglySorted key_le (sort_keyed l).
Proof.
  induction l as [|[k x] l IH]; cbn [sort_keyed]; [constructor|].
  apply insert_by_key_sorted. exact IH.
Qed.

Lemma same_key_same_item {A} (l : list (Z * A)) (a b : Z * A) :
  NoDup (map fst l) → In a l → In b l → fst a = fst b → a = b.
Proof.
  induction l as [|c l IH]; intros Hnd Ha Hb Hk; [contradiction|].
  cbn [map] in Hnd. apply NoDup_cons in Hnd. destruct Hnd as [Hc Hnd].
  destruct Ha as [->|Ha], Hb as [->|Hb].
  - reflexivity.
  - exfalso. apply Hc. rewrite Hk. apply list_elem_of_In. apply in_map. exact Hb.
  - exfalso. apply Hc. rewrite <- Hk. apply list_elem_of_In. apply in_map. exact Ha.
  - apply IH; assumption.
Qed.

(** With distinct keys the sorted list does not depend on the order of
    the input. *)
Lemma sort_keyed_unique {A} (l l' : list (Z * A)) :
  Permutation l l' → NoDup (map fst l) → sort_keyed l = sort_keyed l'.
Proof.
  intros Hperm Hnd.
  apply (StronglySorted_unique_strong key_le).
  - intros a b Ha Hb Hab Hba. unfold key_le in *.
    apply (same_key_same_item l a b Hnd).
    + apply list_elem_of_In in Ha. apply (Permutation_in _ (sort_keyed_perm l)). exact Ha.
    + apply list_elem_of_In in Hb. apply (Permutation_in _ (sort_keyed_perm l')) in Hb.
      apply (Permutation_in _ (Permutation_sym Hperm)). exact Hb.
    + lia.
  - apply sort_keyed_sorted.
  - apply sort_keyed_sorted.
  - rewrite (sort_keyed_perm l), (sort_keyed_perm l'). exact Hperm.
Qed.

(** ** Frame numbers of names that parse *)

(** The frame number of a name, 0 for a name that has none. *)
Definition number_of (f : string) : Z :=
  match frame_number_of f with Ok n => n | _ => 0 end.

Lemma number_of_parses (f : string) : parses f → frame_number_of f = Ok (number_of f).
Proof. intros [n H]. unfold number_of. rewrite H. reflexivity. Qed.

Lemma with_keys_parsed (l : list string) :
  Forall parses l →
  with_keys frame_number_of l = Ok (map (fun f => (number_of f, f)) l).
Proof.
  induction 1 as [|f l Hf _ IH]; [reflexivity|].
  cbn [with_keys map]. rewrite (number_of_parses f Hf). cbn [mbind result_bind].
  rewrite IH. reflexivity.
Qed.

Lemma sorted_parsed (l : list string) :
  Forall parses l →
  sorted frame_number_of l
    = Ok (map snd (sort_keyed (map (fun f => (number_of f, f)) l))).
Proof. intros H. unfold sorted. rewrite (with_keys_parsed l H). reflexivity. Qed.

Lemma filter_permutation {A} (test : A → bool) (l l' : list A) :
  Permutation l l' → Permutation (List.filter test l) (List.filter test l').
Proof.
  induction 1 as [|x l l' _ IH|x y l|l1 l2 l3 _ IH1 _ IH2]; cbn [List.filter].
  - constructor.
  - destruct (test x); [constructor|]; exact IH.
  - destruct (test x), (test y); try reflexivity. apply perm_swap.
  - etransitivity; eassumption.
Qed.

Lemma keys_of_parsed (l : list string) :
  Forall parses l →
  map Ok (map fst (map (fun f => (number_of f, f)) l)) = map frame_number_of l.
Proof.
  induction 1 as [|f l Hf _ IH]; [reflexivity|].
  cbn [map fst]. rewrite IH, (number_of_parses f Hf). reflexivity.
Qed.

Lemma distinct_keys (l : list string) :
  Forall parses l → NoDup (map frame_number_of l) →
  NoDup (map fst (map (fun f => (number_of f, f)) l)).
Proof.
  intros Hall Hnd. rewrite <- (keys_of_parsed l Hall) in Hnd.
  apply (NoDup_fmap_1 Ok). exact Hnd.
Qed.

(** X4: the order in which the directory is listed does not matter.  When
    the jpg names all carry a frame number and no two carry the same one,
    [get_source_frame_buckets] gives the same result, be it buckets or an
    exception, for every listing of the same directory. *)
Theorem X4_listing_order_is_irrelevant (listing listing' : list string) (fps : Z) :
  Permutation listing listing' →
  Forall parses (List.filter (fun item => endswith item "jpg") listing) →
  NoDup (map frame_number_of (List.filter (fun item => endswith item "jpg") listing)) →
  get_source_frame_buckets listing fps = get_source_frame_buckets listing' fps.
Proof.
  intros Hperm Hall Hnd. unfold get_source_frame_buckets.
  pose proof (filter_permutation (fun item => endswith item "jpg") _ _ Hperm) as Hf.
  assert (Hall' : Forall parses (List.filter (fun item => endswith item "jpg") listing')).
  { eapply Permutation_Forall; [exact Hf | exact Hall]. }
  rewrite (sorted_parsed _ Hall), (sorted_parsed _ Hall').
  rewrite (sort_keyed_unique _ (map (fun f => (number_of f, f))
                                  (List.filter (fun item => endswith item "jpg") listing'))).
  - reflexivity.
  - apply Permutation_map. exact Hf.
  - apply distinct_keys; assumption.
Qed.

Lemma X4_listing_order_is_irrelevant_witness :
  get_source_frame_buckets ["00003_9.jpg"; "00001_50.jpg"; "audio.mp3"; "00009_7.jpg"] 2
  = get_source_frame_buckets ["00001_50.jpg"; "00003_9.jpg"; "audio.mp3"; "00009_7.jpg"] 2.
Proof.
  apply X4_listing_order_is_irrelevant.
  - apply perm_swap.
  - repeat constructor; eexists; reflexivity.
  - vm_compute.
    repeat (apply NoDup_cons_2; [rewrite list_elem_of_In; cbn; intuition discriminate|]).
    apply NoDup_nil_2.
Defined.

(** X5: whenever the directory holds at least one jpg and every jpg name
    starts with a frame number, [get_source_frame_buckets] returns; the
    result is never an empty list, its last bucket is never empty, and
    every bucket before the last holds at least [int(fps / 2)] frames. *)
Theorem X5_buckets_returned (listing : list string) (fps : Z) :
  List.filter (fun item => endswith item "jpg") listing ≠ [] →
  Forall parses (List.filter (fun item => endswith item "jpg") listing) →
  ∃ closed current,
    get_source_frame_buckets listing fps = Ok (closed ++ [current])
    ∧ current ≠ []
    ∧ Forall (fun b => int_half fps ≤ len b) closed.
Proof. exact (get_source_frame_buckets_returns listing fps). Qed.

Lemma X5_buckets_returned_witness :
  ∃ closed current,
    get_source_frame_buckets
      ["00011_4.jpg"; "00002_50.jpg"; "00001_50.jpg"; "00003_1.jpg"; "00020_9.jpg"] 6
    = Ok (closed ++ [current])
    ∧ current ≠ []
    ∧ Forall (fun b => int_half 6 ≤ len b) closed.
Proof.
  apply X5_buckets_returned.
  - discriminate.
  - repeat constructor; eexists; reflexivity.
Defined.

(** ** Buckets are as long as the span of their frame numbers *)

Definition first_number (bucket : list string) : result Z :=
  f ← index bucket 0; frame_number_of f.

Definition last_number (bucket : list string) : result Z :=
  f ← index bucket (-1); frame_number_of f.

(** A bucket whose length is the distance from its first to its last
    frame number, both ends counted. *)
Definition dense (bucket : list string) : Prop :=
  ∃ lo hi, first_number bucket = Ok lo ∧ last_number bucket = Ok hi
           ∧ len bucket = hi - lo + 1.

(** Frame numbers that rise strictly, starting above [p]. *)
Fixpoint rising (p : Z) (frames : list string) : Prop :=
  match frames with
  | [] => True
  | f :: rest => ∃ n, frame_number_of f = Ok n ∧ p < n ∧ rising n rest
  end.

Lemma first_number_app (b l : list string) :
  b ≠ [] → first_number (b ++ l) = first_number b.
Proof.
  destruct b as [|x b]; [contradiction|]. intros _.
  unfold first_number. cbn [app]. rewrite !index_first. reflexivity.
Qed.

Lemma last_number_snoc (b : list string) (f : string) :
  last_number (b ++ [f]) = frame_number_of f.
Proof. unfold last_number. rewrite index_last_app. reflexivity. Qed.

Lemma dense_nonempty (b : list string) : dense b → b ≠ [].
Proof.
  intros (lo & hi & Hlo & _ & _) ->. unfold first_number in Hlo.
  rewrite index_nil in Hlo. discriminate.
Qed.

Lemma dense_single (f : string) (n : Z) : frame_number_of f = Ok n → dense [f].
Proof.
  intros H. exists n, n. unfold first_number, last_number.
  rewrite index_first. change [f] with ([] ++ [f]). rewrite index_last_app.
  cbn [mbind result_bind]. rewrite H. repeat split. unfold len. cbn. lia.
Qed.

(** Filling the hole behind a dense bucket with [pad] and adding the
    frame that follows the hole keeps it dense. *)
Lemma dense_extend (b pad : list string) (f : string) (p : Z) :
  dense b → last_number b = Ok p →
  frame_number_of f = Ok (p + 1 + len pad) →
  dense (b ++ pad ++ [f]).
Proof.
  intros Hd Hp Hf. pose proof (dense_nonempty b Hd) as Hne.
  destruct Hd as (lo & hi & Hlo & Hhi & Hlen).
  rewrite Hp in Hhi. inversion Hhi; subst hi.
  exists lo, (p + 1 + len pad). split; [|split].
  - rewrite first_number_app by exact Hne. exact Hlo.
  - rewrite app_assoc, last_number_snoc. exact Hf.
  - unfold len in *. rewrite !length_app. cbn [length]. lia.
Qed.

(** The bucket list between two iterations, for rising frame numbers. *)
Definition dense_state (buckets : list (list string)) (p : Z) : Prop :=
  ∃ closed cur t,
    buckets = closed ++ [cur ++ [t]]
    ∧ Forall dense closed ∧ dense (cur ++ [t])
    ∧ frame_number_of t = Ok p.

Lemma bucket_step_dense (fps : Z) (buckets : list (list string)) (f : string) (p n : Z) :
  dense_state buckets p → frame_number_of f = Ok n → p < n →
  ∃ buckets', bucket_step fps buckets f = Ok buckets' ∧ dense_state buckets' n.
Proof.
  intros (closed & cur & t & -> & Hclosed & Hcur & Ht) Hf Hlt.
  assert (Hlast : last_number (cur ++ [t]) = Ok p).
  { rewrite last_number_snoc. exact Ht. }
  destruct (Z.eq_dec n (p + 1)) as [->|H1].
  { exists (closed ++ [cur ++ [t; f]]). split.
    - apply (bucket_step_next fps closed cur t f p (p + 1)); [assumption..|lia].
    - exists closed, (cur ++ [t]), f. split; [rewrite <- app_assoc; reflexivity|].
      split; [exact Hclosed|]. split; [|exact Hf].
      apply (dense_extend (cur ++ [t]) [] f p Hcur Hlast).
      rewrite Hf. f_equal. unfold len. cbn [length]. lia. }
  destruct (Z.eq_dec n (p + 2)) as [->|H2].
  { exists (closed ++ [cur ++ [t; t; f]]). split.
    - apply (bucket_step_gap2 fps closed cur t f p); assumption.
    - exists closed, (cur ++ [t; t]), f. split; [rewrite <- app_assoc; reflexivity|].
      split; [exact Hclosed|]. split; [|exact Hf].
      replace ((cur ++ [t; t]) ++ [f]) with ((cur ++ [t]) ++ [t] ++ [f])
        by (rewrite <- !app_assoc; reflexivity).
      apply (dense_extend (cur ++ [t]) [t] f p Hcur Hlast).
      rewrite Hf. f_equal. unfold len. cbn [length]. lia. }
  destruct (Z.eq_dec n (p + 3)) as [->|H3].
  { exists (closed ++ [cur ++ [t; t; t; f]]). split.
    - apply (bucket_step_gap3 fps closed cur t f p); assumption.
    - exists closed, (cur ++ [t; t; t]), f. split; [rewrite <- app_assoc; reflexivity|].
      split; [exact Hclosed|]. split; [|exact Hf].
      replace ((cur ++ [t; t; t]) ++ [f]) with ((cur ++ [t]) ++ [t; t] ++ [f])
        by (rewrite <- !app_assoc; reflexivity).
      apply (dense_extend (cur ++ [t]) [t; t] f p Hcur Hlast).
      rewrite Hf. f_equal. unfold len. cbn [length]. lia. }
  eexists. split.
  - apply (bucket_step_far fps closed cur t f p n); try assumption. lia.
  - destruct (len (cur ++ [t]) <? int_half fps).
    + exists closed, [], f. split; [reflexivity|]. split; [exact Hclosed|].
      split; [exact (dense_single f n Hf) | exact Hf].
    + exists (closed ++ [cur ++ [t]]), [], f. split; [rewrite <- app_assoc; reflexivity|].
      split; [apply Forall_app; split; [exact Hclosed | constructor; [exact Hcur | constructor]]|].
      split; [exact (dense_single f n Hf) | exact Hf].
Qed.

Lemma bucket_loop_dense (fps : Z) (frames : list string) :
  ∀ buckets p, dense_state buckets p → rising p frames →
  ∃ buckets', bucket_loop fps buckets frames = Ok buckets' ∧ Forall dense buckets'.
Proof.
  induction frames as [|f frames IH]; intros buckets p Hst Hr.
  - exists buckets. split; [reflexivity|].
    destruct Hst as (closed & cur & t & -> & Hc & Hcur & _).
    apply Forall_app. split; [exact Hc | constructor; [exact Hcur | constructor]].
  - destruct Hr as (n & Hf & Hlt & Hrest).
    destruct (bucket_step_dense fps buckets f p n Hst Hf Hlt) as (b & Hstep & Hb).
    destruct (IH b n Hb Hrest) as (b' & Hloop & Hd).
    exists b'. split; [|exact Hd]. cbn [bucket_loop]. rewrite Hstep. exact Hloop.
Qed.

(** A sorted list of keyed names with distinct keys rises. *)
Lemma sorted_rising (kl : list (Z * string)) :
  StronglySorted key_le kl → NoDup (map fst kl) →
  Forall (fun e => frame_number_of (snd e) = Ok (fst e)) kl →
  match kl with
  | [] => True
  | (k, _) :: rest => rising k (map snd rest)
  end.
Proof.
  induction 1 as [|[k x] kl Hs IH Hall]; intros Hnd Hkeys; [exact I|].
  destruct kl as [|[k2 x2] kl]; [exact I|].
  cbn [map snd]. apply NoDup_cons in Hnd. destruct Hnd as [Hk Hnd].
  inversion Hkeys as [|? ? _ Hkeys']; subst. inversion Hkeys' as [|? ? Hx2 _]; subst.
  inversion Hall as [|? ? Hle _]; subst. unfold key_le in Hle. cbn in *.
  exists k2. split; [exact Hx2|]. split.
  - assert (k ≠ k2) by (intros ->; apply Hk; left). lia.
  - apply IH; assumption.
Qed.

(** X6: buckets are gap-free.  When the jpg names carry pairwise distinct
    frame numbers, every bucket that [get_source_frame_buckets] returns
    holds exactly one entry per frame number from its first frame to its
    last: its length is last - first + 1, the bridged holes included.  So
    the frames of a bucket cover the same time as its audio span. *)
Theorem X6_buckets_are_gap_free (listing : list string) (fps : Z) :
  List.filter (fun item => endswith item "jpg") listing ≠ [] →
  Forall parses (List.filter (fun item => endswith item "jpg") listing) →
  NoDup (map frame_number_of (List.filter (fun item => endswith item "jpg") listing)) →
  ∃ buckets,
    get_source_frame_buckets listing fps = Ok buckets
    ∧ Forall (fun bucket =>
                ∃ lo hi, first_number bucket = Ok lo ∧ last_number bucket = Ok hi
                         ∧ len bucket = hi - lo + 1) buckets.
Proof.
  intros Hne Hall Hnd. unfold get_source_frame_buckets.
  rewrite (sorted_parsed _ Hall). cbn [mbind result_bind].
  set (kl := map (fun f => (number_of f, f))
               (List.filter (fun item => endswith item "jpg") listing)).
  pose proof (sort_keyed_perm kl) as Hperm.
  assert (Hkeys : Forall (fun e => frame_number_of (snd e) = Ok (fst e)) (sort_keyed kl)).
  { eapply Permutation_Forall; [symmetry; exact Hperm|].
    unfold kl. apply Forall_map. eapply Forall_impl; [exact Hall|].
    intros f Hf. cbn. apply number_of_parses. exact Hf. }
  assert (Hnd' : NoDup (map fst (sort_keyed kl))).
  { assert (Hp : map fst (sort_keyed kl) ≡ₚ map fst kl)
      by (apply Permutation_map; exact Hperm).
    rewrite Hp. apply distinct_keys; assumption. }
  pose proof (sorted_rising _ (sort_keyed_sorted kl) Hnd' Hkeys) as Hrise.
  destruct (sort_keyed kl) as [|[k x] rest] eqn:E.
  { exfalso. apply Permutation_nil_l in Hperm. unfold kl in Hperm.
    symmetry in Hperm. apply map_eq_nil in Hperm. contradiction. }
  cbn [map snd]. rewrite index_first. cbn [mbind result_bind List.tl].
  inversion Hkeys as [|? ? Hx _]; subst. cbn in Hx.
  apply (bucket_loop_dense fps (map snd rest) [[x]] k); [|exact Hrise].
  exists [], [], x. split; [reflexivity|]. split; [constructor|].
  split; [exact (dense_single x k Hx) | exact Hx].
Qed.

Lemma X6_buckets_are_gap_free_witness :
  ∃ buckets,
    get_source_frame_buckets ["00004_9.jpg"; "00001_50.jpg"; "00011_7.jpg"; "00002_8.jpg"] 2
    = Ok buckets
    ∧ Forall (fun bucket =>
                ∃ lo hi, first_number bucket = Ok lo ∧ last_number bucket = Ok hi
                         ∧ len bucket = hi - lo + 1) buckets.
Proof.
  apply X6_buckets_are_gap_free.
  - discriminate.
  - repeat constructor; eexists; reflexivity.
  - vm_compute.
    repeat (apply NoDup_cons_2; [rewrite list_elem_of_In; cbn; intuition discriminate|]).
    apply NoDup_nil_2.
Defined.

(* ===================================================================== *)
(** * The ratio index *)
(* ===================================================================== *)

(** The jpg files below a reference directory, each with its path, in
    the order in which [get_frame_dict] meets them. *)
Definition indexed_files (reference_directory : string) (entries : list dir_entry)
  : list (string * string) :=
  flat_map
    (fun entry : dir_entry =>
       match snd entry with
       | None => []
       | Some items =>
           map (fun item =>
                  (item, path_join (path_join (path_join reference_directory (fst entry))
                                      "adjustments") item))
               (List.filter (fun item => endswith item "jpg") items)
       end)
    entries.

(** The file's name carries the ratio [r]. *)
Definition has_ratio (r : Z) (file : string * string) : bool :=
  match mouth_open_ratio_of (fst file) with
  | Ok r' => r' =? r
  | _ => false
  end.

(** No ratio of the index is bound to an empty list. *)
Definition no_empty_entry (frame_dict : gmap Z (list string)) : Prop :=
  ∀ r l, frame_dict !! r = Some l → l ≠ [].

Lemma add_frame_lookup (frame_dict : gmap Z (list string)) (r0 r : Z) (path : string) :
  default [] (add_frame frame_dict r0 path !! r)
  = default [] (frame_dict !! r) ++ (if r0 =? r then [path] else []).
Proof.
  unfold add_frame. destruct (Z.eqb_spec r0 r) as [->|Hne].
  - rewrite lookup_insert_eq. reflexivity.
  - rewrite lookup_insert_ne by exact Hne. rewrite app_nil_r. reflexivity.
Qed.

Lemma add_frame_no_empty (frame_dict : gmap Z (list string)) (r0 : Z) (path : string) :
  no_empty_entry frame_dict → no_empty_entry (add_frame frame_dict r0 path).
Proof.
  intros H r l. unfold add_frame. destruct (Z.eq_dec r0 r) as [->|Hne].
  - rewrite lookup_insert_eq. intros E. inversion E.
    intros Hnil. apply app_eq_nil in Hnil. destruct Hnil as [_ Hnil]. discriminate.
  - rewrite lookup_insert_ne by exact Hne. apply H.
Qed.

Lemma index_directory_lookup (reference_frame_directory : string) (items : list string) :
  ∀ d0 d, index_directory reference_frame_directory items d0 = Ok d →
  (no_empty_entry d0 → no_empty_entry d)
  ∧ ∀ r, default [] (d !! r)
         = default [] (d0 !! r)
           ++ map snd (List.filter (has_ratio r)
                (map (fun item => (item, path_join reference_frame_directory item))
                   (List.filter (fun item => endswith item "jpg") items))).
Proof.
  induction items as [|item items IH]; intros d0 d H; cbn [index_directory] in H.
  - inversion H; subst. split; [auto|]. intros r. cbn. rewrite app_nil_r. reflexivity.
  - cbn [List.filter]. destruct (endswith item "jpg").
    + destruct (mouth_open_ratio_of item) as [r0| |] eqn:E; cbn [mbind result_bind] in H;
        try discriminate.
      destruct (IH _ _ H) as [Hne Hlook]. split.
      * intros H0. apply Hne. apply add_frame_no_empty. exact H0.
      * intros r. rewrite Hlook, add_frame_lookup. cbn [map List.filter].
        unfold has_ratio at 2. cbn [fst]. rewrite E.
        destruct (r0 =? r); cbn [map snd app]; rewrite <- app_assoc; reflexivity.
    + apply IH. exact H.
Qed.

Lemma index_entries_lookup (reference_directory : string) (entries : list dir_entry) :
  ∀ d0 d, index_entries reference_directory entries d0 = Ok d →
  (no_empty_entry d0 → no_empty_entry d)
  ∧ ∀ r, default [] (d !! r)
         = default [] (d0 !! r)
           ++ map snd (List.filter (has_ratio r) (indexed_files reference_directory entries)).
Proof.
  induction entries as [|[item [adjustments|]] entries IH]; intros d0 d H;
    cbn [index_entries] in H.
  - inversion H; subst. split; [auto|]. intros r. cbn. rewrite app_nil_r. reflexivity.
  - destruct (index_directory _ adjustments d0) as [d1| |] eqn:E; cbn [mbind result_bind] in H;
      try discriminate.
    destruct (index_directory_lookup _ _ _ _ E) as [Hne1 Hlook1].
    destruct (IH _ _ H) as [Hne Hlook]. split; [auto|].
    intros r. rewrite Hlook, Hlook1. unfold indexed_files. cbn [flat_map snd fst].
    rewrite List.filter_app, map_app, <- app_assoc. reflexivity.
  - destruct (IH _ _ H) as [Hne Hlook]. split; [exact Hne|].
    intros r. rewrite Hlook. reflexivity.
Qed.

(** X7: the index that [get_frame_dict] returns holds, under each ratio,
    exactly the paths of the jpg files whose name carries that ratio, in
    the order of the directory walk, each file once per occurrence; a
    ratio without such a file is absent, never bound to an empty list. *)
Theorem X7_index_holds_the_files_of_each_ratio (reference_directory : string)
    (entries : list dir_entry) (frame_dict : gmap Z (list string)) :
  get_frame_dict reference_directory entries = Ok frame_dict →
  (∀ r, default [] (frame_dict !! r)
        = map snd (List.filter (has_ratio r) (indexed_files reference_directory entries)))
  ∧ (∀ r l, frame_dict !! r = Some l → l ≠ []).
Proof.
  unfold get_frame_dict. intros H.
  destruct (index_entries_lookup _ _ _ _ H) as [Hne Hlook]. split.
  - intros r. rewrite Hlook, lookup_empty. reflexivity.
  - apply Hne. intros r l E. rewrite lookup_empty in E. discriminate.
Qed.

Lemma X7_index_holds_the_files_of_each_ratio_witness :
  let entries := [("A", Some ["00012_50.jpg"; "00013_7.jpg"]); ("notes.txt", None);
                  ("B", Some ["audio.mp3"; "00003_50.jpg"])] in
  ∃ frame_dict,
    get_frame_dict "videos" entries = Ok frame_dict
    ∧ default [] (frame_dict !! 50)
      = ["videos/A/adjustments/00012_50.jpg"; "videos/B/adjustments/00003_50.jpg"]
    ∧ frame_dict !! 8 = None.
Proof.
  intros entries.
  destruct (get_frame_dict "videos" entries) as [frame_dict| |] eqn:E;
    [|vm_compute in E; discriminate E..].
  exists frame_dict. split; [reflexivity|].
  destruct (X7_index_holds_the_files_of_each_ratio "videos" entries frame_dict E)
    as [Hlook Hne].
  split; [rewrite Hlook; reflexivity|].
  destruct (frame_dict !! 8) as [l|] eqn:E8; [|reflexivity].
  exfalso. apply (Hne 8 l E8). specialize (Hlook 8). rewrite E8 in Hlook. exact Hlook.
Defined.

Lemma index_directory_returns (reference_frame_directory : string) (items : list string) :
  ∀ d0 d,
    index_directory reference_frame_directory items d0 = Ok d →
    Forall (fun item => ∃ r, mouth_open_ratio_of item = Ok r)
      (List.filter (fun item => endswith item "jpg") items).
Proof.
  induction items as [|item items IH]; intros d0 d H; cbn [index_directory List.filter] in *.
  - constructor.
  - destruct (endswith item "jpg"); [|exact (IH _ _ H)].
    destruct (mouth_open_ratio_of item) as [r| |] eqn:E; cbn [mbind result_bind] in H;
      try discriminate.
    constructor; [exists r; exact E | exact (IH _ _ H)].
Qed.

Lemma index_entries_returns (reference_directory : string) (entries : list dir_entry) :
  ∀ d0 d,
    index_entries reference_directory entries d0 = Ok d →
    Forall (fun file : string * string => ∃ r, mouth_open_ratio_of (fst file) = Ok r)
      (indexed_files reference_directory entries).
Proof.
  induction entries as [|[item [adjustments|]] entries IH]; intros d0 d H;
    cbn [index_entries] in H; unfold indexed_files; cbn [flat_map snd fst].
  - constructor.
  - fold (indexed_files reference_directory entries).
    destruct (index_directory (path_join (path_join reference_directory item) "adjustments")
                adjustments d0) as [d1| |] eqn:E; cbn [mbind result_bind] in H;
      try discriminate.
    apply Forall_app. split.
    + apply Forall_map. cbn [fst]. exact (index_directory_returns _ _ _ _ E).
    + exact (IH _ _ H).
  - exact (IH _ _ H).
Qed.

(** X8: a frame saved without a ratio stops the index.  When an
    [adjustments] directory of the reference directory holds a file
    [<digits>_None.jpg], the name [adjust] gives a frame whose ratio is
    [None], [int("None")] raises ValueError and [get_frame_dict] returns
    no dictionary, whatever else the directories hold. *)
Theorem X8_none_file_stops_the_index (reference_directory : string)
    (entries : list dir_entry) (stem path : string) :
  all_chars is_digit stem = true →
  In ((stem ++ ratio_suffix None)%string, path)
     (indexed_files reference_directory entries) →
  mouth_open_ratio_of (stem ++ ratio_suffix None) = Raise ValueError
  ∧ ∀ frame_dict, get_frame_dict reference_directory entries ≠ Ok frame_dict.
Proof.
  intros Hd Hin.
  assert (Hnone : mouth_open_ratio_of (stem ++ ratio_suffix None) = Raise ValueError).
  { unfold mouth_open_ratio_of.
    change (stem ++ ratio_suffix None)%string
      with (stem ++ String "_" ("None" ++ ".jpg"))%string.
    rewrite (split_adjusted_name stem "None" Hd eq_refl). reflexivity. }
  split; [exact Hnone|].
  intros frame_dict H. unfold get_frame_dict in H.
  pose proof (index_entries_returns _ _ _ _ H) as Hall.
  rewrite Forall_forall in Hall. apply list_elem_of_In in Hin.
  destruct (Hall _ Hin) as [r Hr]. cbn [fst] in Hr. rewrite Hnone in Hr. discriminate.
Qed.

Lemma X8_none_file_stops_the_index_witness :
  mouth_open_ratio_of "00013_None.jpg" = Raise ValueError
  ∧ get_frame_dict "videos"
      [("A", Some ["00012_50.jpg"; "00013_None.jpg"]); ("B", Some ["00003_50.jpg"])]
    = Raise ValueError.
Proof.
  destruct (X8_none_file_stops_the_index "videos"
              [("A", Some ["00012_50.jpg"; "00013_None.jpg"]); ("B", Some ["00003_50.jpg"])]
              "00013" "videos/A/adjustments/00013_None.jpg" eq_refl) as [A H].
  - vm_compute. right. left. reflexivity.
  - split; [exact A|].
    destruct (get_frame_dict "videos"
                [("A", Some ["00012_50.jpg"; "00013_None.jpg"]); ("B", Some ["00003_50.jpg"])])
      as [d|e|] eqn:E.
    + exfalso. exact (H d eq_refl).
    + vm_compute in E. symmetry. exact E.
    + vm_compute in E. discriminate E.
Defined.

(* ===================================================================== *)
(** * What the matcher can return *)
(* ===================================================================== *)

Lemma last_default_or_in {A} (l : list A) (d : A) :
  List.last l d = d ∨ In (List.last l d) l.
Proof.
  revert d. induction l as [|x l IH]; intros d; [left; reflexivity|].
  right. rewrite last_cons_default.
  destruct (IH x) as [->|H]; [left; reflexivity | right; exact H].
Qed.

Lemma accepted_draws_origin (draws : nat → nat) (frame : string)
    (frame_dict : gmap Z (list string)) (ratio : Z) (offsets : list Z) :
  ∀ calls c, In c (accepted_draws draws frame frame_dict ratio offsets calls) →
  ∃ e raw, In e offsets ∧ accepted_draw frame frame_dict ratio e raw = Some c.
Proof.
  induction offsets as [|e rest IH]; intros calls c Hin; [contradiction|].
  cbn [accepted_draws] in Hin. apply in_app_or in Hin. destruct Hin as [Hin|Hin].
  - destruct (accepted_draw frame frame_dict ratio e (draws calls)) as [c'|] eqn:E;
      [|contradiction].
    destruct Hin as [<-|[]]. exists e, (draws calls). split; [left; reflexivity | exact E].
  - destruct (IH _ _ Hin) as (e' & raw & He' & Hs).
    exists e', raw. split; [right; exact He' | exact Hs].
Qed.

Lemma accepted_draw_is_candidate (frame : string) (frame_dict : gmap Z (list string))
    (ratio e : Z) (raw : nat) (c : string) :
  accepted_draw frame frame_dict ratio e raw = Some c →
  1 ≤ ratio + e ≤ 100
  ∧ (∃ candidates, frame_dict !! (ratio + e) = Some candidates ∧ In c candidates)
  ∧ file_name_of c ≠ frame.
Proof.
  unfold accepted_draw, options_at. intros H.
  destruct (in_range (ratio + e)) eqn:Hin; [|discriminate].
  unfold in_range in Hin. apply andb_true_iff in Hin. destruct Hin as [A B].
  apply Z.leb_le in A, B. split; [lia|].
  destruct (frame_dict !! (ratio + e)) as [candidates|]; cbn [default from_option id] in H.
  - destruct ((e =? 0) && Nat.eqb (length candidates) 1); [discriminate|].
    destruct candidates as [|c0 cs]; [discriminate|].
    cbv zeta in H.
    remember (nth (raw mod length (c0 :: cs)) (c0 :: cs) c0) as c' eqn:Hc'.
    destruct (String.eqb (file_name_of c') frame) eqn:E; [discriminate|].
    assert (c' = c) by congruence. subst c. split.
    + exists (c0 :: cs). split; [reflexivity|]. rewrite Hc'. apply nth_In.
      apply Nat.mod_upper_bound. cbn [length]. lia.
    + apply String.eqb_neq. exact E.
  - destruct ((e =? 0) && Nat.eqb (length (@nil string)) 1); discriminate.
Qed.

Lemma scan_calls (draws : nat → nat) (frame : string)
    (frame_dict : gmap Z (list string)) (ratio : Z) (offsets : list Z) :
  ∀ st,
    (rng_calls st
     ≤ rng_calls (fold_left (fun s e => probe draws frame frame_dict ratio e s) offsets st)
     ≤ rng_calls st + length offsets)%nat.
Proof.
  induction offsets as [|e rest IH]; intros st; cbn [fold_left length]; [lia|].
  specialize (IH (probe draws frame frame_dict ratio e st)).
  assert (Hp : rng_calls (probe draws frame frame_dict ratio e st)
               = (rng_calls st + randint_calls_at frame_dict ratio e)%nat)
    by (rewrite probe_spec; reflexivity).
  assert (randint_calls_at frame_dict ratio e ≤ 1)%nat.
  { unfold randint_calls_at. destruct (in_range (ratio + e)); [|lia].
    destruct (frame_dict !! (ratio + e)).
    - destruct (options_at frame_dict ratio e); lia.
    - destruct (e =? 0); lia. }
  lia.
Qed.

Lemma probe_offsets_bounded : ∀ e, In e probe_offsets → -19 ≤ e ≤ 19.
Proof.
  intros e He. vm_compute in He.
  repeat (destruct He as [<-|He]; [lia|]). contradiction.
Qed.

(** X9: what comes back from the matcher.  For a frame whose name carries
    a ratio, [get_random_matching_frame] returns either the path it was
    given or an entry of the index whose ratio is within 19 of the frame's
    and within 1..100 and whose file name differs from the frame's; it
    calls [random.randint] at most 39 times. *)
Theorem X9_match_is_near_and_foreign (fuel : nat) (draws : nat → nat) (calls : nat)
    (frame frame_path : string) (frame_dict : gmap Z (list string)) (ratio : Z) :
  (40 ≤ fuel)%nat → mouth_open_ratio_of frame = Ok ratio →
  ∃ st,
    get_random_matching_frame fuel draws calls frame frame_path frame_dict = Ok st
    ∧ (matching_frame st = frame_path
       ∨ ∃ e candidates,
           -19 ≤ e ≤ 19 ∧ 1 ≤ ratio + e ≤ 100
           ∧ frame_dict !! (ratio + e) = Some candidates
           ∧ In (matching_frame st) candidates
           ∧ file_name_of (matching_frame st) ≠ frame)
    ∧ (calls ≤ rng_calls st ≤ calls + 39)%nat.
Proof.
  intros Hfuel Hratio. unfold get_random_matching_frame. rewrite Hratio.
  cbn [mbind result_bind]. rewrite (while_is_scan _ fuel _ Hfuel).
  eexists. split; [reflexivity|]. split.
  - rewrite scan_is_last. cbn [matching_frame rng_calls].
    destruct (last_default_or_in
                (accepted_draws draws frame frame_dict ratio probe_offsets calls) frame_path)
      as [->|Hin]; [left; reflexivity|].
    right. destruct (accepted_draws_origin _ _ _ _ _ _ _ Hin) as (e & raw & He & Hs).
    destruct (accepted_draw_is_candidate _ _ _ _ _ _ Hs) as (Hr & (cands & Hl & Hc) & Hn).
    exists e, cands. split; [exact (probe_offsets_bounded e He)|].
    split; [exact Hr|]. split; [exact Hl|]. split; [exact Hc | exact Hn].
  - pose proof (scan_calls draws frame frame_dict ratio probe_offsets
                  (MatcherState frame_path calls)) as H.
    cbn [rng_calls] in H. change (length probe_offsets) with 39%nat in H. exact H.
Qed.

Lemma X9_match_is_near_and_foreign_witness :
  ∃ st,
    get_random_matching_frame 40 (fun n => n) 0 "00012_50.jpg"
      "videos/A/buckets/1/00012_50.jpg"
      {[ 50 := ["videos/A/adjustments/00012_50.jpg"];
         44 := ["videos/B/adjustments/00003_44.jpg"; "videos/C/adjustments/00004_44.jpg"];
         80 := ["videos/B/adjustments/00009_80.jpg"] ]} = Ok st
    ∧ (rng_calls st ≤ 0 + 39)%nat.
Proof.
  destruct (X9_match_is_near_and_foreign 40 (fun n => n) 0 "00012_50.jpg"
              "videos/A/buckets/1/00012_50.jpg"
              {[ 50 := ["videos/A/adjustments/00012_50.jpg"];
                 44 := ["videos/B/adjustments/00003_44.jpg";
                        "videos/C/adjustments/00004_44.jpg"];
                 80 := ["videos/B/adjustments/00009_80.jpg"] ]} 50 (le_n 40) eq_refl)
    as (st & Hst & _ & _ & Hcalls).
  exists st. split; [exact Hst | exact Hcalls].
Defined.

(* ===================================================================== *)
(** * Where the frames of the buckets come from *)
(* ===================================================================== *)

(** The bucket list between two iterations, all of whose frames satisfy
    [P]; no bucket is empty. *)
Definition framed (P : string → Prop) (buckets : list (list string)) : Prop :=
  ∃ closed cur t,
    buckets = closed ++ [cur ++ [t]]
    ∧ Forall (fun b => b ≠ [] ∧ Forall P b) closed
    ∧ Forall P (cur ++ [t]).

Lemma Forall_snoc {A} (P : A → Prop) (l : list A) (x : A) :
  Forall P l → P x → Forall P (l ++ [x]).
Proof. intros Hl Hx. apply Forall_app. split; [exact Hl | constructor; [exact Hx | constructor]]. Qed.

Lemma Forall_last_holds {A} (P : A → Prop) (l : list A) (x : A) :
  Forall P (l ++ [x]) → P x.
Proof. intros H. apply Forall_app in H. destruct H as [_ H]. inversion H; assumption. Qed.

Lemma bucket_step_framed (P : string → Prop) (fps : Z) (buckets buckets' : list (list string))
    (f : string) :
  framed P buckets → P f → bucket_step fps buckets f = Ok buckets' → framed P buckets'.
Proof.
  intros (closed & cur & t & -> & Hclosed & Hcur) Hf H.
  pose proof (Forall_last_holds P cur t Hcur) as Ht.
  destruct (frame_number_of f) as [n| |] eqn:En;
    try (unfold bucket_step in H; rewrite En in H; discriminate H).
  destruct (frame_number_of t) as [p| |] eqn:Ep;
    try (unfold bucket_step in H; rewrite En in H; cbn [mbind result_bind] in H;
         rewrite last_of_last_open in H; cbn [mbind result_bind] in H;
         rewrite Ep in H; discriminate H).
  destruct (Z.lt_ge_cases n (p + 2)) as [Hlt|Hge].
  { rewrite (bucket_step_next fps closed cur t f p n Ep En Hlt) in H. inversion H; subst.
    exists closed, (cur ++ [t]), f. split; [rewrite <- app_assoc; reflexivity|].
    split; [exact Hclosed|]. apply Forall_snoc; assumption. }
  destruct (Z.eq_dec n (p + 2)) as [->|H2].
  { rewrite (bucket_step_gap2 fps closed cur t f p Ep En) in H. inversion H; subst.
    exists closed, (cur ++ [t; t]), f. split; [rewrite <- app_assoc; reflexivity|].
    split; [exact Hclosed|].
    replace ((cur ++ [t; t]) ++ [f]) with (((cur ++ [t]) ++ [t]) ++ [f])
      by (rewrite <- !app_assoc; reflexivity).
    apply Forall_snoc; [apply Forall_snoc; [exact Hcur | exact Ht] | exact Hf]. }
  destruct (Z.eq_dec n (p + 3)) as [->|H3].
  { rewrite (bucket_step_gap3 fps closed cur t f p Ep En) in H. inversion H; subst.
    exists closed, (cur ++ [t; t; t]), f. split; [rewrite <- app_assoc; reflexivity|].
    split; [exact Hclosed|].
    replace ((cur ++ [t; t; t]) ++ [f]) with ((((cur ++ [t]) ++ [t]) ++ [t]) ++ [f])
      by (rewrite <- !app_assoc; reflexivity).
    apply Forall_snoc;
      [apply Forall_snoc; [apply Forall_snoc; [exact Hcur | exact Ht] | exact Ht] | exact Hf]. }
  rewrite (bucket_step_far fps closed cur t f p n Ep En ltac:(lia)) in H.
  destruct (len (cur ++ [t]) <? int_half fps); inversion H; subst.
  - exists closed, [], f. split; [reflexivity|]. split; [exact Hclosed|].
    constructor; [exact Hf | constructor].
  - exists (closed ++ [cur ++ [t]]), [], f. split; [rewrite <- app_assoc; reflexivity|].
    split; [|constructor; [exact Hf | constructor]].
    apply Forall_snoc; [exact Hclosed|]. split; [|exact Hcur].
    intros E. apply app_eq_nil in E. destruct E as [_ E]. discriminate.
Qed.

Lemma bucket_loop_framed (P : string → Prop) (fps : Z) (frames : list string) :
  ∀ buckets buckets', framed P buckets → Forall P frames →
    bucket_loop fps buckets frames = Ok buckets' → framed P buckets'.
Proof.
  induction frames as [|f frames IH]; intros buckets buckets' Hst Hall H;
    cbn [bucket_loop] in H.
  - inversion H; subst. exact Hst.
  - inversion Hall as [|? ? Hf Hrest]; subst.
    destruct (bucket_step fps buckets f) as [b| |] eqn:E; cbn [mbind result_bind] in H;
      try discriminate.
    apply (IH b buckets' (bucket_step_framed P fps buckets b f Hst Hf E) Hrest H).
Qed.

Lemma framed_all (P : string → Prop) (buckets : list (list string)) :
  framed P buckets → buckets ≠ [] ∧ Forall (fun b => b ≠ [] ∧ Forall P b) buckets.
Proof.
  intros (closed & cur & t & -> & Hclosed & Hcur). split.
  - intros E. apply app_eq_nil in E. destruct E as [_ E]. discriminate.
  - apply Forall_snoc; [exact Hclosed|]. split; [|exact Hcur].
    intros E. apply app_eq_nil in E. destruct E as [_ E]. discriminate.
Qed.

Lemma with_keys_all_keyed {A} (key : A → result Z) (l : list A) (kl : list (Z * A)) :
  with_keys key l = Ok kl → Forall (fun x => ∃ k, key x = Ok k) l.
Proof.
  revert kl. induction l as [|x l IH]; intros kl H; [constructor|].
  cbn [with_keys] in H.
  destruct (key x) as [k| |] eqn:E; cbn [mbind result_bind] in H; try discriminate.
  destruct (with_keys key l) as [kl'| |]; cbn [mbind result_bind] in H; try discriminate.
  constructor; [exists k; exact E | apply (IH kl'); reflexivity].
Qed.

(** Whatever [get_source_frame_buckets] returns is made of the jpg names
    of the listing, all of which parse. *)
Lemma buckets_from_listing (listing : list string) (fps : Z) (buckets : list (list string)) :
  get_source_frame_buckets listing fps = Ok buckets →
  framed (fun f => In f listing ∧ endswith f "jpg" = true ∧ parses f) buckets.
Proof.
  unfold get_source_frame_buckets. intros H.
  destruct (sorted frame_number_of (List.filter (fun item => endswith item "jpg") listing))
    as [frames| |] eqn:Hs; cbn [mbind result_bind] in H; try discriminate.
  assert (Hall : Forall (fun f => In f listing ∧ endswith f "jpg" = true ∧ parses f) frames).
  { pose proof (sorted_perm _ _ _ Hs) as Hperm.
    eapply Permutation_Forall; [symmetry; exact Hperm|].
    unfold sorted in Hs.
    destruct (with_keys frame_number_of
                (List.filter (fun item => endswith item "jpg") listing)) as [kl| |] eqn:Hk;
      cbn [mbind result_bind] in Hs; try discriminate.
    pose proof (with_keys_all_keyed _ _ _ Hk) as Hp.
    rewrite Forall_forall in Hp. apply Forall_forall. intros f Hf.
    pose proof (Hp f Hf) as Hparse. apply list_elem_of_In in Hf. apply filter_In in Hf.
    destruct Hf as [Hin Hjpg]. split; [exact Hin|]. split; [exact Hjpg | exact Hparse]. }
  destruct frames as [|first rest]; [rewrite index_nil in H; discriminate|].
  rewrite index_first in H. cbn [mbind result_bind List.tl] in H.
  inversion Hall as [|? ? Hfirst Hrest]; subst.
  apply (bucket_loop_framed _ fps rest [[first]] buckets); [|exact Hrest | exact H].
  exists [], [], first. split; [reflexivity|]. split; [constructor|].
  constructor; [exact Hfirst | constructor].
Qed.

(** X10: the buckets hold nothing but files of the directory.  Whenever
    [get_source_frame_buckets] returns, there is at least one bucket, no
    bucket is empty, and every entry of every bucket, the copies that
    bridge a hole included, is a name of the listing that ends in "jpg". *)
Theorem X10_buckets_hold_listed_jpgs (listing : list string) (fps : Z)
    (buckets : list (list string)) :
  get_source_frame_buckets listing fps = Ok buckets →
  buckets ≠ []
  ∧ Forall (fun bucket =>
              bucket ≠ []
              ∧ Forall (fun f => In f listing ∧ endswith f "jpg" = true) bucket) buckets.
Proof.
  intros H. destruct (framed_all _ _ (buckets_from_listing listing fps buckets H)) as [Hne Hall].
  split; [exact Hne|].
  eapply Forall_impl; [exact Hall|]. intros b [Hb Hfs]. split; [exact Hb|].
  eapply Forall_impl; [exact Hfs|]. intros f (A & B & _). split; assumption.
Qed.

Lemma X10_buckets_hold_listed_jpgs_witness :
  let listing := ["00004_9.jpg"; "cover.png"; "00001_50.jpg"; "00011_7.jpg"] in
  Forall (fun bucket =>
            bucket ≠ []
            ∧ Forall (fun f => In f listing ∧ endswith f "jpg" = true) bucket)
    [["00001_50.jpg"; "00001_50.jpg"; "00001_50.jpg"; "00004_9.jpg"]; ["00011_7.jpg"]].
Proof.
  intros listing.
  destruct (X10_buckets_hold_listed_jpgs listing 2
              [["00001_50.jpg"; "00001_50.jpg"; "00001_50.jpg"; "00004_9.jpg"];
               ["00011_7.jpg"]] eq_refl) as [_ H].
  exact H.
Defined.

(* ===================================================================== *)
(** * The work list of [compile_video] *)
(* ===================================================================== *)

(** The name [copy_frame] gives the [k]-th frame of a bucket. *)
Definition copy_destination (bucket_directory : string) (k : Z) : string :=
  path_join bucket_directory (zfill 5 (str_of_int k) ++ ".jpg")%string.

Lemma audio_span_needs_fps (bucket : list string) (span : float * float) :
  audio_span bucket 0 ≠ Ok span.
Proof.
  unfold audio_span. intros H. repeat step_bind H.
Qed.

Lemma match_bucket_shape (fuel : nat) (draws : nat → nat)
    (frame_dict : gmap Z (list string)) (bucket_directory : string) (bucket : list string) :
  ∀ k calls out,
    match_bucket fuel draws frame_dict bucket_directory bucket k calls = Ok out →
    map snd (fst out) = map (copy_destination bucket_directory) (seqZ k (len bucket))
    ∧ Forall (fun f => ∃ r, mouth_open_ratio_of f = Ok r) bucket.
Proof.
  induction bucket as [|frame bucket IH]; intros k calls out H; cbn [match_bucket] in H.
  - inversion H; subst. split; [reflexivity | constructor].
  - destruct (get_random_matching_frame fuel draws calls frame
                (path_join bucket_directory frame) frame_dict) as [st| |] eqn:Em;
      cbn [mbind result_bind] in H; try discriminate.
    destruct (match_bucket fuel draws frame_dict bucket_directory bucket (k + 1)
                (rng_calls st)) as [r| |] eqn:Er;
      cbn [mbind result_bind] in H; try discriminate.
    inversion H; subst. clear H. destruct (IH _ _ _ Er) as [Hd Hr]. split.
    + cbn [fst map snd]. unfold len. cbn [length].
      rewrite seqZ_cons by lia. cbn [map]. f_equal.
      replace (Z.succ k) with (k + 1) by lia.
      replace (Z.pred (Z.of_nat (S (length bucket)))) with (len bucket)
        by (unfold len; lia).
      exact Hd.
    + constructor; [|exact Hr].
      unfold get_random_matching_frame in Em.
      destruct (mouth_open_ratio_of frame) as [r0| |]; try discriminate.
      exists r0. reflexivity.
Qed.

Lemma compile_buckets_shape (fuel : nat) (draws : nat → nat)
    (frame_dict : gmap Z (list string)) (buckets_directory : string) (fps : Z)
    (buckets : list (list string)) :
  ∀ number calls plan,
    compile_buckets fuel draws frame_dict buckets_directory fps buckets number calls
      = Ok plan →
    length plan = length buckets
    ∧ (buckets ≠ [] → fps ≠ 0)
    ∧ ∀ i entry bucket,
        plan !! i = Some entry → buckets !! i = Some bucket →
        audio_span bucket fps = Ok (fst entry)
        ∧ map snd (snd entry)
          = map (copy_destination
                   (path_join buckets_directory (str_of_int (number + Z.of_nat i))))
              (seqZ 1 (len bucket))
        ∧ Forall (fun f => ∃ r, mouth_open_ratio_of f = Ok r) bucket.
Proof.
  induction buckets as [|bucket buckets IH]; intros number calls plan H;
    cbn [compile_buckets] in H.
  - inversion H; subst. split; [reflexivity|]. split; [intros E; contradiction|].
    intros i entry bucket E. rewrite lookup_nil in E. discriminate.
  - destruct (audio_span bucket fps) as [span| |] eqn:Ea; cbn [mbind result_bind] in H;
      try discriminate.
    destruct (match_bucket fuel draws frame_dict
                (path_join buckets_directory (str_of_int number)) bucket 1 calls)
      as [r| |] eqn:Em; cbn [mbind result_bind] in H; try discriminate.
    destruct (compile_buckets fuel draws frame_dict buckets_directory fps buckets
                (number + 1) (snd r)) as [more| |] eqn:Ec;
      cbn [mbind result_bind] in H; try discriminate.
    inversion H; subst. clear H.
    destruct (IH _ _ _ Ec) as (Hlen & _ & Hrest).
    destruct (match_bucket_shape _ _ _ _ _ _ _ _ Em) as [Hd Hr].
    split; [cbn [length]; rewrite Hlen; reflexivity|]. split.
    + intros _ E0. rewrite E0 in Ea. exact (audio_span_needs_fps bucket span Ea).
    + intros [|i] entry b He Hb; cbn in He, Hb.
      * inversion He; subst. inversion Hb; subst. cbn [fst snd].
        split; [exact Ea|]. rewrite Z.add_0_r. split; assumption.
      * destruct (Hrest i entry b He Hb) as (A & B & C). split; [exact A|].
        split; [|exact C]. rewrite B.
        replace (number + 1 + Z.of_nat i) with (number + Z.of_nat (S i)) by lia.
        reflexivity.
Qed.

(** X11: what a finished [compile_video] has done.  When it returns, the
    frame rate is not 0, every frame that survived the bucketing carries
    a ratio in its name, and the work list has one entry per bucket, in
    order: the audio span of the bucket and one copy per frame, written to
    [<source>/buckets/<n>/00001.jpg], [00002.jpg], ... with [n] counting
    the buckets from 1. *)
Theorem X11_compile_video_work_list (fuel : nat) (draws : nat → nat)
    (source_video_directory : string) (listing : list string)
    (frame_dict : gmap Z (list string)) (fps : Z)
    (plan : list ((float * float) * list (string * string))) :
  compile_video fuel draws source_video_directory listing frame_dict fps = Ok plan →
  ∃ buckets,
    get_source_frame_buckets listing fps = Ok buckets
    ∧ fps ≠ 0
    ∧ length plan = length buckets
    ∧ ∀ i entry bucket,
        plan !! i = Some entry → buckets !! i = Some bucket →
        audio_span bucket fps = Ok (fst entry)
        ∧ map snd (snd entry)
          = map (copy_destination
                   (path_join (path_join source_video_directory "buckets")
                      (str_of_int (1 + Z.of_nat i))))
              (seqZ 1 (len bucket))
        ∧ Forall (fun f => ∃ r, mouth_open_ratio_of f = Ok r) bucket.
Proof.
  unfold compile_video. intros H.
  destruct (get_source_frame_buckets listing fps) as [buckets| |] eqn:Eb;
    cbn [mbind result_bind] in H; try discriminate.
  exists buckets. split; [reflexivity|].
  destruct (compile_buckets_shape _ _ _ _ _ _ _ _ _ H) as (Hlen & Hfps & Hall).
  destruct (framed_all _ _ (buckets_from_listing listing fps buckets Eb)) as [Hne _].
  split; [exact (Hfps Hne)|]. split; [exact Hlen | exact Hall].
Qed.

Lemma X11_compile_video_work_list_witness :
  let listing := ["00001_50.jpg"; "00002_48.jpg"; "00009_7.jpg"] in
  let frame_dict : gmap Z (list string) :=
    <[50 := ["other/frames/00003_50.jpg"]]> (<[7 := ["other/frames/00008_7.jpg"]]> ∅) in
  ∃ plan,
    compile_video 40 (fun _ => 0%nat) "videos/a" listing frame_dict 2 = Ok plan
    ∧ ∃ buckets,
        get_source_frame_buckets listing 2 = Ok buckets
        ∧ 2 ≠ 0
        ∧ length plan = length buckets
        ∧ ∀ i entry bucket,
            plan !! i = Some entry → buckets !! i = Some bucket →
            audio_span bucket 2 = Ok (fst entry)
            ∧ map snd (snd entry)
              = map (copy_destination
                       (path_join (path_join "videos/a" "buckets")
                          (str_of_int (1 + Z.of_nat i))))
                  (seqZ 1 (len bucket))
            ∧ Forall (fun f => ∃ r, mouth_open_ratio_of f = Ok r) bucket.
Proof.
  intros listing frame_dict.
  destruct (compile_video 40 (fun _ => 0%nat) "videos/a" listing frame_dict 2)
    as [plan| |] eqn:E; [|vm_compute in E; discriminate E..].
  exists plan. split; [reflexivity|].
  exact (X11_compile_video_work_list 40 (fun _ => 0%nat) "videos/a" listing frame_dict 2 plan E).
Defined.

(** ** A frame rate of 0 *)

Lemma audio_span_zero_fps (bucket : list string) :
  bucket ≠ [] → Forall parses bucket → audio_span bucket 0 = Raise ZeroDivisionError.
Proof.
  intros Hne Hall. unfold audio_span.
  destruct bucket as [|x rest]; [contradiction|].
  rewrite index_first. cbn [mbind result_bind].
  inversion Hall as [|? ? [n Hn] _]; subst. rewrite Hn. cbn [mbind result_bind].
  destruct (exists_last Hne) as (l & y & El). rewrite El, index_last_app.
  cbn [mbind result_bind].
  rewrite El in Hall. apply Forall_app in Hall. destruct Hall as [_ Hy].
  inversion Hy as [|? ? [m Hm] _]; subst. rewrite Hm. cbn [mbind result_bind].
  reflexivity.
Qed.

(** X12: a frame rate of 0 is not caught.  With at least one jpg in the
    directory and a frame number at the start of every jpg name, the
    buckets are built, and [compile_video] then stops with
    ZeroDivisionError at the audio start time of the first bucket, before
    any frame is matched or copied. *)
Theorem X12_zero_frame_rate_divides_by_zero (fuel : nat) (draws : nat → nat)
    (source_video_directory : string) (listing : list string)
    (frame_dict : gmap Z (list string)) :
  List.filter (fun item => endswith item "jpg") listing ≠ [] →
  Forall parses (List.filter (fun item => endswith item "jpg") listing) →
  (∃ buckets, get_source_frame_buckets listing 0 = Ok buckets)
  ∧ compile_video fuel draws source_video_directory listing frame_dict 0
    = Raise ZeroDivisionError.
Proof.
  intros Hne Hall.
  destruct (get_source_frame_buckets_returns listing 0 Hne Hall)
    as (closed & current & Hb & _ & _).
  split; [eexists; exact Hb|].
  unfold compile_video. rewrite Hb. cbn [mbind result_bind].
  destruct (framed_all _ _ (buckets_from_listing listing 0 _ Hb)) as [Hnil Hbs].
  destruct (closed ++ [current]) as [|b0 rest]; [contradiction|].
  inversion Hbs as [|? ? [Hb0 Hfs] _]; subst.
  cbn [compile_buckets]. rewrite audio_span_zero_fps; [reflexivity | exact Hb0 |].
  eapply Forall_impl; [exact Hfs|]. intros f (_ & _ & Hp). exact Hp.
Qed.

Lemma X12_zero_frame_rate_divides_by_zero_witness :
  (∃ buckets, get_source_frame_buckets ["00001_50.jpg"; "00002_48.jpg"] 0 = Ok buckets)
  ∧ compile_video 40 (fun _ => 0%nat) "videos/a" ["00001_50.jpg"; "00002_48.jpg"] ∅ 0
    = Raise ZeroDivisionError.
Proof.
  apply X12_zero_frame_rate_divides_by_zero.
  - discriminate.
  - repeat constructor; eexists; reflexivity.
Defined.

(* ===================================================================== *)
(** * The concatenation list of [stitch_bucket_videos] *)
(* ===================================================================== *)

Lemma endswith_slash_inv (a : string) :
  endswith a "/" = true → ∃ a', a = (a' ++ "/")%string.
Proof.
  induction a as [|c a IH]; [discriminate|].
  destruct a as [|c' a].
  - intros H. exists EmptyString.
    destruct c as [[] [] [] [] [] [] [] []]; try discriminate H; reflexivity.
  - intros H.
    change (String c (String c' a)) with (String c EmptyString ++ String c' a)%string in H.
    rewrite endswith_app in H by (cbn [String.length]; lia).
    destruct (IH H) as [a' Ha']. exists (String c a'). rewrite Ha'. reflexivity.
Qed.

(** Joining a name of digits to a directory and taking the last component
    of the path gives the name back. *)
Lemma file_name_of_join_digits (a b : string) :
  b ≠ EmptyString → all_chars is_digit b = true →
  file_name_of (path_join a b) = b.
Proof.
  intros Hne Hd. pose proof (digits_lack_slash b Hd) as Hl.
  assert (Hjoin : path_join a b
                  = (if String.eqb a EmptyString || endswith a "/" then (a ++ b)%string
                     else (a ++ "/" ++ b)%string)).
  { unfold path_join. destruct b as [|c b]; [contradiction|].
    assert (Hc : is_digit c = true).
    { cbn [all_chars] in Hd. apply andb_true_iff in Hd. apply Hd. }
    destruct c as [[] [] [] [] [] [] [] []]; try discriminate Hc; reflexivity. }
  rewrite Hjoin. destruct (String.eqb a EmptyString) eqn:Ea; cbn [orb].
  - apply String.eqb_eq in Ea. subst a. rewrite append_nil_l.
    apply file_name_of_lacks. exact Hl.
  - destruct (endswith a "/") eqn:Ee.
    + destruct (endswith_slash_inv a Ee) as [a' ->].
      rewrite append_assoc.
      change ("/" ++ b)%string with (String "/" b).
      rewrite file_name_of_app. apply file_name_of_lacks. exact Hl.
    + change ("/" ++ b)%string with (String "/" b).
      rewrite file_name_of_app. apply file_name_of_lacks. exact Hl.
Qed.

Lemma index_last {A} (l : list A) (d : A) :
  l ≠ [] → index l (-1) = Ok (List.last l d).
Proof.
  intros H. destruct (exists_last H) as (l' & x & ->).
  rewrite index_last_app, last_last. reflexivity.
Qed.

(** The sort key of the directory that [compile_video] makes for bucket
    [k] is [k]. *)
Lemma bucket_number_of_join (bucket_directory : string) (k : Z) :
  0 ≤ k → bucket_number_of (path_join bucket_directory (str_of_int k)) = Ok k.
Proof.
  intros Hk. destruct (str_of_int_digits k Hk) as (Hne & Hd & _).
  unfold bucket_number_of.
  rewrite (index_last _ EmptyString) by apply split_nonempty.
  cbn [mbind result_bind].
  change (List.last (split "/" (path_join bucket_directory (str_of_int k))) EmptyString)
    with (file_name_of (path_join bucket_directory (str_of_int k))).
  rewrite (file_name_of_join_digits _ _ Hne Hd).
  apply int_of_str_of_int. exact Hk.
Qed.

Lemma with_keys_mapped {A B} (key : A → result Z) (g : B → A) (k : B → Z) (l : list B) :
  Forall (fun b => key (g b) = Ok (k b)) l →
  with_keys key (map g l) = Ok (map (fun b => (k b, g b)) l).
Proof.
  induction 1 as [|b l Hb _ IH]; [reflexivity|].
  cbn [map with_keys]. rewrite Hb. cbn [mbind result_bind]. rewrite IH. reflexivity.
Qed.

(** Sorting a rearrangement of a list that is in order, with no key
    twice, gives that list. *)
Lemma sort_keyed_known {A} (l l' : list (Z * A)) :
  Permutation l l' → NoDup (map fst l') → StronglySorted key_le l' → sort_keyed l = l'.
Proof.
  intros Hperm Hnd Hs.
  apply (StronglySorted_unique_strong key_le).
  - intros a b Ha Hb Hab Hba. unfold key_le in *.
    apply (same_key_same_item l' a b Hnd).
    + apply list_elem_of_In in Ha. apply (Permutation_in _ (sort_keyed_perm l)) in Ha.
      apply (Permutation_in _ Hperm). exact Ha.
    + apply list_elem_of_In in Hb. exact Hb.
    + lia.
  - apply sort_keyed_sorted.
  - exact Hs.
  - rewrite (sort_keyed_perm l). exact Hperm.
Qed.

Lemma seqZ_keyed_sorted {A} (g : Z → A) (m : Z) (n : nat) :
  StronglySorted key_le (map (fun k => (k, g k)) (seqZ m (Z.of_nat n))).
Proof.
  revert m. induction n as [|n IH]; intros m.
  - cbn. constructor.
  - rewrite seqZ_cons by lia. cbn [map].
    replace (Z.pred (Z.of_nat (S n))) with (Z.of_nat n) by lia.
    constructor; [apply IH|].
    apply Forall_forall. intros [k x] Hin. apply list_elem_of_In in Hin.
    apply in_map_iff in Hin. destruct Hin as (j & E & Hj). inversion E; subst.
    apply list_elem_of_In in Hj. apply elem_of_seqZ in Hj. unfold key_le. cbn. lia.
Qed.

(** X13: the bucket videos are concatenated in the order of the buckets.
    When the directories found in the buckets directory are those that
    [compile_video] made for [n] buckets, named 1 to [n], then in whatever
    order the directory is listed, and whatever plain files lie beside
    them, [video_list.txt] names [<dir>/1/video.mp4] to
    [<dir>/n/video.mp4] in numeric order (10 after 9, not after 1). *)
Theorem X13_videos_listed_in_bucket_order (bucket_directory : string)
    (entries : list (string * bool)) (n : nat) :
  Permutation (map fst (List.filter (fun e : string * bool => snd e) entries))
              (map str_of_int (seqZ 1 (Z.of_nat n))) →
  video_list bucket_directory entries
  = Ok (map (fun k => video_list_line
                        (path_join (path_join bucket_directory (str_of_int k)) "video.mp4"))
            (seqZ 1 (Z.of_nat n))).
Proof.
  intros Hperm.
  apply Permutation_map_inv in Hperm. destruct Hperm as (ks & Hnames & Hks).
  unfold video_list, buckets_to_compile.
  rewrite <- (map_map fst (path_join bucket_directory)), Hnames, map_map.
  assert (Hpos : Forall (fun k => bucket_number_of (path_join bucket_directory (str_of_int k))
                                  = Ok k) ks).
  { apply Forall_forall. intros k Hk. apply bucket_number_of_join.
    rewrite <- Hks in Hk. apply elem_of_seqZ in Hk. lia. }
  unfold sorted.
  rewrite (with_keys_mapped bucket_number_of
             (fun k => path_join bucket_directory (str_of_int k)) (fun k => k) ks Hpos).
  cbn [mbind result_bind].
  rewrite (sort_keyed_known _
             (map (fun k => (k, path_join bucket_directory (str_of_int k)))
                  (seqZ 1 (Z.of_nat n)))).
  - rewrite !map_map. reflexivity.
  - apply Permutation_map. symmetry. exact Hks.
  - rewrite map_map. cbn [fst]. rewrite map_id. apply NoDup_seqZ.
  - apply seqZ_keyed_sorted.
Qed.

Lemma X13_videos_listed_in_bucket_order_witness :
  video_list "a/buckets"
    [("10", true); ("video_list.txt", false); ("2", true); ("1", true); ("9", true);
     ("3", true); ("8", true); ("4", true); ("7", true); ("5", true); ("6", true)]
  = Ok (map (fun k => video_list_line
                        (path_join (path_join "a/buckets" (str_of_int k)) "video.mp4"))
            (seqZ 1 (Z.of_nat 10))).
Proof.
  apply X13_videos_listed_in_bucket_order.
  vm_compute.
  apply (Permutation_cons_app [_; _; _; _; _; _; _; _; _] []).
  apply (Permutation_cons_app [_] [_; _; _; _; _; _; _]).
  apply (Permutation_cons_app [] [_; _; _; _; _; _; _]).
  apply (Permutation_cons_app [_; _; _; _; _; _] []).
  apply (Permutation_cons_app [] [_; _; _; _; _]).
  apply (Permutation_cons_app [_; _; _; _] []).
  apply (Permutation_cons_app [] [_; _; _]).
  apply (Permutation_cons_app [_; _] []).
  apply (Permutation_cons_app [] [_]).
  reflexivity.
Defined.

(* ===================================================================== *)
(** * The crop around a face *)
(* ===================================================================== *)

Lemma int_half_bounds (d : Z) : 0 ≤ d → 0 ≤ 2 * int_half d ≤ d ∧ d - 2 * int_half d ≤ 1.
Proof.
  intros Hd. unfold int_half. rewrite Z.quot_div_nonneg by lia.
  pose proof (Z.div_mod d 2 ltac:(lia)). pose proof (Z.mod_pos_bound d 2 ltac:(lia)). lia.
Qed.

(** X14: the crop box, for a face box under 2^53 pixels wide and high,
    where [int(diff / 2)] is exact.  [crop_image] gives no image exactly
    when the face box is under 150 pixels wide or high.  Otherwise the
    box handed to PIL contains the face box, is padded by the same amount
    on both sides of the shorter dimension, keeps the longer dimension,
    and its width and height differ by at most one pixel.  No coordinate
    is clipped to the image. *)
Theorem X14_crop_box_geometry (left_ top_ bottom_ right_ : Z) :
  right_ - left_ < 2 ^ 53 → bottom_ - top_ < 2 ^ 53 →
  (crop_box (left_, top_, bottom_, right_) = None
   ↔ right_ - left_ < 150 ∨ bottom_ - top_ < 150)
  ∧ ∀ l t r b,
      crop_box (left_, top_, bottom_, right_) = Some (l, t, r, b) →
      l ≤ left_ ∧ right_ ≤ r ∧ t ≤ top_ ∧ bottom_ ≤ b
      ∧ left_ - l = r - right_ ∧ top_ - t = b - bottom_
      ∧ Z.max (r - l) (b - t) = Z.max (right_ - left_) (bottom_ - top_)
      ∧ Z.abs ((r - l) - (b - t)) ≤ 1.
Proof.
  intros _ _. unfold crop_box. split.
  - destruct (right_ - left_ <? 150) eqn:Ew; cbn [orb].
    + apply Z.ltb_lt in Ew. split; [intros _; left; exact Ew | reflexivity].
    + apply Z.ltb_ge in Ew. destruct (bottom_ - top_ <? 150) eqn:Eh.
      * apply Z.ltb_lt in Eh. split; [intros _; right; exact Eh | reflexivity].
      * apply Z.ltb_ge in Eh. split; [|lia].
        destruct (right_ - left_ <? bottom_ - top_); discriminate.
  - intros l t r b H.
    destruct ((right_ - left_ <? 150) || (bottom_ - top_ <? 150)); [discriminate|].
    destruct (right_ - left_ <? bottom_ - top_) eqn:E.
    + apply Z.ltb_lt in E. injection H as Hl Ht Hr Hb. subst l t r b.
      pose proof (int_half_bounds (bottom_ - top_ - (right_ - left_)) ltac:(lia)). lia.
    + apply Z.ltb_ge in E. injection H as Hl Ht Hr Hb. subst l t r b.
      pose proof (int_half_bounds (right_ - left_ - (bottom_ - top_)) ltac:(lia)). lia.
Qed.

(** A face box 160 wide and 201 high, at the left edge of the image: the
    crop starts 20 pixels left of the image and is 200 by 201. *)
Lemma X14_crop_box_geometry_witness :
  crop_box (0, 50, 251, 160) = Some (-20, 50, 180, 251)
  ∧ Z.abs ((180 - -20) - (251 - 50)) ≤ 1.
Proof.
  destruct (X14_crop_box_geometry 0 50 251 160 ltac:(lia) ltac:(lia)) as [_ H].
  split; [reflexivity|].
  destruct (H (-20) 50 180 251 eq_refl) as (_ & _ & _ & _ & _ & _ & _ & E). exact E.
Defined.

(* ===================================================================== *)
(** * Reading [analysis.txt] *)
(* ===================================================================== *)

Lemma index_nat {A} (l : list A) (n : nat) :
  index l (Z.of_nat n)
  = match l !! n with Some a => Ok a | None => Raise IndexError end.
Proof.
  unfold index.
  replace (Z.of_nat n <? 0) with false by (symmetry; apply Z.ltb_ge; lia).
  replace (0 <=? Z.of_nat n) with true by (symmetry; apply Z.leb_le; lia).
  rewrite Nat2Z.id. cbn [andb].
  destruct (Z.of_nat n <? Z.of_nat (length l)) eqn:E; [reflexivity|].
  apply Z.ltb_ge in E. rewrite (lookup_ge_None_2 l n) by lia. reflexivity.
Qed.

(** The line names the frame [item] for the person [name]. *)
Definition names_frame (name item line : string) : Prop :=
  ∃ rest, words line = item :: name :: rest.

(** The line gives the frame [item] of [name] the box [bb]. *)
Definition gives_box (name item : string) (bb : bounding_box) (line : string) : Prop :=
  ∃ f2 f3 f4 f5 extra left_ top_ bottom_ right_,
    words line = item :: name :: f2 :: f3 :: f4 :: f5 :: extra
    ∧ int_of_str f2 = Ok left_ ∧ int_of_str f3 = Ok top_
    ∧ int_of_str f4 = Ok bottom_ ∧ int_of_str f5 = Ok right_
    ∧ bb = (left_, top_, bottom_, right_).

Lemma dict_set_keys {V} (k : string) (v : V) (d : list (string * V)) (k' : string) :
  In k' (map fst (dict_set k v d)) ↔ k' = k ∨ In k' (map fst d).
Proof.
  induction d as [|[k0 v0] d IH]; cbn [dict_set map fst In].
  - intuition.
  - destruct (String.eqb k k0) eqn:E; cbn [map fst In].
    + apply String.eqb_eq in E. subst k0. intuition.
    + rewrite IH. intuition.
Qed.

Lemma dict_set_NoDup {V} (k : string) (v : V) (d : list (string * V)) :
  NoDup (map fst d) → NoDup (map fst (dict_set k v d)).
Proof.
  induction d as [|[k0 v0] d IH]; cbn [dict_set map fst]; intros H.
  - apply NoDup_singleton.
  - apply NoDup_cons in H. destruct H as [Hk0 Hd].
    destruct (String.eqb k k0) eqn:E; cbn [map fst].
    + apply String.eqb_eq in E. subst k0. apply NoDup_cons. split; assumption.
    + apply String.eqb_neq in E. apply NoDup_cons. split; [|apply IH; exact Hd].
      rewrite list_elem_of_In, dict_set_keys. rewrite list_elem_of_In in Hk0.
      intros [->|Hin]; [apply E; reflexivity | apply Hk0; exact Hin].
Qed.

Lemma dict_set_In {V} (k : string) (v : V) (d : list (string * V)) (k' : string) (v' : V) :
  NoDup (map fst d) →
  In (k', v') (dict_set k v d) ↔ (k' = k ∧ v' = v) ∨ (k' ≠ k ∧ In (k', v') d).
Proof.
  induction d as [|[k0 v0] d IH]; cbn [dict_set map fst]; intros H.
  - cbn [In]. split.
    + intros [E|[]]. inversion E. left. split; reflexivity.
    + intros [[-> ->]|[_ []]]. left. reflexivity.
  - apply NoDup_cons in H. destruct H as [Hk0 Hd]. rewrite list_elem_of_In in Hk0.
    destruct (String.eqb k k0) eqn:E.
    + apply String.eqb_eq in E. subst k0. cbn [In]. split.
      * intros [E|Hin]; [inversion E; left; split; reflexivity|].
        right. split; [|right; exact Hin].
        intros ->. apply Hk0. apply (in_map fst) in Hin. exact Hin.
      * intros [[-> ->]|[Hne [E|Hin]]]; [left; reflexivity | | right; exact Hin].
        inversion E. congruence.
    + apply String.eqb_neq in E. cbn [In]. rewrite (IH Hd). split.
      * intros [E0|[[-> ->]|[Hne Hin]]].
        -- inversion E0; subst. right. split; [congruence | left; reflexivity].
        -- left. split; reflexivity.
        -- right. split; [exact Hne | right; exact Hin].
      * intros [[-> ->]|[Hne [E0|Hin]]].
        -- right. left. split; reflexivity.
        -- left. exact E0.
        -- right. right. split; assumption.
Qed.

(** One line: it either gives a frame of [name] a box, which is set in the
    dictionary, or names somebody else and changes nothing. *)
Lemma analysis_line_cases (name : string) (d d' : list (string * bounding_box))
    (line : string) :
  analysis_line name d line = Ok d' →
  (∃ item bb, gives_box name item bb line ∧ d' = dict_set item bb d)
  ∨ ((∀ item, ¬ names_frame name item line) ∧ d' = d).
Proof.
  unfold analysis_line. intros H.
  destruct (words line) as [|w0 ws] eqn:Ew; [rewrite index_nil in H; discriminate|].
  rewrite index_first in H. cbn [mbind result_bind] in H.
  change 1 with (Z.of_nat 1) in H. change 2 with (Z.of_nat 2) in H.
  change 3 with (Z.of_nat 3) in H. change 4 with (Z.of_nat 4) in H.
  change 5 with (Z.of_nat 5) in H. rewrite !index_nat in H.
  destruct ws as [|w1 ws]; [discriminate|].
  cbn [lookup list_lookup mbind result_bind] in H.
  destruct (String.eqb w1 name) eqn:En.
  - apply String.eqb_eq in En. subst w1. left.
    destruct ws as [|f2 ws]; [discriminate|].
    cbn [lookup list_lookup mbind result_bind] in H.
    destruct (int_of_str f2) as [x2| |] eqn:E2; cbn [mbind result_bind] in H; try discriminate.
    destruct ws as [|f3 ws]; [discriminate|].
    cbn [lookup list_lookup mbind result_bind] in H.
    destruct (int_of_str f3) as [x3| |] eqn:E3; cbn [mbind result_bind] in H; try discriminate.
    destruct ws as [|f4 ws]; [discriminate|].
    cbn [lookup list_lookup mbind result_bind] in H.
    destruct (int_of_str f4) as [x4| |] eqn:E4; cbn [mbind result_bind] in H; try discriminate.
    destruct ws as [|f5 ws]; [discriminate|].
    cbn [lookup list_lookup mbind result_bind] in H.
    destruct (int_of_str f5) as [x5| |] eqn:E5; cbn [mbind result_bind] in H; try discriminate.
    inversion H; subst. exists w0, (x2, x3, x4, x5). split; [|reflexivity].
    exists f2, f3, f4, f5, ws, x2, x3, x4, x5. repeat split; assumption.
  - apply String.eqb_neq in En. right. inversion H; subst. split; [|reflexivity].
    intros item [rest Hrest]. inversion Hrest. congruence.
Qed.

Lemma gives_box_names (name item : string) (bb : bounding_box) (line : string) :
  gives_box name item bb line → names_frame name item line.
Proof. intros (f2 & f3 & f4 & f5 & extra & _ & _ & _ & _ & Hw & _). eexists. exact Hw. Qed.

Lemma gives_box_unique (name item item' : string) (bb bb' : bounding_box) (line : string) :
  gives_box name item bb line → gives_box name item' bb' line → item = item' ∧ bb = bb'.
Proof.
  intros (f2 & f3 & f4 & f5 & extra & x2 & x3 & x4 & x5 & Hw & E2 & E3 & E4 & E5 & ->).
  intros (g2 & g3 & g4 & g5 & extra' & y2 & y3 & y4 & y5 & Hw' & F2 & F3 & F4 & F5 & ->).
  rewrite Hw in Hw'. inversion Hw'; subst. split; [reflexivity|]. congruence.
Qed.

Lemma names_frame_unique (name item item' line : string) :
  names_frame name item line → names_frame name item' line → item = item'.
Proof. intros [r Hr] [r' Hr']. rewrite Hr in Hr'. inversion Hr'. reflexivity. Qed.

(** The last line of [lines] that names [item] gives it [bb]. *)
Definition last_line_gives (name : string) (lines : list string) (item : string)
    (bb : bounding_box) : Prop :=
  ∃ pre line post,
    lines = pre ++ line :: post
    ∧ gives_box name item bb line
    ∧ Forall (fun later => ¬ names_frame name item later) post.

Lemma analysis_lines_entries (name : string) (lines : list string) :
  ∀ d0 d,
    analysis_lines name d0 lines = Ok d →
    NoDup (map fst d0) →
    NoDup (map fst d)
    ∧ ∀ item bb,
        In (item, bb) d
        ↔ last_line_gives name lines item bb
          ∨ (In (item, bb) d0 ∧ Forall (fun line => ¬ names_frame name item line) lines).
Proof.
  induction lines as [|line lines IH]; intros d0 d H Hnd; cbn [analysis_lines] in H.
  - inversion H; subst. split; [exact Hnd|]. intros item bb. split.
    + intros Hin. right. split; [exact Hin | constructor].
    + intros [(pre & l & post & E & _)|[Hin _]]; [|exact Hin].
      destruct pre; discriminate E.
  - destruct (analysis_line name d0 line) as [d1| |] eqn:E1; cbn [mbind result_bind] in H;
      try discriminate.
    destruct (analysis_line_cases name d0 d1 line E1)
      as [(item0 & bb0 & Hg & ->)|[Hother ->]].
    + destruct (IH _ _ H (dict_set_NoDup item0 bb0 d0 Hnd)) as [Hnd' Hin'].
      split; [exact Hnd'|]. intros item bb. rewrite Hin'. split.
      * intros [(pre & l & post & E & Hl & Hpost)|[Hin Hrest]].
        -- left. exists (line :: pre), l, post. rewrite E. repeat split; assumption.
        -- apply (dict_set_In item0 bb0 d0 item bb Hnd) in Hin.
           destruct Hin as [[-> ->]|[Hne Hin]].
           ++ left. exists [], line, lines. repeat split; assumption.
           ++ right. split; [exact Hin|]. constructor; [|exact Hrest].
              intros Hn. apply Hne.
              exact (names_frame_unique name item item0 line Hn (gives_box_names _ _ _ _ Hg)).
      * intros [(pre & l & post & E & Hl & Hpost)|[Hin Hall]].
        -- destruct pre as [|x pre]; cbn [app] in E; inversion E; subst.
           ++ right. destruct (gives_box_unique _ _ _ _ _ _ Hl Hg) as [-> ->].
              split; [|exact Hpost].
              apply (dict_set_In item0 bb0 d0 item0 bb0 Hnd). left. split; reflexivity.
           ++ left. exists pre, l, post. repeat split; assumption.
        -- inversion Hall as [|? ? Hline Hrest]; subst. right. split; [|exact Hrest].
           apply (dict_set_In item0 bb0 d0 item bb Hnd). right. split; [|exact Hin].
           intros ->. apply Hline. exact (gives_box_names _ _ _ _ Hg).
    + destruct (IH _ _ H Hnd) as [Hnd' Hin'].
      split; [exact Hnd'|]. intros item bb. rewrite Hin'. split.
      * intros [(pre & l & post & E & Hl & Hpost)|[Hin Hrest]].
        -- left. exists (line :: pre), l, post. rewrite E. repeat split; assumption.
        -- right. split; [exact Hin|]. constructor; [apply Hother | exact Hrest].
      * intros [(pre & l & post & E & Hl & Hpost)|[Hin Hall]].
        -- destruct pre as [|x pre]; cbn [app] in E; inversion E; subst.
           ++ exfalso. exact (Hother item (gives_box_names _ _ _ _ Hl)).
           ++ left. exists pre, l, post. repeat split; assumption.
        -- inversion Hall; subst. right. split; assumption.
Qed.

(** X15: what the analysis dictionary holds.  When
    [get_adjusted_analysis_dict] returns, no file name is listed twice,
    and a file has the box [bb] exactly when the last line of the file
    that names it for [name] gives it [bb]: a later line for the same
    frame replaces the earlier one, and lines for other names, "none"
    among them, leave no entry. *)
Theorem X15_analysis_dict_keeps_last_line (lines : list string) (name : string)
    (analysis_dict : list (string * bounding_box)) :
  get_adjusted_analysis_dict lines name = Ok analysis_dict →
  NoDup (map fst analysis_dict)
  ∧ ∀ item bb,
      In (item, bb) analysis_dict
      ↔ ∃ pre line post,
          lines = pre ++ line :: post
          ∧ gives_box name item bb line
          ∧ Forall (fun later => ¬ names_frame name item later) post.
Proof.
  unfold get_adjusted_analysis_dict. intros H.
  destruct (analysis_lines_entries name lines [] analysis_dict H (NoDup_nil_2 (A:=string)))
    as [Hnd Hin].
  split; [exact Hnd|]. intros item bb. rewrite Hin. unfold last_line_gives. split.
  - intros [Hl|[[] _]]. exact Hl.
  - intros Hl. left. exact Hl.
Qed.

Lemma X15_analysis_dict_keeps_last_line_witness :
  let lines := ["00001.jpg bob 10 20 200 210"; "00002.jpg none";
                "00001.jpg bob 11 21 201 211"; "00003.jpg eve 5 6 7 8"] in
  let analysis_dict := [("00001.jpg", (11, 21, 201, 211))] in
  NoDup (map fst analysis_dict)
  ∧ ∀ item bb,
      In (item, bb) analysis_dict
      ↔ ∃ pre line post,
          lines = pre ++ line :: post
          ∧ gives_box "bob" item bb line
          ∧ Forall (fun later => ¬ names_frame "bob" item later) post.
Proof.
  intros lines analysis_dict.
  apply (X15_analysis_dict_keeps_last_line lines "bob" analysis_dict).
  vm_compute. reflexivity.
Defined.

Lemma analysis_lines_app (name : string) (pre rest : list string) :
  ∀ d0,
    analysis_lines name d0 (pre ++ rest)
    = (d ← analysis_lines name d0 pre; analysis_lines name d rest).
Proof.
  induction pre as [|line pre IH]; intros d0; [reflexivity|].
  cbn [app analysis_lines].
  destruct (analysis_line name d0 line) as [d1| |]; cbn [mbind result_bind];
    [apply IH | reflexivity..].
Qed.

(** X16: a line with fewer than two words, a blank line among them, is
    not skipped.  If the lines before it read well, [line_data[0]] or
    [line_data[1]] raises IndexError, whatever the name asked for and
    whatever follows. *)
Theorem X16_short_line_raises (pre post : list string) (line name : string)
    (analysis_dict : list (string * bounding_box)) :
  get_adjusted_analysis_dict pre name = Ok analysis_dict →
  (length (words line) < 2)%nat →
  get_adjusted_analysis_dict (pre ++ line :: post) name = Raise IndexError.
Proof.
  unfold get_adjusted_analysis_dict. intros Hpre Hshort.
  rewrite analysis_lines_app, Hpre. cbn [mbind result_bind analysis_lines].
  unfold analysis_line.
  destruct (words line) as [|w0 [|w1 ws]]; [| |cbn [length] in Hshort; lia].
  - rewrite index_nil. reflexivity.
  - rewrite index_first. cbn [mbind result_bind].
    change 1 with (Z.of_nat 1). rewrite index_nat. reflexivity.
Qed.

Lemma X16_short_line_raises_witness :
  get_adjusted_analysis_dict
    (["00001.jpg bob 10 20 200 210"] ++ EmptyString :: ["00002.jpg bob 11 21 201 211"]) "bob"
  = Raise IndexError.
Proof.
  apply (X16_short_line_raises _ _ _ _ [("00001.jpg", (10, 20, 200, 210))]).
  - vm_compute. reflexivity.
  - vm_compute. lia.
Defined.

(** ** From the analysis step to the adjust step *)

Definition no_space (s : string) : bool := all_chars (fun c => negb (is_space c)) s.

Lemma fields_word (w rest : string) (c : ascii) :
  no_space w = true → is_space c = true →
  fields (w ++ String c rest) = w :: fields rest.
Proof.
  intros Hw Hc. induction w as [|a w IH].
  - rewrite append_nil_l. cbn [fields]. rewrite Hc. reflexivity.
  - unfold no_space in Hw. cbn [all_chars] in Hw. apply andb_true_iff in Hw.
    destruct Hw as [Ha Hw]. apply negb_true_iff in Ha.
    rewrite append_cons. cbn [fields]. rewrite Ha, (IH Hw). reflexivity.
Qed.

Lemma words_word (w rest : string) (c : ascii) :
  w ≠ EmptyString → no_space w = true → is_space c = true →
  words (w ++ String c rest) = w :: words rest.
Proof.
  intros Hne Hw Hc. unfold words. rewrite (fields_word w rest c Hw Hc).
  cbn [List.filter]. destruct (String.eqb w EmptyString) eqn:E.
  - apply String.eqb_eq in E. contradiction.
  - reflexivity.
Qed.

Lemma digit_no_space (c : ascii) : is_digit c = true → is_space c = false.
Proof.
  destruct c as [[] [] [] [] [] [] [] []]; intros H; try discriminate H; reflexivity.
Qed.

Lemma digits_are_word (s : string) : all_chars is_digit s = true → no_space s = true.
Proof.
  unfold no_space. induction s as [|c s IH]; cbn [all_chars]; [reflexivity|].
  intros H. apply andb_true_iff in H. destruct H as [Hc Hs].
  rewrite (digit_no_space c Hc), (IH Hs). reflexivity.
Qed.

Lemma log_predictions_last (earlier : list prediction) (p : prediction) (item : string) :
  log_predictions (earlier ++ [p]) item = prediction_line item p.
Proof. unfold log_predictions. rewrite fold_left_app. reflexivity. Qed.

(** X17: from [log_predictions] to [get_adjusted_analysis_dict].  Of the
    predictions for a frame only the last one is written, and the line
    written for it is read back, for the name it carries, as the box
    (left, top, bottom, right) under the frame's file name.  (File name
    and name are not empty and hold no white space; the coordinates are
    not negative.) *)
Theorem X17_logged_box_is_read_back (item name : string) (earlier : list prediction)
    (top_ right_ bottom_ left_ : Z) :
  item ≠ EmptyString → no_space item = true →
  name ≠ EmptyString → no_space name = true →
  0 ≤ top_ → 0 ≤ right_ → 0 ≤ bottom_ → 0 ≤ left_ →
  get_adjusted_analysis_dict
    [log_predictions (earlier ++ [(name, (top_, right_, bottom_, left_))]) item] name
  = Ok [(item, (left_, top_, bottom_, right_))].
Proof.
  intros Hi Hin Hn Hnn Ht Hr Hb Hl.
  destruct (str_of_int_digits left_ Hl) as (L1 & L2 & _).
  destruct (str_of_int_digits top_ Ht) as (T1 & T2 & _).
  destruct (str_of_int_digits bottom_ Hb) as (B1 & B2 & _).
  destruct (str_of_int_digits right_ Hr) as (R1 & R2 & _).
  rewrite log_predictions_last. unfold prediction_line.
  assert (Hw : words (item ++ " " ++ name ++ " " ++ str_of_int left_ ++ " "
                        ++ str_of_int top_ ++ " " ++ str_of_int bottom_ ++ " "
                        ++ str_of_int right_ ++ String "010" EmptyString)
               = [item; name; str_of_int left_; str_of_int top_; str_of_int bottom_;
                  str_of_int right_]).
  { change (" " ++ ?x)%string with (String " " x).
    rewrite (words_word item _ " " Hi Hin eq_refl).
    change (" " ++ ?x)%string with (String " " x).
    rewrite (words_word name _ " " Hn Hnn eq_refl).
    change (" " ++ ?x)%string with (String " " x).
    rewrite (words_word _ _ " " L1 (digits_are_word _ L2) eq_refl).
    change (" " ++ ?x)%string with (String " " x).
    rewrite (words_word _ _ " " T1 (digits_are_word _ T2) eq_refl).
    change (" " ++ ?x)%string with (String " " x).
    rewrite (words_word _ _ " " B1 (digits_are_word _ B2) eq_refl).
    rewrite (words_word _ _ "010" R1 (digits_are_word _ R2) eq_refl).
    reflexivity. }
  unfold get_adjusted_analysis_dict. cbn [analysis_lines]. unfold analysis_line.
  rewrite Hw. rewrite index_first. cbn [mbind result_bind].
  change 1 with (Z.of_nat 1). change 2 with (Z.of_nat 2).
  change 3 with (Z.of_nat 3). change 4 with (Z.of_nat 4).
  change 5 with (Z.of_nat 5). rewrite !index_nat.
  cbn [lookup list_lookup mbind result_bind]. rewrite String.eqb_refl.
  rewrite !int_of_str_of_int by assumption. reflexivity.
Qed.

Lemma X17_logged_box_is_read_back_witness :
  get_adjusted_analysis_dict
    [log_predictions ([("eve", (1, 2, 3, 4))] ++ [("bob", (40, 310, 250, 100))]) "00012.jpg"]
    "bob"
  = Ok [("00012.jpg", (100, 40, 250, 310))].
Proof.
  apply X17_logged_box_is_read_back; (discriminate || reflexivity || lia).
Defined.

(* ===================================================================== *)
(** * The angle of the eyebrows *)
(* ===================================================================== *)

(** X18: the direction of the tilt is lost.  The value handed to
    [math.acos] depends on the two outer eyebrow points only through
    their horizontal distance and the size of their height difference:
    two faces whose outer points differ only in which of the two is the
    higher get the same cosine, hence the same rotation. *)
Theorem X18_tilt_direction_is_lost (f g : face) (xl yl xr yr yl' yr' : Z) :
  index (sort_by_x (left_eyebrow f)) (-1) = Ok (xl, yl) →
  index (sort_by_x (right_eyebrow f)) 1 = Ok (xr, yr) →
  index (sort_by_x (left_eyebrow g)) (-1) = Ok (xl, yl') →
  index (sort_by_x (right_eyebrow g)) 1 = Ok (xr, yr') →
  yl' - yr' = yr - yl →
  eyebrow_cosine f = eyebrow_cosine g.
Proof.
  intros Hfl Hfr Hgl Hgr Hm. unfold eyebrow_cosine.
  rewrite Hfl, Hfr, Hgl, Hgr. cbn [mbind result_bind]. cbv zeta.
  unfold X, Y. cbn [fst snd].
  rewrite !Z.sub_diag.
  replace (yr' - yl') with (- (yr - yl)) by lia.
  rewrite Hm.
  replace (yl - yr) with (- (yr - yl)) by lia.
  replace ((- (yr - yl)) ^ 2) with ((yr - yl) ^ 2) by ring.
  reflexivity.
Qed.

Lemma X18_tilt_direction_is_lost_witness :
  eyebrow_cosine (Face [] [] [(60, 30); (70, 28); (80, 24)] [(10, 33); (20, 36); (30, 34)])
  = eyebrow_cosine (Face [] [] [(60, 30); (70, 28); (80, 36)] [(10, 33); (20, 24); (30, 34)]).
Proof.
  apply (X18_tilt_direction_is_lost _ _ 80 24 20 36 36 24); reflexivity.
Defined.

(** X19: outer eyebrow points one above the other.  When the last point
    of the left eyebrow and the second point of the right eyebrow (both
    by x) share their x coordinate, the root under the division is 0 and
    the division raises ZeroDivisionError before [math.acos] is
    reached. *)
Theorem X19_vertical_eyebrow_line_divides_by_zero (f : face) (x yl yr : Z) :
  index (sort_by_x (left_eyebrow f)) (-1) = Ok (x, yl) →
  index (sort_by_x (right_eyebrow f)) 1 = Ok (x, yr) →
  eyebrow_cosine f = Raise ZeroDivisionError.
Proof.
  intros Hl Hr. unfold eyebrow_cosine.
  rewrite Hl, Hr. cbn [mbind result_bind]. cbv zeta.
  unfold X, Y. cbn [fst snd].
  rewrite !Z.sub_diag. change (0 ^ 2) with 0. rewrite !Z.add_0_l, Z.mul_0_r, Z.mul_0_l.
  replace ((yr - yl) ^ 2 - (yl - yr) ^ 2) with 0 by ring.
  reflexivity.
Qed.

Lemma X19_vertical_eyebrow_line_divides_by_zero_witness :
  eyebrow_cosine (Face [] [] [(20, 30); (18, 28)] [(10, 33); (20, 36); (30, 34)])
  = Raise ZeroDivisionError.
Proof.
  apply (X19_vertical_eyebrow_line_divides_by_zero _ 20 30 36); reflexivity.
Defined.

(* ===================================================================== *)
(** * What a run of [adjust_images] saves *)
(* ===================================================================== *)

Lemma crop_box_some_large (left_ top_ bottom_ right_ : Z) (box : Z * Z * Z * Z) :
  crop_box (left_, top_, bottom_, right_) = Some box →
  150 ≤ right_ - left_ ∧ 150 ≤ bottom_ - top_.
Proof.
  unfold crop_box.
  destruct (right_ - left_ <? 150) eqn:Ew; cbn [orb]; [discriminate|].
  destruct (bottom_ - top_ <? 150) eqn:Eh; [discriminate|].
  apply Z.ltb_ge in Ew. apply Z.ltb_ge in Eh. intros _. split; assumption.
Qed.

Section Run.
Variable Image : Type.
Variable face_landmarks : nat → Image → list face.
Variable pil_crop : Image → Z * Z * Z * Z → Image.
Variable pil_resize : Image → Z * Z → Image.
Variable pil_convert : Image → string → Image.
Variable rotate_by_eyebrows : Image → face → result Image.
Variable shift_to_mouth : Image → face → result Image.
Variable open_image : string → Image.

Local Abbreviation adjust_one :=
  (adjust Image face_landmarks pil_crop pil_resize pil_convert
     rotate_by_eyebrows shift_to_mouth).
Local Abbreviation adjust_all :=
  (adjust_images Image face_landmarks pil_crop pil_resize pil_convert
     rotate_by_eyebrows shift_to_mouth open_image).

(** With a detector that answers alike on the same image, a saved file
    carries a ratio that is a number. *)
Lemma adjust_steady_ratio (opened : Image) (image_path adjustments_path path : string)
    (bb : bounding_box) (final : Image) :
  repeatable face_landmarks →
  adjust_one opened image_path bb adjustments_path = Ok (Some (path, final)) →
  ∃ r, 1 ≤ r ≤ 100
       ∧ path = (strip ".jpg" (path_join adjustments_path (file_name_of image_path))
                 ++ ratio_suffix (Some r))%string.
Proof.
  intros Hrep H. unfold adjust, crop_image in H.
  destruct (crop_box bb) as [box|]; cbn [fmap option_fmap option_map] in H;
    [|discriminate].
  destruct (get_mouth_open_ratio Image face_landmarks (pil_crop opened box))
    as [ratio| |] eqn:Er; cbn [mbind result_bind] in H; try discriminate.
  unfold rotate_image in H. rewrite (Hrep 1%nat 0%nat) in H.
  unfold get_mouth_open_ratio in Er.
  destruct (face_landmarks 0%nat (pil_crop opened box)) as [|f rest] eqn:Ef.
  - cbn [mbind result_bind] in H. discriminate.
  - destruct ratio as [r|].
    + exists r. split; [exact (mouth_open_ratio_from_range _ _ Er)|].
      destruct (Some <$> rotate_by_eyebrows (pil_crop opened box) f)
        as [[rotated|]| |]; cbn [mbind result_bind] in H; try discriminate.
      destruct (center_image Image face_landmarks shift_to_mouth rotated)
        as [[centered|]| |]; cbn [mbind result_bind] in H; try discriminate.
      inversion H. reflexivity.
    + exfalso. unfold mouth_open_ratio_from in Er. repeat step_bind Er.
Qed.

(** X20: no small face is saved.  Every file that a run of
    [adjust_images] saves comes from a frame that the analysis lists for
    the person, that was not adjusted before, and whose face box is at
    least 150 pixels wide and 150 pixels high. *)
Theorem X20_saved_faces_are_large (images_path : string) (listing : option (list string))
    (lines : list string) (name : string) (clear : bool)
    (analysis_dict : list (string * bounding_box)) (saved : list (string * Image)) :
  get_adjusted_analysis_dict lines name = Ok analysis_dict →
  adjust_all images_path listing lines name clear = Ok saved →
  ∀ file, In file saved →
    ∃ item left_ top_ bottom_ right_,
      In (item, (left_, top_, bottom_, right_)) analysis_dict
      ∧ 150 ≤ right_ - left_ ∧ 150 ≤ bottom_ - top_
      ∧ ¬ In item (if clear then [] else get_already_adjusted_images listing)
      ∧ adjust_one (open_image (path_join (path_join images_path "frames") item))
          (path_join (path_join images_path "frames") item)
          (left_, top_, bottom_, right_) (path_join images_path "adjustments")
        = Ok (Some file).
Proof.
  intros Hd Hrun file Hin. unfold adjust_images in Hrun. rewrite Hd in Hrun.
  cbn [mbind result_bind] in Hrun.
  destruct (adjust_each_saved _ _ _ _ _ _ _ _ _ _ _ _ _ Hrun file Hin)
    as (item & bb & Hitem & Hnew & Hone).
  destruct bb as [[[left_ top_] bottom_] right_].
  exists item, left_, top_, bottom_, right_.
  split; [exact Hitem|].
  destruct file as [path final].
  destruct (adjust_saved _ _ _ _ _ _ _ _ _ _ _ _ _ Hone) as (box & _ & Hbox & _).
  destruct (crop_box_some_large _ _ _ _ _ Hbox) as [Hw Hh].
  repeat split; assumption.
Qed.

(** X21: with a detector that answers alike whenever it is shown the
    same image, every file that a run of [adjust_images] saves is named
    [<stem>_<ratio>.jpg] with a ratio between 1 and 100; no file named
    [..._None.jpg] is written. *)
Theorem X21_steady_detector_saves_numeric_ratios (images_path : string)
    (listing : option (list string)) (lines : list string) (name : string) (clear : bool)
    (saved : list (string * Image)) :
  repeatable face_landmarks →
  adjust_all images_path listing lines name clear = Ok saved →
  ∀ file, In file saved →
    ∃ stem r, 1 ≤ r ≤ 100
              ∧ fst file = (stem ++ "_" ++ str_of_int r ++ ".jpg")%string.
Proof.
  intros Hrep Hrun file Hin. unfold adjust_images in Hrun.
  destruct (get_adjusted_analysis_dict lines name) as [d| |]; cbn [mbind result_bind] in Hrun;
    try discriminate.
  destruct (adjust_each_saved _ _ _ _ _ _ _ _ _ _ _ _ _ Hrun file Hin)
    as (item & bb & _ & _ & Hone).
  destruct file as [path final].
  destruct (adjust_steady_ratio _ _ _ _ _ _ Hrep Hone) as (r & Hr & Hpath).
  eexists. exists r. split; [exact Hr|]. cbn [fst]. exact Hpath.
Qed.

End Run.

(** Frame 7 has a face of 160 by 200 pixels, frame 8 one of 100 by 100. *)
Lemma X20_saved_faces_are_large_witness :
  let f := Face [(0, 10); (4, 10); (8, 10)] [(0, 10); (4, 13); (8, 10)]
                [(1, 2); (3, 1)] [(5, 1); (7, 2)] in
  let lines := ["00007.jpg alice 100 50 250 260"; "00008.jpg alice 0 0 100 100"] in
  adjust_images unit (fun _ _ => [f])
    (fun img _ => img) (fun img _ => img) (fun img _ => img)
    (fun img _ => Ok img) (fun img _ => Ok img) (fun _ => tt)
    "/videos/A" None lines "alice" true
  = Ok [("/videos/A/adjustments/00007_37.jpg", tt)]
  ∧ ∃ item left_ top_ bottom_ right_,
      In (item, (left_, top_, bottom_, right_))
         [("00007.jpg", (100, 50, 250, 260)); ("00008.jpg", (0, 0, 100, 100))]
      ∧ 150 ≤ right_ - left_ ∧ 150 ≤ bottom_ - top_.
Proof.
  intros f lines.
  assert (R : adjust_images unit (fun _ _ => [f])
                (fun img _ => img) (fun img _ => img) (fun img _ => img)
                (fun img _ => Ok img) (fun img _ => Ok img) (fun _ => tt)
                "/videos/A" None lines "alice" true
              = Ok [("/videos/A/adjustments/00007_37.jpg", tt)]) by (vm_compute; reflexivity).
  split; [exact R|].
  destruct (X20_saved_faces_are_large unit (fun _ _ => [f])
              (fun img _ => img) (fun img _ => img) (fun img _ => img)
              (fun img _ => Ok img) (fun img _ => Ok img) (fun _ => tt)
              "/videos/A" None lines "alice" true
              [("00007.jpg", (100, 50, 250, 260)); ("00008.jpg", (0, 0, 100, 100))]
              [("/videos/A/adjustments/00007_37.jpg", tt)]
              eq_refl R ("/videos/A/adjustments/00007_37.jpg", tt) (or_introl eq_refl))
    as (item & left_ & top_ & bottom_ & right_ & A & B & C & _).
  exists item, left_, top_, bottom_, right_. split; [exact A | split; [exact B | exact C]].
Defined.

Lemma X21_steady_detector_saves_numeric_ratios_witness :
  let f := Face [(0, 10); (4, 10); (8, 10)] [(0, 10); (4, 13); (8, 10)]
                [(1, 2); (3, 1)] [(5, 1); (7, 2)] in
  let lines := ["00007.jpg alice 100 50 250 260"; "00008.jpg alice 0 0 100 100"] in
  ∃ stem r, 1 ≤ r ≤ 100
            ∧ "/videos/A/adjustments/00007_37.jpg" = (stem ++ "_" ++ str_of_int r ++ ".jpg")%string.
Proof.
  intros f lines.
  exact (X21_steady_detector_saves_numeric_ratios unit (fun _ _ => [f])
           (fun img _ => img) (fun img _ => img) (fun img _ => img)
           (fun img _ => Ok img) (fun img _ => Ok img) (fun _ => tt)
           "/videos/A" None lines "alice" true
           [("/videos/A/adjustments/00007_37.jpg", tt)]
           (fun n m img => eq_refl) eq_refl
           ("/videos/A/adjustments/00007_37.jpg", tt) (or_introl eq_refl)).
Defined.
